(** * Event-driven control core of the Pearl Gecko sensing device

    A shallow embedding of the drivers of [MH_Course_Project]
    (sleep_routines.c, scheduler.c, i2c.c, leuart.c, ble.c) and the
    properties of its specification that concern them.

    Conventions of the embedding:
    - a [uint32_t] is a [Z] kept in [0, 2^32) by [uint32]; a [uint8_t] and a
      [char] (unsigned on the ARM EABI the project is built for) are a [Z]
      kept in [0, 2^8) by [uint8]; an [int] is a [Z] kept in range by [int32];
    - a C array is a [list Z] read with [!!] and written with [<[_:=_]>];
    - a driver function is a computation in the monad [M], whose outcomes
      tell a normal return from a failed [EFM_ASSERT], from a busy wait that
      cannot end and from an access that C leaves undefined. *)

From stdpp Require Import base numbers list strings.

Local Open Scope Z_scope.

(** ** Machine integers *)

Definition uint32 (z : Z) : Z := z mod 2 ^ 32.
Definition uint8 (z : Z) : Z := z mod 2 ^ 8.
Definition int32 (z : Z) : Z := (z + 2 ^ 31) mod 2 ^ 32 - 2 ^ 31.

(** ** Outcomes and the driver monad *)

Inductive outcome (S A : Type) : Type :=
| Ok (a : A) (s : S)
    (* the function returns [a] and leaves the state [s] *)
| Fault (s : S)
    (* an [EFM_ASSERT] failed: the core halts in [assertEFM], in state [s] *)
| Hang (s : S)
    (* a busy wait whose condition no step of this function changes *)
| Undefined.
    (* an array is accessed outside its bounds *)

Arguments Ok {S A} a s.
Arguments Fault {S A} s.
Arguments Hang {S A} s.
Arguments Undefined {S A}.

Definition M (S A : Type) : Type := S → outcome S A.

Definition ret {S A} (a : A) : M S A := λ s, Ok a s.

Definition bind {S A B} (m : M S A) (k : A → M S B) : M S B :=
  λ s, match m s with
       | Ok a s' => k a s'
       | Fault s' => Fault s'
       | Hang s' => Hang s'
       | Undefined => Undefined
       end.

#[global] Instance M_ret {S} : MRet (M S) := λ A, ret.
#[global] Instance M_bind {S} : MBind (M S) := λ A B k m, bind m k.

Definition get {S} : M S S := λ s, Ok s s.
Definition put {S} (s : S) : M S unit := λ _, Ok tt s.
Definition modify {S} (f : S → S) : M S unit := λ s, Ok tt (f s).
Definition undefined {S A} : M S A := λ _, Undefined.
Definition hang {S A} : M S A := λ s, Hang s.

(** [EFM_ASSERT(expr)] with [DEBUG_EFM] defined: a false [expr] never
    returns. *)
Definition EFM_ASSERT {S} (expr : bool) : M S unit :=
  λ s, if expr then Ok tt s else Fault s.

(** Running a computation written for a part [P] of the state [W]. *)
Definition zoom {W P A} (proj : W → P) (inj : P → W → W) (m : M P A) : M W A :=
  λ w, match m (proj w) with
       | Ok a p => Ok a (inj p w)
       | Fault p => Fault (inj p w)
       | Hang p => Hang (inj p w)
       | Undefined => Undefined
       end.

(** Array accesses: inside the bounds they read and write the cell,
    outside C gives them no meaning. *)
Definition aload (l : list Z) (i : Z) : option Z :=
  if (0 <=? i) && (i <? Z.of_nat (length l)) then l !! Z.to_nat i else None.

Definition astore (l : list Z) (i : Z) (v : Z) : option (list Z) :=
  if (0 <=? i) && (i <? Z.of_nat (length l)) then Some (<[Z.to_nat i := v]> l)
  else None.

Definition of_option {S A} (o : option A) : M S A :=
  match o with Some a => ret a | None => undefined end.

(** The state an outcome stops in, if it has one. *)
Definition final_state {S A} (o : outcome S A) : option S :=
  match o with
  | Ok _ s | Fault s | Hang s => Some s
  | Undefined => None
  end.

(** [m] run [n] times in a row. *)
Fixpoint times {S} (n : nat) (m : M S unit) : M S unit :=
  match n with
  | O => ret tt
  | S n' => m ;; times n' m
  end.

(** ** sleep_routines.c *)

Module Sleep.

Definition EM0 : Z := 0.
Definition EM1 : Z := 1.
Definition EM2 : Z := 2.
Definition EM3 : Z := 3.
Definition EM4 : Z := 4.
Definition MAX_ENERGY_MODES : Z := 5.

(** [static int lowest_energy_mode[MAX_ENERGY_MODES]] *)
Abbreviation table := (list Z).

Definition rd (EM : Z) : M table Z := λ t, of_option (aload t EM) t.
Definition wr (EM : Z) (v : Z) : M table unit :=
  λ t, match astore t EM v with Some t' => Ok tt t' | None => Undefined end.

Fixpoint sleep_open_from (n : nat) (i : Z) : M table unit :=
  match n with
  | O => ret tt
  | S n' => if i <? MAX_ENERGY_MODES then wr i 0 ;; sleep_open_from n' (uint32 (i + 1))
            else ret tt
  end.

Definition sleep_open : M table unit :=
  sleep_open_from (Z.to_nat MAX_ENERGY_MODES) 0.

Definition sleep_block_mode (EM : Z) : M table unit :=
  c ← rd EM ;
  wr EM (int32 (c + 1)) ;;
  c' ← rd EM ;
  EFM_ASSERT (c' <? 5).

Definition sleep_unblock_mode (EM : Z) : M table unit :=
  c ← rd EM ;
  (if 0 <? c then wr EM (int32 (c - 1)) else ret tt) ;;
  c' ← rd EM ;
  EFM_ASSERT (0 <=? c').

(** The calls [enter_sleep] can make into the energy management unit. *)
Inductive emu_call : Type :=
| EMU_EnterEM1
| EMU_EnterEM2 (restore : bool)
| EMU_EnterEM3 (restore : bool)
| EMU_EnterEM4.

(** [enter_sleep] leaves the table as it is; its result here is the list of
    calls it makes. *)
Definition enter_sleep : M table (list emu_call) :=
  c0 ← rd EM0 ;
  if 0 <? c0 then ret []
  else
    c1 ← rd EM1 ;
    if 0 <? c1 then ret []
    else
      c2 ← rd EM2 ;
      if 0 <? c2 then ret [EMU_EnterEM1]
      else
        c3 ← rd EM3 ;
        if 0 <? c3 then ret [EMU_EnterEM2 true]
        else ret [EMU_EnterEM3 true].

(** [current_block_energy_mode]: the loop variable is declared without an
    initialiser ([for(uint32_t i; ...)]), so the value it starts from is
    whatever its register or stack slot holds; [i0] stands for that value. *)
Fixpoint scan_from (n : nat) (i : Z) : M table Z :=
  match n with
  | O => ret (MAX_ENERGY_MODES - 1)
  | S n' =>
      if i <? MAX_ENERGY_MODES then
        c ← rd i ;
        if negb (c =? 0) then ret i else scan_from n' (uint32 (i + 1))
      else ret (MAX_ENERGY_MODES - 1)
  end.

Definition current_block_energy_mode (i0 : Z) : M table Z :=
  scan_from (Z.to_nat MAX_ENERGY_MODES) i0.

(** Sequences of calls of the two counting functions. *)
Inductive call : Type :=
| Block (EM : Z)
| Unblock (EM : Z).

Definition level (c : call) : Z :=
  match c with Block EM | Unblock EM => EM end.

Definition do_call (c : call) : M table unit :=
  match c with
  | Block EM => sleep_block_mode EM
  | Unblock EM => sleep_unblock_mode EM
  end.

Fixpoint do_calls (cs : list call) : M table unit :=
  match cs with
  | [] => ret tt
  | c :: cs' => do_call c ;; do_calls cs'
  end.

Definition valid_level (EM : Z) : Prop := 0 <= EM < MAX_ENERGY_MODES.

(** The counts stay in [0, 5) while the core runs, and in [0, 5] in the
    state a failed assertion halts it in: [bounded 5] and [bounded 6]. *)
Definition bounded (hi : Z) (t : table) : Prop :=
  length t = Z.to_nat MAX_ENERGY_MODES ∧ Forall (λ c, 0 <= c < hi) t.

End Sleep.

(** ** scheduler.c *)

Module Scheduler.

(** [static unsigned int event_scheduled], together with a record of the
    events handed to [add_scheduled_event], oldest first.  The record is not
    in the C code: the mask alone cannot tell one posting from two. *)
Record t : Type := mk {
  event_scheduled : Z;
  posted : list Z
}.

Definition scheduler_open : M t unit :=
  modify (λ s, mk 0 (posted s)).

Definition add_scheduled_event (event : Z) : M t unit :=
  modify (λ s, mk (Z.lor (event_scheduled s) event) (posted s ++ [event])).

Definition remove_scheduled_event (event : Z) : M t unit :=
  modify (λ s, mk (Z.land (event_scheduled s) (uint32 (Z.lnot event))) (posted s)).

Definition get_scheduled_events : M t Z :=
  s ← get; ret (event_scheduled s).

End Scheduler.

(** ** Register constants of the device headers *)

(** Modelled from the spec: the vendor headers em_i2c.h and em_leuart.h are
    not among the repository sources, and the drivers only name the bits.
    The specification tells the bus conditions and the serial interrupts
    apart as separate conditions; the values below, those of the EFM32PG12
    device headers, make each one a single bit of its register. *)

Module Reg.

Definition I2C_CMD_START : Z := 0x1.
Definition I2C_CMD_STOP : Z := 0x2.
Definition I2C_CMD_ACK : Z := 0x4.
Definition I2C_CMD_NACK : Z := 0x8.
Definition I2C_CMD_ABORT : Z := 0x20.
Definition I2C_CMD_CLEARTX : Z := 0x40.

Definition I2C_IF_RXDATAV : Z := 0x20.
Definition I2C_IF_ACK : Z := 0x40.
Definition I2C_IF_NACK : Z := 0x80.
Definition I2C_IF_MSTOP : Z := 0x100.

Definition _I2C_STATE_MASK : Z := 0xFF.
Definition I2C_STATE_STATE_IDLE : Z := 0.

Definition LEUART_CMD_RXBLOCKEN : Z := 0x10.
Definition LEUART_CMD_RXBLOCKDIS : Z := 0x20.

Definition LEUART_IF_TXC : Z := 0x1.
Definition LEUART_IF_TXBL : Z := 0x2.
Definition LEUART_IF_RXDATAV : Z := 0x4.
Definition LEUART_IF_STARTF : Z := 0x200.
Definition LEUART_IF_SIGF : Z := 0x400.
Definition _LEUART_IFC_MASK : Z := 0x7F9.

Definition LEUART_IEN_TXC : Z := LEUART_IF_TXC.
Definition LEUART_IEN_TXBL : Z := LEUART_IF_TXBL.
Definition LEUART_IEN_RXDATAV : Z := LEUART_IF_RXDATAV.
Definition LEUART_IEN_STARTF : Z := LEUART_IF_STARTF.
Definition LEUART_IEN_SIGF : Z := LEUART_IF_SIGF.

(** [reg |= bits], [reg &= ~bits] and the test [reg & bits] on a 32-bit
    register. *)
Definition set_bits (reg bits : Z) : Z := Z.lor reg bits.
Definition clear_bits (reg bits : Z) : Z := Z.land reg (uint32 (Z.lnot bits)).
Definition any_bit (reg bits : Z) : bool := negb (Z.land reg bits =? 0).

End Reg.

(** ** i2c.c *)

Module I2C.

Import Reg.

(** [enum i2c_defined_states] *)
Definition handshake : Z := 0.
Definition measure_cmd : Z := 1.
Definition confirm_cmd : Z := 2.
Definition RX_MS_byte : Z := 3.
Definition RX_LS_byte : Z := 4.
Definition end_comm : Z := 5.

Definition I2C_EM_BLOCK : Z := 2.

(** The two I2C peripherals a [I2C_TypeDef *] can point to. *)
Inductive periph : Type := I2C0 | I2C1.

#[global] Instance periph_eq_dec : EqDecision periph.
Proof. solve_decision. Defined.

(** What the driver writes to a peripheral, in the order of the writes. *)
Inductive reg_write : Type :=
| CMD (v : Z)
| TXDATA (v : Z).

(** The registers of [I2C_TypeDef] the driver touches.  [RXDATA] holds the
    byte the bus delivered last; [written] collects the writes to the
    write-only registers [CMD] and [TXDATA]. *)
Record I2C_TypeDef : Type := mkRegs {
  STATE : Z;
  IEN : Z;
  IF_ : Z;
  RXDATA : Z;
  written : list reg_write
}.

(** [I2C_STATE_MACHINE]; [data] is the address, in [ram], of the word the
    reading goes to. *)
Record I2C_STATE_MACHINE : Type := mkSM {
  state : Z;
  slave_address : Z;
  command : Z;
  data : Z;
  read : bool;
  I2Cn : periph;
  callback : Z
}.

Record world : Type := mkWorld {
  i2c_sm : I2C_STATE_MACHINE;
  event : Z;                       (* [static uint32_t event] *)
  I2C0_regs : I2C_TypeDef;
  I2C1_regs : I2C_TypeDef;
  ram : list Z;
  sleep : Sleep.table;
  sched : Scheduler.t
}.

(** [*p] for a peripheral pointer [p]. *)
Definition regs (w : world) (p : periph) : I2C_TypeDef :=
  match p with I2C0 => I2C0_regs w | I2C1 => I2C1_regs w end.

Definition with_sm (f : I2C_STATE_MACHINE → I2C_STATE_MACHINE) (w : world) : world :=
  mkWorld (f (i2c_sm w)) (event w) (I2C0_regs w) (I2C1_regs w) (ram w) (sleep w)
          (sched w).
Definition with_event (e : Z) (w : world) : world :=
  mkWorld (i2c_sm w) e (I2C0_regs w) (I2C1_regs w) (ram w) (sleep w) (sched w).
Definition with_regs (p : periph) (f : I2C_TypeDef → I2C_TypeDef) (w : world) : world :=
  match p with
  | I2C0 => mkWorld (i2c_sm w) (event w) (f (I2C0_regs w)) (I2C1_regs w) (ram w)
                    (sleep w) (sched w)
  | I2C1 => mkWorld (i2c_sm w) (event w) (I2C0_regs w) (f (I2C1_regs w)) (ram w)
                    (sleep w) (sched w)
  end.
Definition with_ram (m : list Z) (w : world) : world :=
  mkWorld (i2c_sm w) (event w) (I2C0_regs w) (I2C1_regs w) m (sleep w) (sched w).
Definition with_sleep (t : Sleep.table) (w : world) : world :=
  mkWorld (i2c_sm w) (event w) (I2C0_regs w) (I2C1_regs w) (ram w) t (sched w).
Definition with_sched (s : Scheduler.t) (w : world) : world :=
  mkWorld (i2c_sm w) (event w) (I2C0_regs w) (I2C1_regs w) (ram w) (sleep w) s.

Definition set_state (v : Z) : M world unit :=
  modify (with_sm (λ sm, mkSM v (slave_address sm) (command sm) (data sm)
                              (read sm) (I2Cn sm) (callback sm))).

Definition write (p : periph) (x : reg_write) : M world unit :=
  modify (with_regs p (λ r, mkRegs (STATE r) (IEN r) (IF_ r) (RXDATA r)
                                  (written r ++ [x]))).

Definition set_IEN (p : periph) (v : Z) : M world unit :=
  modify (with_regs p (λ r, mkRegs (STATE r) v (IF_ r) (RXDATA r) (written r))).
Definition set_IF (p : periph) (v : Z) : M world unit :=
  modify (with_regs p (λ r, mkRegs (STATE r) (IEN r) v (RXDATA r) (written r))).

Definition load_word (a : Z) : M world Z :=
  w ← get; of_option (aload (ram w) a).
Definition store_word (a v : Z) : M world unit :=
  w ← get;
  m ← of_option (astore (ram w) a v);
  put (with_ram m w).

Definition sleep_block_mode (EM : Z) : M world unit :=
  zoom sleep with_sleep (Sleep.sleep_block_mode EM).
Definition sleep_unblock_mode (EM : Z) : M world unit :=
  zoom sleep with_sleep (Sleep.sleep_unblock_mode EM).
Definition add_scheduled_event (e : Z) : M world unit :=
  zoom sched with_sched (Scheduler.add_scheduled_event e).

(** The address byte: [(slave_address << 1) | rw]. *)
Definition address_byte (slave_add : Z) (rw : bool) : Z :=
  Z.lor (uint32 (Z.shiftl slave_add 1)) (if rw then 1 else 0).

Definition i2c_ack : M world unit :=
  w ← get;
  let sm := i2c_sm w in
  if state sm =? handshake then
    set_state measure_cmd ;;
    write (I2Cn sm) (TXDATA (command sm))
  else if state sm =? measure_cmd then
    set_state confirm_cmd ;;
    write (I2Cn sm) (CMD I2C_CMD_START) ;;
    write (I2Cn sm) (TXDATA (address_byte (slave_address sm) true))
  else if state sm =? confirm_cmd then
    set_state RX_MS_byte
  else if state sm =? RX_MS_byte then
    ret tt
  else if state sm =? RX_LS_byte then
    EFM_ASSERT false
  else if state sm =? end_comm then
    EFM_ASSERT false
  else
    EFM_ASSERT false.

Definition i2c_nack : M world unit :=
  w ← get;
  let sm := i2c_sm w in
  if state sm =? handshake then
    write (I2Cn sm) (CMD I2C_CMD_START) ;;
    write (I2Cn sm) (TXDATA (address_byte (slave_address sm) false))
  else if state sm =? measure_cmd then
    EFM_ASSERT false
  else if state sm =? confirm_cmd then
    write (I2Cn sm) (CMD I2C_CMD_START) ;;
    write (I2Cn sm) (TXDATA (address_byte (slave_address sm) true))
  else if state sm =? RX_MS_byte then
    EFM_ASSERT false
  else if state sm =? RX_LS_byte then
    EFM_ASSERT false
  else if state sm =? end_comm then
    EFM_ASSERT false
  else
    EFM_ASSERT false.

Definition i2c_rxdatav : M world unit :=
  w ← get;
  let sm := i2c_sm w in
  if state sm =? handshake then
    EFM_ASSERT false
  else if state sm =? measure_cmd then
    EFM_ASSERT false
  else if state sm =? confirm_cmd then
    EFM_ASSERT false
  else if state sm =? RX_MS_byte then
    old ← load_word (data sm);
    store_word (data sm)
      (Z.lor old (uint32 (Z.shiftl (RXDATA (regs w (I2Cn sm))) 8))) ;;
    set_state RX_LS_byte ;;
    write (I2Cn sm) (CMD I2C_CMD_ACK)
  else if state sm =? RX_LS_byte then
    old ← load_word (data sm);
    store_word (data sm) (Z.lor old (RXDATA (regs w (I2Cn sm)))) ;;
    set_state end_comm ;;
    write (I2Cn sm) (CMD I2C_CMD_NACK) ;;
    write (I2Cn sm) (CMD I2C_CMD_STOP)
  else if state sm =? end_comm then
    EFM_ASSERT false
  else
    EFM_ASSERT false.

Definition i2c_mstop : M world unit :=
  w ← get;
  let sm := i2c_sm w in
  if state sm =? handshake then
    EFM_ASSERT false
  else if state sm =? measure_cmd then
    EFM_ASSERT false
  else if state sm =? confirm_cmd then
    EFM_ASSERT false
  else if state sm =? RX_MS_byte then
    EFM_ASSERT false
  else if state sm =? RX_LS_byte then
    EFM_ASSERT false
  else if state sm =? end_comm then
    sleep_unblock_mode I2C_EM_BLOCK ;;
    add_scheduled_event (event w) ;;
    set_state handshake
  else
    EFM_ASSERT false.

(** [i2c_open], as far as the state above goes: the interrupt flags are
    cleared by the bus reset, [event] takes the event of the setup
    structure, and the four interrupts of the state machine are enabled.
    Clock, NVIC, [I2C_Init] and pin routing have no counterpart here. *)
Definition i2c_open (i2c : periph) (event_def : Z) : M world unit :=
  modify (with_event event_def) ;;
  set_IEN i2c 0 ;;
  set_IF i2c 0 ;;
  write i2c (CMD I2C_CMD_CLEARTX) ;;
  write i2c (CMD (Z.lor I2C_CMD_START I2C_CMD_STOP)) ;;
  write i2c (CMD I2C_CMD_ABORT) ;;
  set_IEN i2c (set_bits (set_bits (set_bits (set_bits 0 I2C_IF_ACK) I2C_IF_NACK)
                                  I2C_IF_RXDATAV) I2C_IF_MSTOP).

Definition i2c_start (slave_add cmd read_data : Z) (i2c : periph)
    (si7021_read_cb : Z) : M world unit :=
  w ← get;
  EFM_ASSERT (Z.land (STATE (regs w i2c)) _I2C_STATE_MASK =? I2C_STATE_STATE_IDLE) ;;
  sleep_block_mode I2C_EM_BLOCK ;;
  modify (with_sm (λ _, mkSM handshake slave_add cmd read_data false i2c
                             si7021_read_cb)) ;;
  write i2c (CMD I2C_CMD_START) ;;
  write i2c (TXDATA (address_byte slave_add false)).

Definition I2C0_IRQHandler : M world unit :=
  w ← get;
  let int_flag := Z.land (IF_ (regs w I2C0)) (IEN (regs w I2C0)) in
  set_IF I2C0 (clear_bits (IF_ (regs w I2C0)) int_flag) ;;
  (if any_bit int_flag I2C_IF_ACK then i2c_ack else ret tt) ;;
  (if any_bit int_flag I2C_IF_NACK then i2c_nack else ret tt) ;;
  (if any_bit int_flag I2C_IF_RXDATAV then i2c_rxdatav else ret tt) ;;
  (if any_bit int_flag I2C_IF_MSTOP then i2c_mstop else ret tt).

(** The four interrupt conditions of the state machine and their service
    routines. *)
Inductive condition : Type := Ack | Nack | DataAvailable | Stop.

Definition isr (c : condition) : M world unit :=
  match c with
  | Ack => i2c_ack
  | Nack => i2c_nack
  | DataAvailable => i2c_rxdatav
  | Stop => i2c_mstop
  end.

Definition flag (c : condition) : Z :=
  match c with
  | Ack => I2C_IF_ACK
  | Nack => I2C_IF_NACK
  | DataAvailable => I2C_IF_RXDATAV
  | Stop => I2C_IF_MSTOP
  end.

(** The bus raises a condition on I2C0, with the byte in [RXDATA] when
    it is a received byte, and the interrupt handler runs. *)
Definition raise (c : condition) (rx : Z) : M world unit :=
  modify (with_regs I2C0 (λ r, mkRegs (STATE r) (IEN r) (set_bits (IF_ r) (flag c))
                                      (match c with DataAvailable => rx | _ => RXDATA r end)
                                      (written r))) ;;
  I2C0_IRQHandler.

(** The conditions of a reading without retries: three acknowledges, the
    two data bytes, the stop. *)
Definition transaction (high low : Z) : M world unit :=
  raise Ack 0 ;; raise Ack 0 ;; raise Ack 0 ;;
  raise DataAvailable high ;; raise DataAvailable low ;;
  raise Stop 0.

(** The transition table of section 4.3 of the specification: the pairs of
    a state and a condition it calls legal. *)
Definition legal (st : Z) (c : condition) : bool :=
  match c with
  | Ack => (st =? handshake) || (st =? measure_cmd) || (st =? confirm_cmd)
  | Nack => (st =? handshake) || (st =? confirm_cmd)
  | DataAvailable => (st =? RX_MS_byte) || (st =? RX_LS_byte)
  | Stop => st =? end_comm
  end.

(** The state at power-on: the statics are zero, the bus is idle, and [ram]
    is the one word the sensor driver keeps its reading in
    ([static uint32_t data] of Si7021.c), at address 0. *)
Definition power_on : world :=
  mkWorld (mkSM 0 0 0 0 false I2C0 0) 0 (mkRegs 0 0 0 0 []) (mkRegs 0 0 0 0 [])
          [0] [0; 0; 0; 0; 0] (Scheduler.mk 0 []).

(** One reading, from [i2c_start] to the stop condition. *)
Definition reading (slave_add cmd read_data cb high low : Z) : M world unit :=
  i2c_start slave_add cmd read_data I2C0 cb ;;
  transaction high low.

(** The interrupt enables [i2c_open] leaves. *)
Definition enabled : Z :=
  set_bits (set_bits (set_bits (set_bits 0 I2C_IF_ACK) I2C_IF_NACK) I2C_IF_RXDATAV)
           I2C_IF_MSTOP.

(** I2C0 between two transactions: opened, nothing pending, the bus idle. *)
Definition ready (w : world) : Prop :=
  IEN (I2C0_regs w) = enabled ∧
  IF_ (I2C0_regs w) = 0 ∧
  Z.land (STATE (I2C0_regs w)) _I2C_STATE_MASK = I2C_STATE_STATE_IDLE.

(** A reading in which the sensor refuses its address [n1] times before it
    takes the command, and [n2] times more before it has the measurement. *)
Definition reading_with_retries (slave_add cmd read_data cb : Z) (n1 n2 : nat)
    (high low : Z) : M world unit :=
  i2c_start slave_add cmd read_data I2C0 cb ;;
  times n1 (raise Nack 0) ;;
  raise Ack 0 ;; raise Ack 0 ;;
  times n2 (raise Nack 0) ;;
  raise Ack 0 ;;
  raise DataAvailable high ;; raise DataAvailable low ;;
  raise Stop 0.

End I2C.

(** ** C strings

    A [char *] argument is the list of the bytes found at the pointer; the
    string ends before the first zero byte, or at the end of the list, where
    the terminator is then taken to sit. *)

Fixpoint cstr (l : list Z) : list Z :=
  match l with
  | [] => []
  | b :: l' => if b =? 0 then [] else b :: cstr l'
  end.

Definition strlen (l : list Z) : Z := Z.of_nat (length (cstr l)).

(** [dst[i] = src[i]] for the bytes of [src] in turn, starting at index [i]. *)
Fixpoint copy_at (dst : list Z) (i : Z) (src : list Z) : option (list Z) :=
  match src with
  | [] => Some dst
  | b :: src' =>
      match astore dst i b with
      | Some dst' => copy_at dst' (i + 1) src'
      | None => None
      end
  end.

(** [strcpy(dst, src)]: the string and its terminator. *)
Definition strcpy (dst src : list Z) : option (list Z) :=
  copy_at dst 0 (cstr src ++ [0]).

(** The bytes of a string literal, without its terminator. *)
Definition bytes_of_string (s : string) : list Z :=
  map (λ a, Z.of_nat (Ascii.nat_of_ascii a)) (String.list_ascii_of_string s).

(** ** leuart.c *)

Module Leuart.

Import Reg.

(** [enum tx_leuart_defined_states] *)
Definition start : Z := 0.
Definition TXdata : Z := 1.
Definition stop : Z := 2.

(** [enum rx_leuart_defined_states] *)
Definition RXstart : Z := 0.
Definition RXdata : Z := 1.
Definition decode : Z := 2.

Definition LEUART_TX_EM : Z := Sleep.EM3.
Definition LEUART_RX_EM : Z := Sleep.EM3.

(** The part of LEUART0 the driver works with.  [RXBLOCK] is the status bit
    the commands RXBLOCKEN and RXBLOCKDIS set and clear, [SFUBRX] the control
    bit that lets a start frame lift the block; [TXDATA] collects the bytes
    written to the transmit register. *)
Record LEUART_TypeDef : Type := mkRegs {
  IEN : Z;
  IF_ : Z;
  RXDATA : Z;
  STARTFRAME : Z;
  SIGFRAME : Z;
  RXBLOCK : bool;
  SFUBRX : bool;
  TXDATA : list Z
}.

Record TX_LEUART_STATE_MACHINE : Type := mkTX {
  tx_state : Z;
  busy : bool;
  tx_str : list Z;                 (* [char str[64]] *)
  tx_str_len : Z;
  sent_bytes : Z;
  tx_callback : Z
}.

Record RX_LEUART_STATE_MACHINE : Type := mkRX {
  rx_state : Z;
  rx_str : list Z;                 (* [char str[64]] *)
  rx_str_len : Z;
  rx_callback : Z
}.

Record world : Type := mkWorld {
  tx_leuart_sm : TX_LEUART_STATE_MACHINE;
  rx_leuart_sm : RX_LEUART_STATE_MACHINE;
  leuart_rx_cb : Z;
  leuart0_tx_done_cb : Z;
  LEUART0 : LEUART_TypeDef;
  sleep : Sleep.table;
  sched : Scheduler.t
}.

Definition with_tx (f : TX_LEUART_STATE_MACHINE → TX_LEUART_STATE_MACHINE)
    (w : world) : world :=
  mkWorld (f (tx_leuart_sm w)) (rx_leuart_sm w) (leuart_rx_cb w)
          (leuart0_tx_done_cb w) (LEUART0 w) (sleep w) (sched w).
Definition with_rx (f : RX_LEUART_STATE_MACHINE → RX_LEUART_STATE_MACHINE)
    (w : world) : world :=
  mkWorld (tx_leuart_sm w) (f (rx_leuart_sm w)) (leuart_rx_cb w)
          (leuart0_tx_done_cb w) (LEUART0 w) (sleep w) (sched w).
Definition with_regs (f : LEUART_TypeDef → LEUART_TypeDef) (w : world) : world :=
  mkWorld (tx_leuart_sm w) (rx_leuart_sm w) (leuart_rx_cb w)
          (leuart0_tx_done_cb w) (f (LEUART0 w)) (sleep w) (sched w).
Definition with_sleep (t : Sleep.table) (w : world) : world :=
  mkWorld (tx_leuart_sm w) (rx_leuart_sm w) (leuart_rx_cb w)
          (leuart0_tx_done_cb w) (LEUART0 w) t (sched w).
Definition with_sched (s : Scheduler.t) (w : world) : world :=
  mkWorld (tx_leuart_sm w) (rx_leuart_sm w) (leuart_rx_cb w)
          (leuart0_tx_done_cb w) (LEUART0 w) (sleep w) s.

Definition set_tx_state (v : Z) : M world unit :=
  modify (with_tx (λ t, mkTX v (busy t) (tx_str t) (tx_str_len t) (sent_bytes t)
                             (tx_callback t))).
Definition set_busy (b : bool) : M world unit :=
  modify (with_tx (λ t, mkTX (tx_state t) b (tx_str t) (tx_str_len t)
                             (sent_bytes t) (tx_callback t))).
Definition set_tx_str (l : list Z) : M world unit :=
  modify (with_tx (λ t, mkTX (tx_state t) (busy t) l (tx_str_len t)
                             (sent_bytes t) (tx_callback t))).
Definition set_tx_str_len (v : Z) : M world unit :=
  modify (with_tx (λ t, mkTX (tx_state t) (busy t) (tx_str t) v (sent_bytes t)
                             (tx_callback t))).
Definition set_sent_bytes (v : Z) : M world unit :=
  modify (with_tx (λ t, mkTX (tx_state t) (busy t) (tx_str t) (tx_str_len t) v
                             (tx_callback t))).
Definition set_tx_callback (v : Z) : M world unit :=
  modify (with_tx (λ t, mkTX (tx_state t) (busy t) (tx_str t) (tx_str_len t)
                             (sent_bytes t) v)).

Definition set_rx_state (v : Z) : M world unit :=
  modify (with_rx (λ r, mkRX v (rx_str r) (rx_str_len r) (rx_callback r))).
Definition set_rx_str_len (v : Z) : M world unit :=
  modify (with_rx (λ r, mkRX (rx_state r) (rx_str r) v (rx_callback r))).

(** [rx_leuart_sm.str_len++] *)
Definition rx_str_len_incr : M world unit :=
  w ← get; set_rx_str_len (uint32 (rx_str_len (rx_leuart_sm w) + 1)).

(** [rx_leuart_sm.str[rx_leuart_sm.str_len] = c] *)
Definition rx_store (c : Z) : M world unit :=
  w ← get;
  let r := rx_leuart_sm w in
  l ← of_option (astore (rx_str r) (rx_str_len r) (uint8 c));
  put (with_rx (λ r, mkRX (rx_state r) l (rx_str_len r) (rx_callback r)) w).

Definition set_IEN (v : Z) : M world unit :=
  modify (with_regs (λ r, mkRegs v (IF_ r) (RXDATA r) (STARTFRAME r) (SIGFRAME r)
                                 (RXBLOCK r) (SFUBRX r) (TXDATA r))).
Definition set_IF (v : Z) : M world unit :=
  modify (with_regs (λ r, mkRegs (IEN r) v (RXDATA r) (STARTFRAME r) (SIGFRAME r)
                                 (RXBLOCK r) (SFUBRX r) (TXDATA r))).
Definition set_RXBLOCK (b : bool) : M world unit :=
  modify (with_regs (λ r, mkRegs (IEN r) (IF_ r) (RXDATA r) (STARTFRAME r)
                                 (SIGFRAME r) b (SFUBRX r) (TXDATA r))).

(** [LEUARTn->IEN |= bits] and [LEUARTn->IEN &= ~bits] *)
Definition IEN_set (bits : Z) : M world unit :=
  w ← get; set_IEN (set_bits (IEN (LEUART0 w)) bits).
Definition IEN_clear (bits : Z) : M world unit :=
  w ← get; set_IEN (clear_bits (IEN (LEUART0 w)) bits).

(** [LEUARTn->IFC = bits]: the flags TXBL and RXDATAV follow the buffers and
    are not cleared by software. *)
Definition write_IFC (bits : Z) : M world unit :=
  w ← get; set_IF (clear_bits (IF_ (LEUART0 w)) (Z.land bits _LEUART_IFC_MASK)).

(** [LEUARTn->CMD = v], for the two commands the state machines give. *)
Definition write_CMD (v : Z) : M world unit :=
  (if any_bit v LEUART_CMD_RXBLOCKEN then set_RXBLOCK true else ret tt) ;;
  (if any_bit v LEUART_CMD_RXBLOCKDIS then set_RXBLOCK false else ret tt).

(** Reading [LEUARTn->RXDATA] takes the byte out of the receive buffer, so
    RXDATAV goes down. *)
Definition read_RXDATA : M world Z :=
  w ← get;
  set_IF (clear_bits (IF_ (LEUART0 w)) LEUART_IF_RXDATAV) ;;
  ret (RXDATA (LEUART0 w)).

(** [LEUARTn->TXDATA = v] *)
Definition write_TXDATA (v : Z) : M world unit :=
  modify (with_regs (λ r, mkRegs (IEN r) (IF_ r) (RXDATA r) (STARTFRAME r)
                                 (SIGFRAME r) (RXBLOCK r) (SFUBRX r)
                                 (TXDATA r ++ [v]))).

Definition sleep_block_mode (EM : Z) : M world unit :=
  zoom sleep with_sleep (Sleep.sleep_block_mode EM).
Definition sleep_unblock_mode (EM : Z) : M world unit :=
  zoom sleep with_sleep (Sleep.sleep_unblock_mode EM).
Definition add_scheduled_event (e : Z) : M world unit :=
  zoom sched with_sched (Scheduler.add_scheduled_event e).

(** [leuart_app_transmit_byte]: waits for TXBL, then writes the byte. *)
Definition leuart_app_transmit_byte (data_out : Z) : M world unit :=
  w ← get;
  if any_bit (IF_ (LEUART0 w)) LEUART_IF_TXBL then write_TXDATA (uint8 data_out)
  else hang.

Definition leuart_txbl : M world unit :=
  w ← get;
  let t := tx_leuart_sm w in
  if tx_state t =? start then
    EFM_ASSERT false
  else if tx_state t =? TXdata then
    c ← of_option (aload (tx_str t) (sent_bytes t));
    leuart_app_transmit_byte c ;;
    set_sent_bytes (uint32 (sent_bytes t + 1)) ;;
    if uint32 (sent_bytes t + 1) =? tx_str_len t then
      IEN_clear LEUART_IEN_TXBL ;;
      IEN_set LEUART_IEN_TXC ;;
      set_tx_state stop
    else ret tt
  else if tx_state t =? stop then
    EFM_ASSERT false
  else
    EFM_ASSERT false.

Definition leuart_txc : M world unit :=
  w ← get;
  let t := tx_leuart_sm w in
  if tx_state t =? start then
    EFM_ASSERT false
  else if tx_state t =? TXdata then
    EFM_ASSERT false
  else if tx_state t =? stop then
    IEN_clear LEUART_IEN_TXC ;;
    set_busy false ;;
    set_tx_state stop ;;
    add_scheduled_event (tx_callback t) ;;
    sleep_unblock_mode LEUART_TX_EM
  else
    EFM_ASSERT false.

Definition leuart_startf : M world unit :=
  w ← get;
  let r := rx_leuart_sm w in
  if rx_state r =? RXstart then
    set_rx_state RXdata ;;
    set_rx_str_len 0 ;;
    c ← read_RXDATA;
    rx_store c ;;
    rx_str_len_incr ;;
    IEN_set LEUART_IEN_SIGF ;;
    write_CMD LEUART_CMD_RXBLOCKDIS ;;
    IEN_set LEUART_IEN_RXDATAV
  else if rx_state r =? RXdata then
    set_rx_str_len 0
  else if rx_state r =? decode then
    EFM_ASSERT false
  else
    EFM_ASSERT false.

Definition leuart_rxdatav : M world unit :=
  w ← get;
  let r := rx_leuart_sm w in
  if rx_state r =? RXstart then
    EFM_ASSERT false
  else if rx_state r =? RXdata then
    c ← read_RXDATA;
    rx_store c ;;
    rx_str_len_incr
  else if rx_state r =? decode then
    EFM_ASSERT false
  else
    EFM_ASSERT false.

Definition leuart_sigf : M world unit :=
  w ← get;
  let r := rx_leuart_sm w in
  if rx_state r =? RXstart then
    EFM_ASSERT false
  else if rx_state r =? RXdata then
    set_rx_state decode ;;
    IEN_clear LEUART_IEN_SIGF ;;
    IEN_clear LEUART_IEN_RXDATAV ;;
    write_CMD LEUART_CMD_RXBLOCKEN ;;
    rx_store 0 ;;
    rx_str_len_incr ;;
    set_rx_state RXstart ;;
    add_scheduled_event (leuart_rx_cb w)
  else if rx_state r =? decode then
    EFM_ASSERT false
  else
    EFM_ASSERT false.

Definition LEUART0_IRQHandler : M world unit :=
  w ← get;
  let int_flag := Z.land (IF_ (LEUART0 w)) (IEN (LEUART0 w)) in
  write_IFC int_flag ;;
  (if any_bit int_flag LEUART_IF_TXBL then leuart_txbl else ret tt) ;;
  (if any_bit int_flag LEUART_IF_TXC then leuart_txc else ret tt) ;;
  (if any_bit int_flag LEUART_IF_STARTF then leuart_startf else ret tt) ;;
  (if any_bit int_flag LEUART_IF_RXDATAV then leuart_rxdatav else ret tt) ;;
  (if any_bit int_flag LEUART_IF_SIGF then leuart_sigf else ret tt).

Definition leuart_busy : M world bool :=
  w ← get; ret (busy (tx_leuart_sm w)).

(** [leuart_start]: the wait [while(leuart_busy());] ends only through the
    transmit-complete interrupt; entered with the flag up, it does not end
    by itself. *)
Definition leuart_start (string : list Z) : M world unit :=
  b ← leuart_busy;
  if b : bool then hang
  else
    set_tx_str_len (uint32 (strlen string)) ;;
    set_sent_bytes 0 ;;
    w ← get;
    l ← of_option (strcpy (tx_str (tx_leuart_sm w)) string);
    set_tx_str l ;;
    set_busy true ;;
    sleep_block_mode LEUART_TX_EM ;;
    set_tx_state TXdata ;;
    set_tx_callback (leuart0_tx_done_cb w) ;;
    IEN_set LEUART_IEN_TXBL.

Definition rx_str_of (w : world) : list Z := rx_str (rx_leuart_sm w).

(** *** The receiver of the peripheral *)

(** Modelled from the spec: the peripheral itself is hardware; section 4.4
    of the specification and [leuart_rx_test], which checks these four
    behaviours on the device, say what it does with a frame that arrives on
    its RX pin.  A frame equal to [STARTFRAME] raises STARTF and, with
    [SFUBRX], lifts the receive block; a frame that is not blocked goes to
    the receive buffer and raises RXDATAV; a frame equal to [SIGFRAME]
    raises SIGF. *)
Definition frame_arrives (b : Z) (r : LEUART_TypeDef) : LEUART_TypeDef :=
  let is_start := b =? STARTFRAME r in
  let blocked := RXBLOCK r && negb (is_start && SFUBRX r) in
  let f1 := if is_start then set_bits (IF_ r) LEUART_IF_STARTF else IF_ r in
  let f2 := if blocked then f1 else set_bits f1 LEUART_IF_RXDATAV in
  let f3 := if b =? SIGFRAME r then set_bits f2 LEUART_IF_SIGF else f2 in
  mkRegs (IEN r) f3 (if blocked then RXDATA r else b) (STARTFRAME r)
         (SIGFRAME r) blocked (SFUBRX r) (TXDATA r).

(** A frame arrives; the interrupt is taken when an enabled flag is up. *)
Definition receive (b : Z) : M world unit :=
  modify (with_regs (frame_arrives b)) ;;
  w ← get;
  if any_bit (IF_ (LEUART0 w)) (IEN (LEUART0 w)) then LEUART0_IRQHandler
  else ret tt.

Fixpoint receive_all (bs : list Z) : M world unit :=
  match bs with
  | [] => ret tt
  | b :: bs' => receive b ;; receive_all bs'
  end.

(** The transmitter raises an interrupt flag (TXBL when its buffer has
    room again, TXC when the last frame has left); the interrupt is taken
    when an enabled flag is up. *)
Definition interrupt (flags : Z) : M world unit :=
  w ← get;
  set_IF (set_bits (IF_ (LEUART0 w)) flags) ;;
  w' ← get;
  if any_bit (IF_ (LEUART0 w')) (IEN (LEUART0 w')) then LEUART0_IRQHandler
  else ret tt.

(** Both state machines at rest, with the registers as [leuart_open] sets
    them up and before anything has been sent: the start frame is '#' and
    the signal frame '!', only the start-frame interrupt is enabled, the
    receiver is blocked until a start frame comes, the transmit buffer is
    empty and no event is pending.  [buf] is what the receive buffer holds
    from before. *)
Definition idle (buf : list Z) (tx_done_evt rx_done_evt : Z) : world :=
  mkWorld (mkTX start false (replicate 64 0) 0 0 0)
          (mkRX RXstart buf 0 rx_done_evt)
          rx_done_evt tx_done_evt
          (mkRegs LEUART_IEN_STARTF LEUART_IF_TXBL 0 35 33 true true [])
          [0; 0; 0; 0; 0] (Scheduler.mk 0 []).

(** The receive side at rest, whatever the rest of the driver holds: the
    receive machine in its first state, the frames and the interrupt
    enables as [leuart_open] leaves them, the receiver blocked, and no
    interrupt flag up but that of the empty transmit buffer. *)
Definition rx_at_rest (w : world) : Prop :=
  rx_state (rx_leuart_sm w) = RXstart ∧
  length (rx_str (rx_leuart_sm w)) = 64%nat ∧
  IEN (LEUART0 w) = LEUART_IEN_STARTF ∧
  IF_ (LEUART0 w) = LEUART_IF_TXBL ∧
  STARTFRAME (LEUART0 w) = 35 ∧
  SIGFRAME (LEUART0 w) = 33 ∧
  RXBLOCK (LEUART0 w) = true ∧
  SFUBRX (LEUART0 w) = true.

(** The transmit side at rest: no transmission in flight. *)
Definition tx_at_rest (w : world) : Prop :=
  busy (tx_leuart_sm w) = false ∧ length (tx_str (tx_leuart_sm w)) = 64%nat.

(** A transmission from [leuart_start] to the end: one TXBL interrupt for
    each character, then the TXC interrupt. *)
Definition transmission (string : list Z) : M world unit :=
  leuart_start string ;;
  times (length (cstr string)) (interrupt LEUART_IF_TXBL) ;;
  interrupt LEUART_IF_TXC.

(** A byte of a frame that is neither the start frame nor the signal frame. *)
Definition payload_byte (b : Z) : Prop := 0 <= b < 256 ∧ b ≠ 35 ∧ b ≠ 33.

End Leuart.

(** ** ble.c: the circular buffer *)

Module Ble.

Definition CSIZE : Z := 64.
Definition PACKET_HEADER : Z := 1.

Record BLE_CIRCULAR_BUF : Type := mkBuf {
  cbuf : list Z;                   (* [char cbuf[CSIZE]] *)
  size_mask : Z;                   (* [uint8_t] *)
  size : Z;
  read_ptr : Z;
  write_ptr : Z
}.

(** [ble_cbuf], [test_struct.result_str] and the serial driver below them. *)
Record world : Type := mkWorld {
  ble_cbuf : BLE_CIRCULAR_BUF;
  result_str : list Z;             (* [char result_str[CSIZE]] *)
  leuart : Leuart.world
}.

Definition with_buf (f : BLE_CIRCULAR_BUF → BLE_CIRCULAR_BUF) (w : world) : world :=
  mkWorld (f (ble_cbuf w)) (result_str w) (leuart w).
Definition with_result (l : list Z) (w : world) : world :=
  mkWorld (ble_cbuf w) l (leuart w).
Definition with_leuart (l : Leuart.world) (w : world) : world :=
  mkWorld (ble_cbuf w) (result_str w) l.

Definition ble_circ_init : M world unit :=
  modify (with_buf (λ b, mkBuf (cbuf b) (uint8 (CSIZE - 1)) CSIZE 0 0)).

Definition space_of (b : BLE_CIRCULAR_BUF) : Z :=
  uint8 (uint32 (size b - Z.land (uint32 (write_ptr b - read_ptr b)) (size_mask b))).

Definition ble_circ_space : M world Z :=
  w ← get; ret (space_of (ble_cbuf w)).

Definition update_circ_wrtindex (update_by : Z) : M world unit :=
  modify (with_buf (λ b, mkBuf (cbuf b) (size_mask b) (size b) (read_ptr b)
                             (Z.land (uint32 (write_ptr b + update_by)) (size_mask b)))).

Definition update_circ_readtindex (update_by : Z) : M world unit :=
  modify (with_buf (λ b, mkBuf (cbuf b) (size_mask b) (size b)
                             (Z.land (uint32 (read_ptr b + update_by)) (size_mask b))
                             (write_ptr b))).

(** [ble_cbuf.cbuf[ble_cbuf.write_ptr] = c] *)
Definition cbuf_store (c : Z) : M world unit :=
  w ← get;
  let b := ble_cbuf w in
  l ← of_option (astore (cbuf b) (write_ptr b) (uint8 c));
  put (with_buf (λ b, mkBuf l (size_mask b) (size b) (read_ptr b) (write_ptr b)) w).

(** [ble_cbuf.cbuf[ble_cbuf.read_ptr]] *)
Definition cbuf_load : M world Z :=
  w ← get; of_option (aload (cbuf (ble_cbuf w)) (read_ptr (ble_cbuf w))).

Fixpoint push_loop (chars : list Z) : M world unit :=
  match chars with
  | [] => ret tt
  | c :: chars' =>
      cbuf_store c ;;
      update_circ_wrtindex 1 ;;
      push_loop chars'
  end.

Definition ble_circ_push (string : list Z) : M world unit :=
  space ← ble_circ_space;
  (if uint32 (strlen string + PACKET_HEADER) >? space then EFM_ASSERT false
   else ret tt) ;;
  cbuf_store (strlen string + PACKET_HEADER) ;;
  update_circ_wrtindex PACKET_HEADER ;;
  push_loop (cstr string).

(** The loop of [ble_circ_pop] that fills [print_str]; the result is the
    bytes read, in order. *)
Fixpoint pop_loop (n : nat) : M world (list Z) :=
  match n with
  | O => ret []
  | S n' =>
      c ← cbuf_load;
      update_circ_readtindex 1 ;;
      cs ← pop_loop n';
      ret (c :: cs)
  end.

Definition leuart_busy : M world bool :=
  zoom leuart with_leuart Leuart.leuart_busy.
Definition leuart_start (string : list Z) : M world unit :=
  zoom leuart with_leuart (Leuart.leuart_start string).

(** [ble_circ_pop].  [print_str] has [header - PACKET_HEADER + 1] cells, all
    written before they are read; a header of zero would ask for an array
    of no cell. *)
Definition ble_circ_pop (test : bool) : M world bool :=
  b ← leuart_busy;
  space ← ble_circ_space;
  if (b : bool) || (space =? CSIZE) then ret true
  else
    header ← cbuf_load;
    if uint32 (uint32 (header - PACKET_HEADER) + 1) =? 0 then undefined
    else
      update_circ_readtindex PACKET_HEADER ;;
      cs ← pop_loop (Z.to_nat (uint32 (header - PACKET_HEADER)));
      let print_str := cs ++ [0] in
      (if test then
         w ← get;
         l ← of_option (copy_at (result_str w) 0 (take (Z.to_nat header) print_str));
         put (with_result l w)
       else leuart_start print_str) ;;
      ret false.

Definition ble_write (string : list Z) : M world unit :=
  ble_circ_push string ;;
  ble_circ_pop false ;;
  ret tt.

(** The buffer as [ble_circ_init] sizes it, with both indices at [p]. *)
Definition empty_at (p : Z) (b : BLE_CIRCULAR_BUF) : Prop :=
  size b = CSIZE ∧ size_mask b = CSIZE - 1 ∧ length (cbuf b) = Z.to_nat CSIZE ∧
  read_ptr b = p ∧ write_ptr b = p ∧ 0 <= p < CSIZE.

(** A character of a C string: a byte other than the terminator. *)
Definition is_char (c : Z) : Prop := 0 < c < 256.

(** The buffer as [ble_circ_init] sizes it, with its indices in range. *)
Definition wf (b : BLE_CIRCULAR_BUF) : Prop :=
  size b = CSIZE ∧ size_mask b = CSIZE - 1 ∧ length (cbuf b) = Z.to_nat CSIZE ∧
  0 <= read_ptr b < CSIZE ∧ 0 <= write_ptr b < CSIZE.

(** The buffer as [ble_circ_init] leaves it, nothing pushed yet, over a
    serial driver that has neither sent nor received ([Leuart.idle]).  The
    driver [ble_open] leaves has been through [leuart_rx_test] besides: its
    transmit machine is in [stop], its buffers hold the test strings and
    the transmit event is pending. *)
Definition opened : world :=
  mkWorld (mkBuf (replicate 64 0) (uint8 (CSIZE - 1)) CSIZE 0 0)
          (replicate 64 0) (Leuart.idle (replicate 64 0) 8 16).

(** *** circular_buff_test *)

(** A row of [test_struct.test_str] as [circular_buff_test] fills it: [len]
    bytes counting up from [first], then the terminator.  The rows are
    written and read by the test alone. *)
Definition test_string (first : Z) (len : nat) : list Z :=
  map (λ i, uint8 (Z.of_nat i + first)) (seq 0 len) ++ [0].

(** [EFM_ASSERT(ble_circ_space() == n)] *)
Definition expect_space (n : Z) : M world unit :=
  space ← ble_circ_space; EFM_ASSERT (space =? n).

(** [for (int i = 0; i < len; i++) EFM_ASSERT(row[i] == test_struct.result_str[i])],
    from index [i] on. *)
Fixpoint expect_result (row : list Z) (i : Z) (len : nat) : M world unit :=
  match len with
  | O => ret tt
  | S len' =>
      w ← get;
      a ← of_option (aload row i);
      b ← of_option (aload (result_str w) i);
      EFM_ASSERT (a =? b) ;;
      expect_result row (i + 1) len'
  end.

(** [EFM_ASSERT(strlen(test_struct.result_str) == n)] *)
Definition expect_strlen (n : Z) : M world unit :=
  w ← get; EFM_ASSERT (strlen (result_str w) =? n).

(** [buff_empty = ble_circ_pop(CIRC_TEST); EFM_ASSERT(buff_empty == expected)] *)
Definition expect_pop (expected : bool) : M world unit :=
  buff_empty ← ble_circ_pop true; EFM_ASSERT (eqb buff_empty expected).

Definition circular_buff_test : M world unit :=
  let test1_len := 50%nat in
  let test2_len := 25%nat in
  let test3_len := 5%nat in
  modify (with_buf (λ b, mkBuf (cbuf b) (size_mask b) (size b) 0 0)) ;;
  let test_str0 := test_string 1 test1_len in
  let test_str1 := test_string 20 test2_len in
  let test_str2 := test_string 35 test3_len in
  expect_space CSIZE ;;
  ble_circ_push test_str0 ;;
  expect_space (CSIZE - Z.of_nat test1_len - 1) ;;
  expect_pop false ;;
  expect_result test_str0 0 test1_len ;;
  expect_strlen (Z.of_nat test1_len) ;;
  expect_space CSIZE ;;
  ble_circ_push test_str1 ;;
  expect_space (CSIZE - Z.of_nat test2_len - 1) ;;
  ble_circ_push test_str2 ;;
  expect_space (CSIZE - Z.of_nat test2_len - 1 - Z.of_nat test3_len - 1) ;;
  w ← get;
  EFM_ASSERT (Z.abs (int32 (uint32 (write_ptr (ble_cbuf w) - read_ptr (ble_cbuf w))))
              <? CSIZE) ;;
  expect_pop false ;;
  expect_result test_str1 0 test2_len ;;
  expect_strlen (Z.of_nat test2_len) ;;
  expect_space (CSIZE - Z.of_nat test3_len - 1) ;;
  expect_pop false ;;
  expect_result test_str2 0 test3_len ;;
  expect_strlen (Z.of_nat test3_len) ;;
  expect_space CSIZE ;;
  expect_pop true ;;
  ble_write ([10] ++ bytes_of_string "Passed Circular Buffer Test" ++ [10]).

End Ble.

(** ** letimer.c: starting and stopping the timer *)

Module Letimer.

(** [letimer_start], as far as the block table goes.  The macros
    [LETIMER_STATUS_RUNNING], of the device header, and [LETIMER_EM], of
    letimer.h, are not among the sources and are parameters here; the
    tests compare the macro itself, not the status register.
    [LETIMER_Enable] and the wait for [SYNCBUSY] have no counterpart. *)
Definition letimer_start (LETIMER_STATUS_RUNNING LETIMER_EM : Z) (enable : bool) :
    M Sleep.table unit :=
  (if (LETIMER_STATUS_RUNNING =? 0) && enable
   then Sleep.sleep_block_mode LETIMER_EM else ret tt) ;;
  (if (LETIMER_STATUS_RUNNING =? 1) && negb enable
   then Sleep.sleep_unblock_mode LETIMER_EM else ret tt).

End Letimer.

(** ** app.c: the callbacks of the serial link *)

Module App.

(** The events of app.h. *)
Definition LETIMER0_COMP0_CB : Z := 0x1.
Definition LETIMER0_COMP1_CB : Z := 0x2.
Definition LETIMER0_UF_CB : Z := 0x4.
Definition SI7021_READ_CB : Z := 0x8.
Definition BOOT_UP_CB : Z := 0x10.
Definition BLE_TX_CB : Z := 0x20.
Definition BLE_RX_CB : Z := 0x40.

(** [static char str[64]], [static bool celsius] and the drivers of the
    serial link below them; the scheduler is the one the serial driver
    posts to. *)
Record world : Type := mkWorld {
  str : list Z;
  celsius : bool;
  ble : Ble.world
}.

Definition c_str : list Z := bytes_of_string "#TEMP C!".
Definition f_str : list Z := bytes_of_string "#TEMP F!".

Definition leuart (w : world) : Leuart.world := Ble.leuart (ble w).
Definition with_ble (b : Ble.world) (w : world) : world :=
  mkWorld (str w) (celsius w) b.
Definition with_leuart (l : Leuart.world) (w : world) : world :=
  mkWorld (str w) (celsius w) (Ble.with_leuart l (ble w)).
Definition sched (w : world) : Scheduler.t := Leuart.sched (leuart w).
Definition with_sched (s : Scheduler.t) (w : world) : world :=
  with_leuart (Leuart.with_sched s (leuart w)) w.

Definition remove_scheduled_event (e : Z) : M world unit :=
  zoom sched with_sched (Scheduler.remove_scheduled_event e).
Definition get_scheduled_events : M world Z :=
  zoom sched with_sched Scheduler.get_scheduled_events.
Definition ble_circ_pop (test : bool) : M world bool :=
  zoom ble with_ble (Ble.ble_circ_pop test).
Definition ble_write (string : list Z) : M world unit :=
  zoom ble with_ble (Ble.ble_write string).

(** [strcmp(a, b) == 0] *)
Definition strcmp_eq (a b : list Z) : bool := bool_decide (cstr a = cstr b).

Definition scheduled_ble_tx_cb : M world unit :=
  remove_scheduled_event BLE_TX_CB ;;
  ble_circ_pop false ;;
  ret tt.

Definition scheduled_ble_rx_cb : M world unit :=
  remove_scheduled_event BLE_RX_CB ;;
  w ← get;
  l ← of_option (strcpy (str w) (Leuart.rx_str_of (leuart w)));
  put (mkWorld l (celsius w) (ble w)) ;;
  if strcmp_eq l c_str then
    modify (λ w, mkWorld (str w) true (ble w))
  else if strcmp_eq l f_str then
    modify (λ w, mkWorld (str w) false (ble w))
  else ret tt.

(** The last two tests of a pass of the loop of [main]: the events of the
    serial link.  The tests before them call into the timer and the sensor
    driver. *)
Definition serve_serial_events : M world unit :=
  e ← get_scheduled_events;
  (if negb (Z.land e BLE_TX_CB =? 0) then scheduled_ble_tx_cb else ret tt) ;;
  e' ← get_scheduled_events;
  (if negb (Z.land e' BLE_RX_CB =? 0) then scheduled_ble_rx_cb else ret tt).

(** The serial peripheral under the application. *)
Definition receive_all (bs : list Z) : M world unit :=
  zoom leuart with_leuart (Leuart.receive_all bs).
Definition interrupt (flags : Z) : M world unit :=
  zoom leuart with_leuart (Leuart.interrupt flags).

(** The interrupts that end a transmission of [n] characters. *)
Definition transmitted (n : nat) : M world unit :=
  times n (interrupt Reg.LEUART_IF_TXBL) ;; interrupt Reg.LEUART_IF_TXC.

(** [scheduled_boot_up_cb], with [BLE_TEST_ENABLED] not defined as in
    app.h; the two macros of [letimer_start] are parameters. *)
Definition circular_buff_test : M world unit :=
  zoom ble with_ble Ble.circular_buff_test.
Definition letimer_start (LETIMER_STATUS_RUNNING LETIMER_EM : Z) (enable : bool) :
    M world unit :=
  zoom (λ w, Leuart.sleep (leuart w))
       (λ t w, with_leuart (Leuart.with_sleep t (leuart w)) w)
       (Letimer.letimer_start LETIMER_STATUS_RUNNING LETIMER_EM enable).

Definition scheduled_boot_up_cb (LETIMER_STATUS_RUNNING LETIMER_EM : Z) : M world unit :=
  remove_scheduled_event BOOT_UP_CB ;;
  circular_buff_test ;;
  ble_write ([10] ++ bytes_of_string "Hello World" ++ [10]) ;;
  ble_write (bytes_of_string "ADC Lab" ++ [10]) ;;
  ble_write (bytes_of_string "Matt Hartnett" ++ [10]) ;;
  letimer_start LETIMER_STATUS_RUNNING LETIMER_EM true.

(** The test of a pass of the loop of [main] that comes before those of
    the serial link: the boot event. *)
Definition serve_boot_event (LETIMER_STATUS_RUNNING LETIMER_EM : Z) : M world unit :=
  e ← get_scheduled_events;
  if negb (Z.land e BOOT_UP_CB =? 0)
  then scheduled_boot_up_cb LETIMER_STATUS_RUNNING LETIMER_EM
  else ret tt.

(** The driver as [app_peripheral_setup] leaves it on the device: the
    self-test of [leuart_open] has sent its four frames and "abc#Hello!def"
    and received "#Hello!", so the transmit machine is in [stop] and the
    transmit event is pending beside the boot event: the receive event,
    posted first, has been removed.  The buffer is as [ble_circ_init]
    leaves it.  The block table shows the system block on EM3 alone: the
    level [letimer_pwm_open] blocks is named in letimer.h, which is not
    among the sources. *)
Definition after_setup : world :=
  let sent := bytes_of_string "abc#Hello!def" in
  let received := bytes_of_string "#Hello!" in
  mkWorld (replicate 64 0) false
    (Ble.mkWorld
       (Ble.mkBuf (replicate 64 0) (uint8 (Ble.CSIZE - 1)) Ble.CSIZE 0 0)
       (replicate 64 0)
       (Leuart.mkWorld
          (Leuart.mkTX Leuart.stop false (sent ++ replicate 51 0) 13 13 BLE_TX_CB)
          (Leuart.mkRX Leuart.RXstart (received ++ replicate 57 0) 8 BLE_RX_CB)
          BLE_RX_CB BLE_TX_CB
          (Leuart.mkRegs Reg.LEUART_IEN_STARTF Reg.LEUART_IF_TXBL 33 35 33 true true
             (bytes_of_string "a#b!" ++ sent))
          [0; 0; 0; 1; 0]
          (Scheduler.mk (Z.lor BLE_TX_CB BOOT_UP_CB)
                        [BLE_RX_CB; BLE_TX_CB; BOOT_UP_CB]))).

End App.

(** * Properties *)

(** ** Arrays *)

Lemma aload_lookup (l : list Z) (i c : Z) :
  0 <= i → l !! Z.to_nat i = Some c → aload l i = Some c.
Proof.
  intros Hi Hc. unfold aload.
  apply lookup_lt_Some in Hc as Hlt.
  destruct (Z.leb_spec 0 i); [|lia].
  destruct (Z.ltb_spec i (Z.of_nat (length l))); [|lia].
  exact Hc.
Qed.

Lemma aload_inv (l : list Z) (i c : Z) :
  aload l i = Some c → 0 <= i < Z.of_nat (length l) ∧ l !! Z.to_nat i = Some c.
Proof.
  unfold aload.
  destruct (Z.leb_spec 0 i), (Z.ltb_spec i (Z.of_nat (length l)));
    simpl; intros; try discriminate.
  split; [lia | assumption].
Qed.

Lemma astore_insert (l : list Z) (i v : Z) :
  0 <= i < Z.of_nat (length l) → astore l i v = Some (<[Z.to_nat i := v]> l).
Proof.
  intros [H0 H1]. unfold astore.
  destruct (Z.leb_spec 0 i); [|lia].
  destruct (Z.ltb_spec i (Z.of_nat (length l))); [|lia].
  reflexivity.
Qed.

Lemma aload_insert_eq (l : list Z) (i v : Z) :
  0 <= i < Z.of_nat (length l) → aload (<[Z.to_nat i := v]> l) i = Some v.
Proof.
  intros Hi. apply aload_lookup; [lia|].
  apply list_lookup_insert_eq. lia.
Qed.

Lemma int32_small (z : Z) : - 2 ^ 31 <= z < 2 ^ 31 → int32 z = z.
Proof.
  intros H. unfold int32.
  rewrite Z.mod_small by lia. lia.
Qed.

(** ** The power-mode block table *)

Section SleepFacts.

Import Sleep.

Lemma rd_run (t : table) (EM c : Z) :
  0 <= EM → t !! Z.to_nat EM = Some c → rd EM t = Ok c t.
Proof.
  intros HEM Hc. unfold rd. rewrite (aload_lookup _ _ _ HEM Hc). reflexivity.
Qed.

Lemma sleep_block_mode_run (t : table) (EM c : Z) :
  0 <= EM → t !! Z.to_nat EM = Some c →
  sleep_block_mode EM t =
    let t' := <[Z.to_nat EM := int32 (c + 1)]> t in
    if int32 (c + 1) <? 5 then Ok tt t' else Fault t'.
Proof.
  intros HEM Hc.
  pose proof (lookup_lt_Some _ _ _ Hc) as Hlt.
  unfold sleep_block_mode, rd, wr, mbind, M_bind, bind, of_option, ret,
    EFM_ASSERT.
  rewrite (aload_lookup _ _ _ HEM Hc).
  rewrite astore_insert by lia.
  rewrite aload_insert_eq by lia.
  reflexivity.
Qed.

Lemma sleep_unblock_mode_run (t : table) (EM c : Z) :
  0 <= EM → t !! Z.to_nat EM = Some c →
  sleep_unblock_mode EM t =
    if 0 <? c then
      let t' := <[Z.to_nat EM := int32 (c - 1)]> t in
      if 0 <=? int32 (c - 1) then Ok tt t' else Fault t'
    else if 0 <=? c then Ok tt t else Fault t.
Proof.
  intros HEM Hc.
  pose proof (lookup_lt_Some _ _ _ Hc) as Hlt.
  unfold sleep_unblock_mode, rd, wr, mbind, M_bind, bind, of_option, ret,
    EFM_ASSERT.
  rewrite (aload_lookup _ _ _ HEM Hc).
  destruct (0 <? c).
  - rewrite astore_insert by lia.
    rewrite aload_insert_eq by lia.
    reflexivity.
  - rewrite (aload_lookup _ _ _ HEM Hc). reflexivity.
Qed.

Lemma bounded_mono (t : table) : bounded 5 t → bounded 6 t.
Proof.
  intros [Hl Hf]. split; [exact Hl|].
  eapply Forall_impl; [exact Hf|]. simpl. intros. lia.
Qed.

Lemma bounded_lookup (hi : Z) (t : table) (EM : Z) :
  bounded hi t → valid_level EM → ∃ c, t !! Z.to_nat EM = Some c ∧ 0 <= c < hi.
Proof.
  intros [Hl Hf] [H0 H1]. unfold MAX_ENERGY_MODES in *.
  destruct (lookup_lt_is_Some_2 t (Z.to_nat EM)) as [c Hc]; [lia|].
  exists c. split; [exact Hc|].
  rewrite Forall_lookup in Hf. exact (Hf _ _ Hc).
Qed.

Lemma bounded_insert (hi : Z) (t : table) (i : nat) (v : Z) :
  bounded hi t → 0 <= v < hi → bounded hi (<[i := v]> t).
Proof.
  intros [Hl Hf] Hv. split.
  - rewrite length_insert. exact Hl.
  - apply Forall_insert; assumption.
Qed.

Lemma do_call_bounded (t : table) (c : call) :
  bounded 5 t → valid_level (level c) →
  (∃ t', do_call c t = Ok tt t' ∧ bounded 5 t') ∨
  (∃ t', do_call c t = Fault t' ∧ bounded 6 t').
Proof.
  intros Hb Hv.
  destruct (bounded_lookup _ _ _ Hb Hv) as (n & Hn & Hr).
  destruct Hv as [H0 H1].
  destruct c as [EM|EM]; simpl in *.
  - rewrite (sleep_block_mode_run _ _ _ H0 Hn). simpl.
    rewrite int32_small by lia.
    destruct (Z.ltb_spec (n + 1) 5).
    + left. eexists. split; [reflexivity|]. apply bounded_insert; [exact Hb|lia].
    + right. eexists. split; [reflexivity|].
      apply bounded_insert; [apply bounded_mono, Hb|lia].
  - rewrite (sleep_unblock_mode_run _ _ _ H0 Hn). left.
    destruct (Z.ltb_spec 0 n).
    + simpl. rewrite int32_small by lia.
      destruct (Z.leb_spec 0 (n - 1)); [|lia].
      eexists. split; [reflexivity|]. apply bounded_insert; [exact Hb|lia].
    + destruct (Z.leb_spec 0 n); [|lia].
      eexists. split; [reflexivity|exact Hb].
Qed.

Lemma do_calls_bounded (cs : list call) (t : table) :
  bounded 5 t → Forall (λ c, valid_level (level c)) cs →
  ∃ t', final_state (do_calls cs t) = Some t' ∧ bounded 6 t'.
Proof.
  revert t. induction cs as [|c cs IH]; intros t Hb Hv.
  - exists t. split; [reflexivity|apply bounded_mono, Hb].
  - apply Forall_cons in Hv as [Hc Hcs].
    simpl. unfold mbind, M_bind, bind.
    destruct (do_call_bounded t c Hb Hc) as [(t' & -> & Hb')|(t' & -> & Hb')].
    + apply IH; assumption.
    + exists t'. split; [reflexivity|exact Hb'].
Qed.

Lemma sleep_open_run (t0 : table) :
  length t0 = Z.to_nat MAX_ENERGY_MODES → sleep_open t0 = Ok tt [0; 0; 0; 0; 0].
Proof.
  intros Hl.
  destruct t0 as [|a0 [|a1 [|a2 [|a3 [|a4 [|a5 t0]]]]]]; try discriminate.
  reflexivity.
Qed.

End SleepFacts.

(** C9. The entries of the block table never go below zero: whatever calls
    of [sleep_block_mode] and [sleep_unblock_mode] follow [sleep_open], with
    levels of the table, the state the core is left in (running, or halted by
    the sanity check of [sleep_block_mode]) has no negative entry; on that
    table [sleep_unblock_mode] takes one off a positive entry and leaves the
    table as it is when the entry is zero. *)
Theorem sleep_counts_never_negative (t0 : Sleep.table) (cs : list Sleep.call) :
  length t0 = Z.to_nat Sleep.MAX_ENERGY_MODES →
  Forall (λ c, Sleep.valid_level (Sleep.level c)) cs →
  ∃ t : Sleep.table,
    final_state ((Sleep.sleep_open ;; Sleep.do_calls cs) t0) = Some t ∧
    Forall (λ c, 0 <= c) t ∧
    ∀ EM c, Sleep.valid_level EM → t !! Z.to_nat EM = Some c →
      (0 < c → Sleep.sleep_unblock_mode EM t = Ok tt (<[Z.to_nat EM := c - 1]> t)) ∧
      (c = 0 → Sleep.sleep_unblock_mode EM t = Ok tt t).
Proof.
  intros Hl Hv.
  unfold mbind, M_bind, bind. rewrite (sleep_open_run t0 Hl).
  destruct (do_calls_bounded cs [0; 0; 0; 0; 0]) as (t & Hfin & Hb).
  { split; [reflexivity|]. repeat constructor; lia. }
  { exact Hv. }
  exists t. split; [exact Hfin|]. split.
  - destruct Hb as [_ Hf]. eapply Forall_impl; [exact Hf|]. simpl. intros; lia.
  - intros EM c HEM Hc.
    destruct Hb as [_ Hf]. rewrite Forall_lookup in Hf. specialize (Hf _ _ Hc).
    destruct HEM as [H0 _].
    rewrite (sleep_unblock_mode_run _ _ _ H0 Hc). split.
    + intros Hpos. destruct (Z.ltb_spec 0 c); [|lia]. simpl.
      rewrite int32_small by lia.
      destruct (Z.leb_spec 0 (c - 1)); [reflexivity|lia].
    + intros ->. reflexivity.
Qed.

Lemma sleep_counts_never_negative_witness :
  ∃ t : Sleep.table,
    final_state ((Sleep.sleep_open ;;
                  Sleep.do_calls [Sleep.Block 2; Sleep.Block 3; Sleep.Unblock 2;
                                  Sleep.Unblock 2]) [7; 7; 7; 7; 7]) = Some t ∧
    Forall (λ c, 0 <= c) t ∧
    ∀ EM c, Sleep.valid_level EM → t !! Z.to_nat EM = Some c →
      (0 < c → Sleep.sleep_unblock_mode EM t = Ok tt (<[Z.to_nat EM := c - 1]> t)) ∧
      (c = 0 → Sleep.sleep_unblock_mode EM t = Ok tt t).
Proof.
  apply (sleep_counts_never_negative [7; 7; 7; 7; 7]).
  - reflexivity.
  - repeat constructor; unfold Sleep.valid_level, Sleep.MAX_ENERGY_MODES; simpl; lia.
Defined.

(** C10. [enter_sleep] never asks for a mode deeper than EM3: with a block
    on EM0 or EM1 it makes no call at all, with EM2 blocked it enters EM1,
    with EM3 blocked it enters EM2, and with none of these blocked it enters
    EM3, whatever the count of EM4; it never enters EM4. *)
Theorem enter_sleep_never_deeper_than_EM3 (c0 c1 c2 c3 c4 : Z) :
  Forall (λ c, 0 <= c) [c0; c1; c2; c3; c4] →
  ∃ calls : list Sleep.emu_call,
    Sleep.enter_sleep [c0; c1; c2; c3; c4] = Ok calls [c0; c1; c2; c3; c4] ∧
    (Sleep.EMU_EnterEM4 ∉ calls) ∧
    (c0 ≠ 0 ∨ c1 ≠ 0 → calls = []) ∧
    (c0 = 0 → c1 = 0 → c2 ≠ 0 → calls = [Sleep.EMU_EnterEM1]) ∧
    (c0 = 0 → c1 = 0 → c2 = 0 → c3 ≠ 0 → calls = [Sleep.EMU_EnterEM2 true]) ∧
    (c0 = 0 → c1 = 0 → c2 = 0 → c3 = 0 → calls = [Sleep.EMU_EnterEM3 true]).
Proof.
  intros Hnn.
  repeat (apply Forall_cons in Hnn as [? Hnn]).
  assert (Hout : ∀ calls : list Sleep.emu_call,
             calls = [] ∨ calls = [Sleep.EMU_EnterEM1] ∨
             calls = [Sleep.EMU_EnterEM2 true] ∨ calls = [Sleep.EMU_EnterEM3 true] →
             Sleep.EMU_EnterEM4 ∉ calls).
  { intros calls Hc Hin.
    destruct Hc as [-> | [-> | [-> | ->]]];
      rewrite ?elem_of_cons, elem_of_nil in Hin;
      intuition discriminate. }
  unfold Sleep.enter_sleep, mbind, M_bind, bind, ret.
  rewrite (rd_run _ Sleep.EM0 c0) by (reflexivity || done).
  destruct (Z.ltb_spec 0 c0).
  { eexists. split; [reflexivity|]. split; [apply Hout; tauto|].
    repeat split; intros; first [reflexivity | lia]. }
  rewrite (rd_run _ Sleep.EM1 c1) by (reflexivity || done).
  destruct (Z.ltb_spec 0 c1).
  { eexists. split; [reflexivity|]. split; [apply Hout; tauto|].
    repeat split; intros; first [reflexivity | lia]. }
  rewrite (rd_run _ Sleep.EM2 c2) by (reflexivity || done).
  destruct (Z.ltb_spec 0 c2).
  { eexists. split; [reflexivity|]. split; [apply Hout; tauto|].
    repeat split; intros; first [reflexivity | lia]. }
  rewrite (rd_run _ Sleep.EM3 c3) by (reflexivity || done).
  destruct (Z.ltb_spec 0 c3).
  { eexists. split; [reflexivity|]. split; [apply Hout; tauto|].
    repeat split; intros; first [reflexivity | lia]. }
  eexists. split; [reflexivity|]. split; [apply Hout; tauto|].
  repeat split; intros; first [reflexivity | lia].
Qed.

Lemma enter_sleep_never_deeper_than_EM3_witness :
  ∃ calls : list Sleep.emu_call,
    Sleep.enter_sleep [0; 0; 0; 0; 0] = Ok calls [0; 0; 0; 0; 0] ∧
    (Sleep.EMU_EnterEM4 ∉ calls) ∧
    ((0:Z) ≠ 0 ∨ (0:Z) ≠ 0 → calls = []) ∧
    ((0:Z) = 0 → (0:Z) = 0 → (0:Z) ≠ 0 → calls = [Sleep.EMU_EnterEM1]) ∧
    ((0:Z) = 0 → (0:Z) = 0 → (0:Z) = 0 → (0:Z) ≠ 0 →
       calls = [Sleep.EMU_EnterEM2 true]) ∧
    ((0:Z) = 0 → (0:Z) = 0 → (0:Z) = 0 → (0:Z) = 0 →
       calls = [Sleep.EMU_EnterEM3 true]).
Proof.
  apply (enter_sleep_never_deeper_than_EM3 0 0 0 0 0).
  repeat constructor; lia.
Defined.

Lemma scan_from_step (n : nat) (i c : Z) (t : list Z) :
  0 <= i < Sleep.MAX_ENERGY_MODES → t !! Z.to_nat i = Some c →
  Sleep.scan_from (S n) i t =
    if c =? 0 then Sleep.scan_from n (uint32 (i + 1)) t else Ok i t.
Proof.
  intros [H0 H1] Hc. cbn [Sleep.scan_from].
  destruct (Z.ltb_spec i Sleep.MAX_ENERGY_MODES); [|lia].
  unfold mbind, M_bind, bind. rewrite (rd_run _ _ _ H0 Hc).
  destruct (c =? 0); reflexivity.
Qed.

Ltac found c :=
  cbn; rewrite (decide_True (P := c ≠ 0)) by done; reflexivity.

(** Had the loop variable of [current_block_energy_mode] started at zero,
    the function would return the index of the first nonzero entry, and the
    deepest level for a table of zeros. *)
Lemma current_block_energy_mode_from_zero (c0 c1 c2 c3 c4 : Z) :
  let t := [c0; c1; c2; c3; c4] in
  Sleep.current_block_energy_mode 0 t =
    Ok (match list_find (λ c, c ≠ 0) t with
        | Some (i, _) => Z.of_nat i
        | None => Sleep.MAX_ENERGY_MODES - 1
        end) t.
Proof.
  intros t. subst t.
  unfold Sleep.current_block_energy_mode.
  change (Z.to_nat Sleep.MAX_ENERGY_MODES) with 5%nat.
  rewrite (scan_from_step _ 0 c0) by (done || (unfold Sleep.MAX_ENERGY_MODES; lia)).
  destruct (Z.eqb_spec c0 0) as [->|?]; [|found c0].
  rewrite (scan_from_step _ 1 c1) by (done || (unfold Sleep.MAX_ENERGY_MODES; lia)).
  destruct (Z.eqb_spec c1 0) as [->|?]; [|found c1].
  rewrite (scan_from_step _ 2 c2) by (done || (unfold Sleep.MAX_ENERGY_MODES; lia)).
  destruct (Z.eqb_spec c2 0) as [->|?]; [|found c2].
  rewrite (scan_from_step _ 3 c3) by (done || (unfold Sleep.MAX_ENERGY_MODES; lia)).
  destruct (Z.eqb_spec c3 0) as [->|?]; [|found c3].
  rewrite (scan_from_step _ 4 c4) by (done || (unfold Sleep.MAX_ENERGY_MODES; lia)).
  destruct (Z.eqb_spec c4 0) as [->|?]; [|found c4].
  reflexivity.
Qed.

(** C1. [current_block_energy_mode] does not always scan from level 0: its
    loop variable has no initialiser.  With EM0 blocked once and the
    variable starting at 1, the answer is the deepest level, 4, though the
    first nonzero entry of the table is at index 0. *)
Theorem current_block_energy_mode_uninitialised :
  Sleep.current_block_energy_mode 1 [1; 0; 0; 0; 0] = Ok 4 [1; 0; 0; 0; 0] ∧
  list_find (λ c : Z, c ≠ 0) [1; 0; 0; 0; 0] = Some (0%nat, 1) ∧
  Sleep.sleep_block_mode Sleep.EM0 [0; 0; 0; 0; 0] = Ok tt [1; 0; 0; 0; 0].
Proof. repeat split. Qed.

(** ** The bus transaction engine *)

Section I2CFacts.

Import I2C.

Ltac by_state w :=
  unfold i2c_ack, i2c_nack, i2c_rxdatav, i2c_mstop, legal, get, mbind, M_bind,
    bind, EFM_ASSERT, ret;
  repeat match goal with
  | |- context [state (i2c_sm w) =? ?k] =>
      destruct (Z.eqb_spec (state (i2c_sm w)) k)
  end.

Lemma i2c_ack_in_RX_MS_byte (w : world) :
  state (i2c_sm w) = RX_MS_byte → i2c_ack w = Ok tt w.
Proof.
  intros Hs. unfold i2c_ack, get, mbind, M_bind, bind, ret.
  rewrite Hs. reflexivity.
Qed.

Lemma illegal_faults (w : world) (c : condition) :
  legal (state (i2c_sm w)) c = false →
  ¬ (state (i2c_sm w) = RX_MS_byte ∧ c = Ack) →
  isr c w = Fault w.
Proof.
  intros Hl Hne.
  destruct c; simpl; revert Hl; by_state w; simpl;
    intros; first [reflexivity | discriminate | tauto].
Qed.

Lemma i2c_mstop_in_end_comm (w : world) (c : Z) :
  state (i2c_sm w) = end_comm →
  sleep w !! Z.to_nat I2C_EM_BLOCK = Some c → 0 < c < 2 ^ 31 →
  ∃ w', i2c_mstop w = Ok tt w' ∧
        state (i2c_sm w') = handshake ∧
        sleep w' = <[Z.to_nat I2C_EM_BLOCK := c - 1]> (sleep w) ∧
        Scheduler.posted (sched w') = Scheduler.posted (sched w) ++ [event w] ∧
        Scheduler.event_scheduled (sched w') =
          Z.lor (Scheduler.event_scheduled (sched w)) (event w).
Proof.
  intros Hs Hc Hr.
  unfold i2c_mstop, get, mbind, M_bind, bind. rewrite Hs.
  cbn [Z.eqb Pos.eqb end_comm handshake measure_cmd confirm_cmd RX_MS_byte
       RX_LS_byte].
  unfold sleep_unblock_mode, zoom.
  rewrite (sleep_unblock_mode_run _ _ c) by (done || exact Hc).
  destruct (Z.ltb_spec 0 c); [|lia]. cbn zeta.
  rewrite int32_small by lia.
  destruct (Z.leb_spec 0 (c - 1)); [|lia].
  eexists. split; [reflexivity|]. repeat split.
Qed.

Lemma i2c_start_sends_address (w : world) (slave_add cmd read_data : Z)
    (i2c : periph) (cb c : Z) :
  Z.land (STATE (regs w i2c)) Reg._I2C_STATE_MASK = Reg.I2C_STATE_STATE_IDLE →
  sleep w !! Z.to_nat I2C_EM_BLOCK = Some c → 0 <= c < 4 →
  ∃ w', i2c_start slave_add cmd read_data i2c cb w = Ok tt w' ∧
        i2c_sm w' = mkSM handshake slave_add cmd read_data false i2c cb ∧
        written (regs w' i2c) =
          written (regs w i2c) ++
          [CMD Reg.I2C_CMD_START; TXDATA (Z.lor (uint32 (Z.shiftl slave_add 1)) 0)].
Proof.
  intros Hidle Hc Hr.
  unfold i2c_start, get, mbind, M_bind, bind, EFM_ASSERT.
  rewrite Hidle. cbn [Z.eqb Reg.I2C_STATE_STATE_IDLE].
  unfold sleep_block_mode, zoom.
  rewrite (sleep_block_mode_run _ _ c) by (done || exact Hc).
  cbn zeta. rewrite int32_small by lia.
  destruct (Z.ltb_spec (c + 1) 5); [|lia].
  destruct i2c; (eexists; split; [reflexivity|]; split; [reflexivity|]);
    cbn; rewrite <- app_assoc; reflexivity.
Qed.

Lemma i2c_rxdatav_in_RX_MS_byte (w : world) (old : Z) :
  state (i2c_sm w) = RX_MS_byte →
  0 <= data (i2c_sm w) → ram w !! Z.to_nat (data (i2c_sm w)) = Some old →
  ∃ w', i2c_rxdatav w = Ok tt w' ∧
        state (i2c_sm w') = RX_LS_byte ∧
        data (i2c_sm w') = data (i2c_sm w) ∧
        ram w' = <[Z.to_nat (data (i2c_sm w)) :=
                    Z.lor old (uint32 (Z.shiftl (RXDATA (regs w (I2Cn (i2c_sm w)))) 8))]>
                 (ram w).
Proof.
  intros Hs Hd Hold.
  pose proof (lookup_lt_Some _ _ _ Hold) as Hlt.
  unfold i2c_rxdatav, load_word, store_word, get, mbind, M_bind, bind, of_option.
  rewrite Hs. cbn [Z.eqb Pos.eqb handshake measure_cmd confirm_cmd RX_MS_byte].
  rewrite (aload_lookup _ _ _ Hd Hold). unfold ret.
  rewrite astore_insert by lia.
  destruct (I2Cn (i2c_sm w)); (eexists; split; [reflexivity|]); repeat split.
Qed.

Lemma i2c_rxdatav_in_RX_LS_byte (w : world) (old : Z) :
  state (i2c_sm w) = RX_LS_byte →
  0 <= data (i2c_sm w) → ram w !! Z.to_nat (data (i2c_sm w)) = Some old →
  ∃ w', i2c_rxdatav w = Ok tt w' ∧
        state (i2c_sm w') = end_comm ∧
        ram w' = <[Z.to_nat (data (i2c_sm w)) :=
                    Z.lor old (RXDATA (regs w (I2Cn (i2c_sm w))))]> (ram w).
Proof.
  intros Hs Hd Hold.
  pose proof (lookup_lt_Some _ _ _ Hold) as Hlt.
  unfold i2c_rxdatav, load_word, store_word, get, mbind, M_bind, bind, of_option.
  rewrite Hs.
  cbn [Z.eqb Pos.eqb handshake measure_cmd confirm_cmd RX_MS_byte RX_LS_byte].
  rewrite (aload_lookup _ _ _ Hd Hold). unfold ret.
  rewrite astore_insert by lia.
  destruct (I2Cn (i2c_sm w)); (eexists; split; [reflexivity|]); repeat split.
Qed.

End I2CFacts.

(** C2, as the code has it. A condition the table of section 4.3 does not
    allow in the current state stops the engine in a failed assertion, with
    one exception: an acknowledge in the receive-high-byte state is accepted
    and changes nothing. *)
Theorem illegal_condition_faults_unless_ack_in_RX_MS_byte
    (w : I2C.world) (c : I2C.condition) :
  I2C.legal (I2C.state (I2C.i2c_sm w)) c = false →
  (I2C.state (I2C.i2c_sm w) = I2C.RX_MS_byte ∧ c = I2C.Ack →
     I2C.isr c w = Ok tt w) ∧
  (¬ (I2C.state (I2C.i2c_sm w) = I2C.RX_MS_byte ∧ c = I2C.Ack) →
     I2C.isr c w = Fault w).
Proof.
  intros Hl. split.
  - intros [Hs ->]. apply i2c_ack_in_RX_MS_byte, Hs.
  - intros Hne. apply illegal_faults; assumption.
Qed.

Lemma illegal_condition_faults_unless_ack_in_RX_MS_byte_witness :
  (I2C.state (I2C.i2c_sm I2C.power_on) = I2C.RX_MS_byte ∧ I2C.Stop = I2C.Ack →
     I2C.isr I2C.Stop I2C.power_on = Ok tt I2C.power_on) ∧
  (¬ (I2C.state (I2C.i2c_sm I2C.power_on) = I2C.RX_MS_byte ∧ I2C.Stop = I2C.Ack) →
     I2C.isr I2C.Stop I2C.power_on = Fault I2C.power_on).
Proof.
  apply (illegal_condition_faults_unless_ack_in_RX_MS_byte I2C.power_on I2C.Stop).
  reflexivity.
Defined.

(** C2, as the specification has it, fails: in the receive-high-byte state
    an acknowledge is not in the table, and [i2c_ack] returns without a
    failed assertion. *)
Lemma ack_in_RX_MS_byte_is_ignored :
  ¬ (∀ (w : I2C.world) (c : I2C.condition),
       I2C.legal (I2C.state (I2C.i2c_sm w)) c = false →
       ∃ w', I2C.isr c w = Fault w').
Proof.
  intros H.
  destruct (H (I2C.with_sm (λ sm, I2C.mkSM I2C.RX_MS_byte 0 0 0 false I2C.I2C0 0)
                 I2C.power_on) I2C.Ack) as [w' Hw'].
  - reflexivity.
  - discriminate Hw'.
Qed.

(** C4. The event posted at the stop condition is the one [i2c_open] was
    given, not the one given to [i2c_start]: the driver opened with event 1
    and started with event 2 posts event 1 when the reading is done.  The
    block on the I2C level is released and the engine is back at its first
    state. *)
Theorem stop_posts_the_event_of_i2c_open :
  ∃ w' : I2C.world,
    (I2C.i2c_open I2C.I2C0 1 ;; I2C.reading 0x40 0xF3 0 2 0x12 0x34) I2C.power_on
      = Ok tt w' ∧
    I2C.callback (I2C.i2c_sm w') = 2 ∧
    Scheduler.posted (I2C.sched w') = [1] ∧
    Scheduler.event_scheduled (I2C.sched w') = 1 ∧
    I2C.sleep w' = [0; 0; 0; 0; 0] ∧
    I2C.state (I2C.i2c_sm w') = I2C.handshake.
Proof.
  eexists. split; [vm_compute; reflexivity|]. repeat split.
Qed.

(** C5. The received bytes are or-ed into the destination word, which
    nothing clears: a first reading of 0x12, 0x34 into the zeroed word of
    the sensor driver gives 0x1234, and a second reading of 0x65, 0x43 then
    gives 0x7777, not 0x6543.  The address byte [i2c_start] writes is the
    address shifted left with the write bit 0 below it. *)
Theorem destination_word_keeps_earlier_bits :
  ∃ w1 w2 : I2C.world,
    (I2C.i2c_open I2C.I2C0 1 ;; I2C.reading 0x40 0xF3 0 1 0x12 0x34) I2C.power_on
      = Ok tt w1 ∧
    I2C.ram w1 = [0x1234] ∧
    I2C.reading 0x40 0xF3 0 1 0x65 0x43 w1 = Ok tt w2 ∧
    I2C.ram w2 = [0x7777] ∧
    Z.lor (Z.shiftl 0x65 8) 0x43 = 0x6543 ∧
    I2C.written (I2C.regs w2 I2C.I2C0) =
      I2C.written (I2C.regs w1 I2C.I2C0) ++
      [I2C.CMD Reg.I2C_CMD_START; I2C.TXDATA 0x80; I2C.TXDATA 0xF3;
       I2C.CMD Reg.I2C_CMD_START; I2C.TXDATA 0x81;
       I2C.CMD Reg.I2C_CMD_ACK; I2C.CMD Reg.I2C_CMD_NACK; I2C.CMD Reg.I2C_CMD_STOP].
Proof.
  eexists. eexists.
  split; [vm_compute; reflexivity|].
  split; [reflexivity|].
  split; [vm_compute; reflexivity|].
  repeat split.
Qed.

(** ** The serial framing engine *)

Section LeuartFacts.

Import Leuart.

Lemma leuart_txc_in_stop (w : world) (c : Z) :
  tx_state (tx_leuart_sm w) = stop →
  sleep w !! Z.to_nat LEUART_TX_EM = Some c → 0 < c < 2 ^ 31 →
  ∃ w', leuart_txc w = Ok tt w' ∧
        tx_state (tx_leuart_sm w') = stop ∧
        busy (tx_leuart_sm w') = false ∧
        IEN (LEUART0 w') = Reg.clear_bits (IEN (LEUART0 w)) Reg.LEUART_IEN_TXC ∧
        sleep w' = <[Z.to_nat LEUART_TX_EM := c - 1]> (sleep w) ∧
        Scheduler.posted (sched w') =
          Scheduler.posted (sched w) ++ [tx_callback (tx_leuart_sm w)].
Proof.
  intros Hs Hc Hr.
  unfold leuart_txc, get, mbind, M_bind, bind. rewrite Hs.
  cbn [Z.eqb Pos.eqb start TXdata stop].
  unfold IEN_clear, set_IEN, set_busy, set_tx_state, add_scheduled_event,
    sleep_unblock_mode, zoom, get, modify, mbind, M_bind, bind.
  cbn [Scheduler.add_scheduled_event modify sleep with_sleep with_sched with_tx
       with_regs].
  rewrite (sleep_unblock_mode_run _ _ c) by (done || exact Hc).
  destruct (Z.ltb_spec 0 c); [|lia]. cbn zeta.
  rewrite int32_small by lia.
  destruct (Z.leb_spec 0 (c - 1)); [|lia].
  eexists. split; [reflexivity|]. repeat split.
Qed.

End LeuartFacts.

(** C7. After the transfer-complete interrupt the transmit state machine
    is still in [stop], not back in [start]: [leuart_txc] assigns [stop].
    Sending "A" from rest, the byte goes out, the busy flag falls, the TXC
    interrupt is disabled, the event is posted and the block released, and
    the state stays 2. *)
Theorem leuart_txc_stays_in_stop :
  ∃ w' : Leuart.world,
    (Leuart.leuart_start (bytes_of_string "A") ;;
     Leuart.interrupt Reg.LEUART_IF_TXBL ;;
     Leuart.interrupt Reg.LEUART_IF_TXC) (Leuart.idle (replicate 64 0) 8 16)
      = Ok tt w' ∧
    Leuart.tx_state (Leuart.tx_leuart_sm w') = Leuart.stop ∧
    Leuart.stop ≠ Leuart.start ∧
    Leuart.busy (Leuart.tx_leuart_sm w') = false ∧
    Reg.any_bit (Leuart.IEN (Leuart.LEUART0 w')) Reg.LEUART_IEN_TXC = false ∧
    Leuart.TXDATA (Leuart.LEUART0 w') = bytes_of_string "A" ∧
    Scheduler.posted (Leuart.sched w') = [8] ∧
    Leuart.sleep w' = [0; 0; 0; 0; 0].
Proof.
  eexists. split; [vm_compute; reflexivity|]. repeat split. discriminate.
Qed.

(** C8. From rest, the frames a # H e l l o ! d e f leave the string
    "#Hello!" with its terminator at the front of the receive buffer and the
    rest of the buffer as it was; the receive event is posted once and is
    pending in the event mask; the machine is back in its first state.
    The a before the start frame and the d, e, f after the signal frame
    are not stored, and nothing else of the driver changes. *)
Theorem receive_hello_frame (w : Leuart.world) :
  Leuart.rx_at_rest w →
  ∃ w' : Leuart.world,
    Leuart.receive_all (bytes_of_string "a#Hello!def") w = Ok tt w' ∧
    take 8 (Leuart.rx_str_of w') = bytes_of_string "#Hello!" ++ [0] ∧
    drop 8 (Leuart.rx_str_of w') = drop 8 (Leuart.rx_str_of w) ∧
    cstr (Leuart.rx_str_of w') = bytes_of_string "#Hello!" ∧
    Scheduler.posted (Leuart.sched w') =
      Scheduler.posted (Leuart.sched w) ++ [Leuart.leuart_rx_cb w] ∧
    Scheduler.event_scheduled (Leuart.sched w') =
      Z.lor (Scheduler.event_scheduled (Leuart.sched w)) (Leuart.leuart_rx_cb w) ∧
    Leuart.rx_state (Leuart.rx_leuart_sm w') = Leuart.RXstart ∧
    Leuart.tx_leuart_sm w' = Leuart.tx_leuart_sm w ∧
    Leuart.sleep w' = Leuart.sleep w.
Proof.
  intros (Hst & Hlen & Hien & Hif & Hsf & Hsg & Hrb & Hsu).
  destruct w as [tx [rst buf rlen rcb] rxcb txcb
                 [ien if_ rxd sf sg rb su txd] sl [ev ps]].
  cbn in Hst, Hlen, Hien, Hif, Hsf, Hsg, Hrb, Hsu. subst.
  do 64 (destruct buf as [|? buf]; [simpl in Hlen; discriminate|]).
  destruct buf; [|simpl in Hlen; discriminate].
  eexists. split; [vm_compute; reflexivity|]. repeat split.
Qed.

Lemma receive_hello_frame_witness :
  ∃ w' : Leuart.world,
    Leuart.receive_all (bytes_of_string "a#Hello!def")
      (Leuart.idle (replicate 64 0) 8 16) = Ok tt w' ∧
    take 8 (Leuart.rx_str_of w') = bytes_of_string "#Hello!" ++ [0] ∧
    drop 8 (Leuart.rx_str_of w') =
      drop 8 (Leuart.rx_str_of (Leuart.idle (replicate 64 0) 8 16)) ∧
    cstr (Leuart.rx_str_of w') = bytes_of_string "#Hello!" ∧
    Scheduler.posted (Leuart.sched w') =
      Scheduler.posted (Leuart.sched (Leuart.idle (replicate 64 0) 8 16)) ++
      [Leuart.leuart_rx_cb (Leuart.idle (replicate 64 0) 8 16)] ∧
    Scheduler.event_scheduled (Leuart.sched w') =
      Z.lor (Scheduler.event_scheduled (Leuart.sched (Leuart.idle (replicate 64 0) 8 16)))
            (Leuart.leuart_rx_cb (Leuart.idle (replicate 64 0) 8 16)) ∧
    Leuart.rx_state (Leuart.rx_leuart_sm w') = Leuart.RXstart ∧
    Leuart.tx_leuart_sm w' = Leuart.tx_leuart_sm (Leuart.idle (replicate 64 0) 8 16) ∧
    Leuart.sleep w' = Leuart.sleep (Leuart.idle (replicate 64 0) 8 16).
Proof.
  apply (receive_hello_frame (Leuart.idle (replicate 64 0) 8 16)).
  repeat split.
Defined.

(** ** Copying strings *)

Lemma copy_at_spec (src dst : list Z) (i : nat) :
  (i + length src <= length dst)%nat →
  copy_at dst (Z.of_nat i) src =
    Some (take i dst ++ src ++ drop (i + length src) dst).
Proof.
  revert dst i. induction src as [|b src IH]; intros dst i Hlen.
  - simpl. rewrite Nat.add_0_r, take_drop. reflexivity.
  - simpl in *. rewrite astore_insert by lia.
    replace (Z.of_nat i + 1) with (Z.of_nat (S i)) by lia.
    rewrite IH by (rewrite length_insert; lia).
    rewrite Nat2Z.id. f_equal.
    rewrite (take_S_r _ _ b) by (apply list_lookup_insert_eq; lia).
    rewrite take_insert_ge by lia.
    rewrite drop_insert_lt by lia.
    rewrite <- app_assoc. simpl.
    replace (i + S (length src))%nat with (S (i + length src)) by lia.
    reflexivity.
Qed.

Lemma strcpy_spec (dst src : list Z) :
  (length (cstr src) + 1 <= length dst)%nat →
  strcpy dst src = Some (cstr src ++ [0] ++ drop (length (cstr src) + 1) dst).
Proof.
  intros Hlen. unfold strcpy. change 0 with (Z.of_nat 0) at 1.
  rewrite copy_at_spec by (rewrite length_app; simpl; lia).
  rewrite length_app. simpl. rewrite <- app_assoc. reflexivity.
Qed.

Section LeuartStart.

Import Leuart.

Lemma leuart_start_run (w : world) (string : list Z) (c : Z) :
  busy (tx_leuart_sm w) = false →
  (length (cstr string) + 1 <= length (tx_str (tx_leuart_sm w)))%nat →
  sleep w !! Z.to_nat LEUART_TX_EM = Some c → 0 <= c < 4 →
  ∃ w', leuart_start string w = Ok tt w' ∧
    tx_str (tx_leuart_sm w') =
      cstr string ++ [0] ++
      drop (length (cstr string) + 1) (tx_str (tx_leuart_sm w)) ∧
    tx_str_len (tx_leuart_sm w') = uint32 (strlen string) ∧
    sent_bytes (tx_leuart_sm w') = 0 ∧
    busy (tx_leuart_sm w') = true ∧
    tx_state (tx_leuart_sm w') = TXdata ∧
    tx_callback (tx_leuart_sm w') = leuart0_tx_done_cb w ∧
    IEN (LEUART0 w') = Reg.set_bits (IEN (LEUART0 w)) Reg.LEUART_IEN_TXBL ∧
    sleep w' = <[Z.to_nat LEUART_TX_EM := c + 1]> (sleep w) ∧
    rx_leuart_sm w' = rx_leuart_sm w ∧ sched w' = sched w.
Proof.
  intros Hbusy Hlen Hc Hr.
  unfold leuart_start, leuart_busy, get, mbind, M_bind, bind, ret.
  rewrite Hbusy.
  unfold set_tx_str_len, set_sent_bytes, modify.
  cbn [tx_leuart_sm with_tx tx_str of_option].
  rewrite strcpy_spec by exact Hlen.
  unfold ret, set_tx_str, set_busy, modify, sleep_block_mode, zoom.
  cbn [of_option ret sleep with_tx].
  rewrite (sleep_block_mode_run _ _ c) by (done || exact Hc).
  cbn zeta. rewrite int32_small by lia.
  destruct (Z.ltb_spec (c + 1) 5); [|lia].
  eexists. split; [reflexivity|]. repeat split.
Qed.

End LeuartStart.

(** ** The circular buffer *)

Section BleFacts.

Import Ble.

Lemma land_mask (x : Z) : Z.land (uint32 x) 63 = x mod 64.
Proof.
  unfold uint32. change 63 with (Z.ones 6). rewrite Z.land_ones by lia.
  apply Z.mod_mod_divide. exists (2 ^ 26). reflexivity.
Qed.

Lemma uint8_small (c : Z) : 0 <= c < 256 → uint8 c = c.
Proof. intros H. unfold uint8. apply Z.mod_small. lia. Qed.

Lemma cbuf_store_run (w : world) (c : Z) :
  0 <= write_ptr (ble_cbuf w) < Z.of_nat (length (cbuf (ble_cbuf w))) →
  cbuf_store c w =
    Ok tt (with_buf (λ b, mkBuf (<[Z.to_nat (write_ptr b) := uint8 c]> (cbuf b))
                              (size_mask b) (size b) (read_ptr b) (write_ptr b)) w).
Proof.
  intros H. unfold cbuf_store, get, mbind, M_bind, bind, of_option.
  rewrite astore_insert by exact H. reflexivity.
Qed.

Lemma cbuf_load_run (w : world) (c : Z) :
  0 <= read_ptr (ble_cbuf w) →
  cbuf (ble_cbuf w) !! Z.to_nat (read_ptr (ble_cbuf w)) = Some c →
  cbuf_load w = Ok c w.
Proof.
  intros H Hc. unfold cbuf_load, get, mbind, M_bind, bind, of_option.
  rewrite (aload_lookup _ _ _ H Hc). reflexivity.
Qed.

Lemma push_loop_spec (chars : list Z) (w : world) :
  wf (ble_cbuf w) → (length chars <= 64)%nat →
  ∃ w', push_loop chars w = Ok tt w' ∧
    result_str w' = result_str w ∧ leuart w' = leuart w ∧
    size (ble_cbuf w') = size (ble_cbuf w) ∧
    size_mask (ble_cbuf w') = size_mask (ble_cbuf w) ∧
    read_ptr (ble_cbuf w') = read_ptr (ble_cbuf w) ∧
    write_ptr (ble_cbuf w') =
      (write_ptr (ble_cbuf w) + Z.of_nat (length chars)) mod 64 ∧
    length (cbuf (ble_cbuf w')) = length (cbuf (ble_cbuf w)) ∧
    (∀ (k : nat) c, chars !! k = Some c →
       cbuf (ble_cbuf w') !! Z.to_nat ((write_ptr (ble_cbuf w) + Z.of_nat k) mod 64)
         = Some (uint8 c)) ∧
    (∀ j : nat,
       (∀ k : nat, (k < length chars)%nat →
          j ≠ Z.to_nat ((write_ptr (ble_cbuf w) + Z.of_nat k) mod 64)) →
       cbuf (ble_cbuf w') !! j = cbuf (ble_cbuf w) !! j).
Proof.
  revert w. induction chars as [|c chars IH]; intros w Hwf Hlen.
  - exists w. split; [reflexivity|]. repeat split.
    + destruct Hwf as (_ & _ & _ & _ & Hw). simpl. rewrite Z.add_0_r.
      rewrite Z.mod_small; [reflexivity|]. unfold CSIZE in Hw. lia.
    + intros k c Hk. rewrite lookup_nil in Hk. discriminate.
  - destruct Hwf as (Hsz & Hmask & Hl & Hr & Hw).
    unfold CSIZE in *. change (64 - 1) with 63 in *. simpl in Hlen.
    cbn [push_loop]. unfold mbind, M_bind, bind.
    rewrite cbuf_store_run by lia. unfold update_circ_wrtindex, modify.
    set (w1 := with_buf _ (with_buf _ w)).
    assert (Hw1 : write_ptr (ble_cbuf w1) = (write_ptr (ble_cbuf w) + 1) mod 64).
    { subst w1. cbn. rewrite Hmask. apply (land_mask (write_ptr (ble_cbuf w) + 1)). }
    assert (Hc1 : cbuf (ble_cbuf w1) =
                  <[Z.to_nat (write_ptr (ble_cbuf w)) := uint8 c]> (cbuf (ble_cbuf w))).
    { reflexivity. }
    destruct (IH w1) as (w' & Hrun & Hres & Hleu & Hsz' & Hmask' & Hr' & Hw' & Hl' & Hin & Hout).
    { subst w1. unfold wf, CSIZE. change (64 - 1) with 63. cbn. rewrite length_insert.
      repeat split; try assumption; try lia.
      - rewrite Hmask. rewrite (land_mask (write_ptr (ble_cbuf w) + 1)).
        apply Z.mod_pos_bound. lia.
      - rewrite Hmask. rewrite (land_mask (write_ptr (ble_cbuf w) + 1)).
        apply Z.mod_pos_bound. lia. }
    { lia. }
    exists w'. split; [exact Hrun|].
    rewrite Hw1 in *. rewrite Hc1 in *. rewrite length_insert in Hl'.
    assert (Hidx : ∀ k : nat, ((write_ptr (ble_cbuf w) + 1) mod 64 + Z.of_nat k) mod 64
                     = (write_ptr (ble_cbuf w) + Z.of_nat (S k)) mod 64).
    { intros k. rewrite Zplus_mod_idemp_l. f_equal. lia. }
    repeat split; try assumption.
    + rewrite Hw'. rewrite Hidx. reflexivity.
    + intros k c' Hk. destruct k as [|k].
      * simpl in Hk. injection Hk as <-.
        rewrite Z.add_0_r, Z.mod_small by lia.
        rewrite Hout.
        -- apply list_lookup_insert_eq. lia.
        -- intros k Hk Heq. rewrite Hidx in Heq.
           apply Z2Nat.inj in Heq; [| lia | apply Z.mod_pos_bound; lia].
           assert (Hk' : 1 <= Z.of_nat (S k) < 64) by lia.
           revert Heq Hk'. generalize (Z.of_nat (S k)). intros z Heq Hz.
           destruct (Z.lt_ge_cases (write_ptr (ble_cbuf w) + z) 64).
           ++ rewrite Z.mod_small in Heq by lia. lia.
           ++ replace (write_ptr (ble_cbuf w) + z) with
                ((write_ptr (ble_cbuf w) + z - 64) + 1 * 64) in Heq by lia.
              rewrite Z_mod_plus_full, Z.mod_small in Heq by lia. lia.
      * simpl in Hk. rewrite <- Hidx. apply Hin. exact Hk.
    + intros j Hj. rewrite Hout.
      * apply list_lookup_insert_ne.
        specialize (Hj 0%nat ltac:(simpl; lia)).
        rewrite Z.add_0_r, Z.mod_small in Hj by lia. congruence.
      * intros k Hk. rewrite Hidx. apply Hj. simpl. lia.
Qed.

Lemma pop_loop_spec (n : nat) (w : world) :
  wf (ble_cbuf w) →
  ∃ cs w', pop_loop n w = Ok cs w' ∧
    result_str w' = result_str w ∧ leuart w' = leuart w ∧
    size (ble_cbuf w') = size (ble_cbuf w) ∧
    size_mask (ble_cbuf w') = size_mask (ble_cbuf w) ∧
    write_ptr (ble_cbuf w') = write_ptr (ble_cbuf w) ∧
    cbuf (ble_cbuf w') = cbuf (ble_cbuf w) ∧
    read_ptr (ble_cbuf w') = (read_ptr (ble_cbuf w) + Z.of_nat n) mod 64 ∧
    length cs = n ∧
    (∀ k : nat, (k < n)%nat →
       cs !! k =
       cbuf (ble_cbuf w) !! Z.to_nat ((read_ptr (ble_cbuf w) + Z.of_nat k) mod 64)).
Proof.
  revert w. induction n as [|n IH]; intros w Hwf.
  - exists [], w. split; [reflexivity|].
    destruct Hwf as (_ & _ & _ & Hr & _). unfold CSIZE in Hr.
    repeat split.
    + rewrite Z.add_0_r, Z.mod_small by lia. reflexivity.
    + intros k Hk. lia.
  - destruct Hwf as (Hsz & Hmask & Hl & Hr & Hw).
    unfold CSIZE in *. change (64 - 1) with 63 in *.
    destruct (lookup_lt_is_Some_2 (cbuf (ble_cbuf w))
                (Z.to_nat (read_ptr (ble_cbuf w)))) as [c Hc]; [lia|].
    cbn [pop_loop]. unfold mbind, M_bind, bind.
    rewrite (cbuf_load_run w c) by (lia || exact Hc).
    unfold update_circ_readtindex, modify.
    set (w1 := with_buf _ w).
    assert (Hr1 : read_ptr (ble_cbuf w1) = (read_ptr (ble_cbuf w) + 1) mod 64).
    { subst w1. cbn. rewrite Hmask. apply land_mask. }
    destruct (IH w1)
      as (cs & w' & Hrun & Hres & Hleu & Hsz' & Hmask' & Hw' & Hc' & Hr' & Hlen & Hcs).
    { subst w1. unfold wf, CSIZE. change (64 - 1) with 63. cbn.
      repeat split; try assumption; try lia;
        rewrite Hmask, land_mask; apply Z.mod_pos_bound; lia. }
    rewrite Hrun. exists (c :: cs), w'. split; [reflexivity|].
    assert (Hidx : ∀ k : nat, ((read_ptr (ble_cbuf w) + 1) mod 64 + Z.of_nat k) mod 64
                     = (read_ptr (ble_cbuf w) + Z.of_nat (S k)) mod 64).
    { intros k. rewrite Zplus_mod_idemp_l. f_equal. lia. }
    rewrite Hr1 in *.
    repeat split; try assumption.
    + rewrite Hr', Hidx. reflexivity.
    + simpl. rewrite Hlen. reflexivity.
    + intros k Hk. destruct k as [|k].
      * simpl. rewrite Z.add_0_r, Z.mod_small by lia. symmetry. exact Hc.
      * simpl. rewrite Hcs by lia. rewrite Hidx. reflexivity.
Qed.

Lemma cstr_chars (msg rest : list Z) :
  Forall is_char msg → cstr (msg ++ 0 :: rest) = msg.
Proof.
  induction 1 as [|c msg Hc _ IH]; [reflexivity|].
  simpl. destruct (Z.eqb_spec c 0) as [->|_].
  - unfold is_char in Hc. lia.
  - rewrite IH. reflexivity.
Qed.

Lemma cstr_chars_id (msg : list Z) : Forall is_char msg → cstr msg = msg.
Proof.
  induction 1 as [|c msg Hc _ IH]; [reflexivity|].
  simpl. destruct (Z.eqb_spec c 0) as [->|_].
  - unfold is_char in Hc. lia.
  - rewrite IH. reflexivity.
Qed.

Lemma space_of_wf (b : BLE_CIRCULAR_BUF) :
  size b = CSIZE → size_mask b = CSIZE - 1 →
  space_of b = 64 - (write_ptr b - read_ptr b) mod 64.
Proof.
  intros Hs Hm. unfold space_of. rewrite Hs, Hm.
  change (CSIZE - 1) with 63. rewrite land_mask. unfold CSIZE.
  pose proof (Z.mod_pos_bound (write_ptr b - read_ptr b) 64 ltac:(lia)).
  unfold uint32, uint8.
  change (2 ^ 32) with 4294967296. change (2 ^ 8) with 256.
  rewrite (Z.mod_small (64 - _) 4294967296) by lia.
  rewrite (Z.mod_small (64 - _) 256) by lia. reflexivity.
Qed.

Lemma strlen_range (string : list Z) : 0 <= strlen string.
Proof. unfold strlen. lia. Qed.

Lemma ble_circ_push_run (w : world) (string : list Z) :
  strlen string + 1 < 2 ^ 32 →
  ble_circ_push string w =
    if strlen string + 1 >? space_of (ble_cbuf w) then Fault w
    else push_loop ((strlen string + 1) :: cstr string) w.
Proof.
  intros Hlen. pose proof (strlen_range string).
  unfold ble_circ_push, ble_circ_space, get, mbind, M_bind, bind, ret,
    EFM_ASSERT, PACKET_HEADER.
  unfold uint32 at 1. rewrite Z.mod_small by lia.
  destruct (strlen string + 1 >? space_of (ble_cbuf w)); reflexivity.
Qed.

Lemma with_leuart_id (w : world) : with_leuart (leuart w) w = w.
Proof. destruct w. reflexivity. Qed.

Lemma ble_circ_pop_message (w : world) (msg : list Z) (test : bool) (c : Z) :
  let m := Z.of_nat (length msg) in
  wf (ble_cbuf w) →
  space_of (ble_cbuf w) ≠ CSIZE →
  (∀ (k : nat) x, ((m + 1) :: msg) !! k = Some x →
     cbuf (ble_cbuf w) !! Z.to_nat ((read_ptr (ble_cbuf w) + Z.of_nat k) mod 64)
       = Some x) →
  m < CSIZE - 1 →
  length (result_str w) = Z.to_nat CSIZE →
  length (Leuart.tx_str (Leuart.tx_leuart_sm (leuart w))) = 64%nat →
  Forall is_char msg →
  Leuart.busy (Leuart.tx_leuart_sm (leuart w)) = false →
  Leuart.sleep (leuart w) !! Z.to_nat Leuart.LEUART_TX_EM = Some c →
  0 <= c < 4 →
  ∃ w', ble_circ_pop test w = Ok false w' ∧
    size (ble_cbuf w') = size (ble_cbuf w) ∧
    size_mask (ble_cbuf w') = size_mask (ble_cbuf w) ∧
    cbuf (ble_cbuf w') = cbuf (ble_cbuf w) ∧
    write_ptr (ble_cbuf w') = write_ptr (ble_cbuf w) ∧
    read_ptr (ble_cbuf w') = (read_ptr (ble_cbuf w) + m + 1) mod 64 ∧
    if test then
      take (S (length msg)) (result_str w') = msg ++ [0] ∧
      leuart w' = leuart w
    else
      take (S (length msg))
           (Leuart.tx_str (Leuart.tx_leuart_sm (leuart w'))) = msg ++ [0] ∧
      Leuart.tx_str_len (Leuart.tx_leuart_sm (leuart w')) = m ∧
      Leuart.busy (Leuart.tx_leuart_sm (leuart w')) = true ∧
      Leuart.tx_state (Leuart.tx_leuart_sm (leuart w')) = Leuart.TXdata ∧
      result_str w' = result_str w.
Proof.
  intros m Hwf Hspace Hcells Hm Hres Htx Hchars Hbusy Hc Hcr.
  pose proof Hwf as (Hsz & Hmask & Hl & Hr & Hw).
  unfold CSIZE in *. change (64 - 1) with 63 in *.
  change (Z.to_nat 64) with 64%nat in *.
  assert (Hmlen : m = Z.of_nat (length msg)) by reflexivity.
  clearbody m.
  unfold ble_circ_pop, leuart_busy, zoom, Leuart.leuart_busy, ble_circ_space,
    get, mbind, M_bind, bind, ret.
  rewrite Hbusy. cbn [orb].
  rewrite with_leuart_id.
  destruct (Z.eqb_spec (space_of (ble_cbuf w)) CSIZE) as [Heq|_];
    [contradiction|].
  cbv beta iota.
  (* the header *)
  assert (Hhdr : cbuf (ble_cbuf w) !! Z.to_nat (read_ptr (ble_cbuf w)) = Some (m + 1)).
  { specialize (Hcells 0%nat (m + 1) eq_refl).
    rewrite Z.add_0_r, Z.mod_small in Hcells by lia. exact Hcells. }
  rewrite (cbuf_load_run w (m + 1) ltac:(lia) Hhdr).
  unfold PACKET_HEADER, uint32. change (2 ^ 32) with 4294967296.
  replace (m + 1 - 1) with m by lia.
  rewrite (Z.mod_small m) by lia.
  rewrite (Z.mod_small (m + 1)) by lia.
  destruct (Z.eqb_spec (m + 1) 0) as [|_]; [lia|].
  unfold undefined, update_circ_readtindex, modify.
  set (w1 := with_buf _ w).
  assert (Hr1 : read_ptr (ble_cbuf w1) = (read_ptr (ble_cbuf w) + 1) mod 64).
  { subst w1. cbn. rewrite Hmask. apply land_mask. }
  destruct (pop_loop_spec (Z.to_nat m) w1)
    as (cs & w2 & Hrun & Hres2 & Hleu2 & Hsz2 & Hmask2 & Hw2 & Hc2 & Hr2 & Hlen2 & Hcs).
  { subst w1. unfold wf, CSIZE. change (64 - 1) with 63. cbn.
    repeat split; try assumption; try lia;
      rewrite Hmask, land_mask; apply Z.mod_pos_bound; lia. }
  rewrite Hrun.
  assert (Hcsmsg : cs = msg).
  { apply list_eq. intros k.
    destruct (decide (k < length msg)%nat) as [Hk|Hk].
    - rewrite Hcs by lia. rewrite Hr1, Zplus_mod_idemp_l.
      destruct (lookup_lt_is_Some_2 msg k Hk) as [x Hx].
      rewrite Hx. change (cbuf (ble_cbuf w1)) with (cbuf (ble_cbuf w)).
      replace (read_ptr (ble_cbuf w) + 1 + Z.of_nat k)
        with (read_ptr (ble_cbuf w) + Z.of_nat (S k)) by lia.
      apply Hcells. exact Hx.
    - rewrite !lookup_ge_None_2; [reflexivity | lia | lia]. }
  subst cs.
  assert (Hrfinal : read_ptr (ble_cbuf w2) = (read_ptr (ble_cbuf w) + m + 1) mod 64).
  { rewrite Hr2, Hr1, Zplus_mod_idemp_l. f_equal. lia. }
  change (size (ble_cbuf w1)) with (size (ble_cbuf w)) in Hsz2.
  change (size_mask (ble_cbuf w1)) with (size_mask (ble_cbuf w)) in Hmask2.
  change (write_ptr (ble_cbuf w1)) with (write_ptr (ble_cbuf w)) in Hw2.
  change (cbuf (ble_cbuf w1)) with (cbuf (ble_cbuf w)) in Hc2.
  change (result_str w1) with (result_str w) in Hres2.
  change (leuart w1) with (leuart w) in Hleu2.
  assert (Hnat : Z.to_nat (m + 1) = S (length msg)) by lia.
  destruct test.
  - (* the test sink *)
    rewrite Hnat.
    rewrite (take_ge (msg ++ [0])) by (rewrite length_app; simpl; lia).
    change 0 with (Z.of_nat 0) at 1.
    rewrite copy_at_spec.
    2: { rewrite Hres2, Hres, length_app. simpl. lia. }
    cbn [of_option ret put]. 
    eexists. split; [reflexivity|]. cbn.
    repeat split; try assumption.
    rewrite app_assoc. apply take_app_length'.
    rewrite length_app. simpl. lia.
  - (* the transmitter *)
    unfold leuart_start, zoom.
    destruct (leuart_start_run (leuart w2) (msg ++ [0]) c)
      as (l' & Hstart & Hstr & Hslen & _ & Hb & Hst & _).
    { rewrite Hleu2. exact Hbusy. }
    { rewrite Hleu2, Htx, (cstr_chars msg []) by exact Hchars. lia. }
    { rewrite Hleu2. exact Hc. }
    { exact Hcr. }
    rewrite Hstart.
    eexists. split; [reflexivity|]. cbn.
    rewrite (cstr_chars msg []) in Hstr by exact Hchars.
    repeat split; try assumption.
    + rewrite Hstr, app_assoc. apply take_app_length'.
      rewrite length_app. simpl. lia.
    + rewrite Hslen. unfold strlen. rewrite (cstr_chars msg []) by exact Hchars.
      unfold uint32. change (2 ^ 32) with 4294967296.
      rewrite Z.mod_small by lia. lia.
Qed.

Lemma space_of_le (b : BLE_CIRCULAR_BUF) :
  size b = CSIZE → size_mask b = CSIZE - 1 → 0 < space_of b <= 64.
Proof.
  intros Hs Hm. rewrite space_of_wf by assumption.
  pose proof (Z.mod_pos_bound (write_ptr b - read_ptr b) 64 ltac:(lia)). lia.
Qed.

(** The first half of C6: [ble_circ_push] stops in its assertion exactly
    when the string and its header are more than [ble_circ_space] reports. *)
Lemma ble_circ_push_faults_iff (w : world) (string : list Z) :
  wf (ble_cbuf w) → strlen string + 1 < 2 ^ 32 →
  (∃ w', ble_circ_push string w = Fault w') ↔
  strlen string + PACKET_HEADER > space_of (ble_cbuf w).
Proof.
  intros Hwf Hlen. pose proof Hwf as (Hsz & Hmask & _).
  pose proof (space_of_le _ Hsz Hmask) as Hsp.
  rewrite ble_circ_push_run by exact Hlen. unfold PACKET_HEADER.
  destruct (Z.gtb_spec (strlen string + 1) (space_of (ble_cbuf w))) as [Hgt|Hle].
  - split; [lia | intros _; eexists; reflexivity].
  - destruct (push_loop_spec ((strlen string + 1) :: cstr string) w Hwf)
      as (w1 & Hrun & _).
    { simpl. unfold strlen in Hle. lia. }
    rewrite Hrun. split; [intros [w' Hw']; discriminate | lia].
Qed.

End BleFacts.


(** C3. A message of fewer than [CSIZE - 1] characters pushed on an empty
    buffer, with the transmitter idle, comes back from the next pop: the
    pop reports a message, the sink holds the characters and the
    terminator (the test string for a test pop, the transmit buffer of the
    started transmission otherwise), and the buffer is empty again. *)
Theorem push_pop_round_trip (w : Ble.world) (p : Z) (msg : list Z)
    (test : bool) (c : Z) :
  Ble.empty_at p (Ble.ble_cbuf w) →
  Forall Ble.is_char msg →
  Z.of_nat (length msg) < Ble.CSIZE - 1 →
  length (Ble.result_str w) = Z.to_nat Ble.CSIZE →
  length (Leuart.tx_str (Leuart.tx_leuart_sm (Ble.leuart w))) = 64%nat →
  Leuart.busy (Leuart.tx_leuart_sm (Ble.leuart w)) = false →
  Leuart.sleep (Ble.leuart w) !! Z.to_nat Leuart.LEUART_TX_EM = Some c →
  0 <= c < 4 →
  ∃ w' : Ble.world,
    (Ble.ble_circ_push msg ;; Ble.ble_circ_pop test) w = Ok false w' ∧
    Ble.empty_at ((p + Z.of_nat (length msg) + 1) mod 64) (Ble.ble_cbuf w') ∧
    Ble.space_of (Ble.ble_cbuf w') = Ble.CSIZE ∧
    if test then
      take (S (length msg)) (Ble.result_str w') = msg ++ [0] ∧
      Ble.leuart w' = Ble.leuart w
    else
      take (S (length msg))
           (Leuart.tx_str (Leuart.tx_leuart_sm (Ble.leuart w'))) = msg ++ [0] ∧
      Leuart.tx_str_len (Leuart.tx_leuart_sm (Ble.leuart w')) =
        Z.of_nat (length msg) ∧
      Leuart.busy (Leuart.tx_leuart_sm (Ble.leuart w')) = true ∧
      Leuart.tx_state (Leuart.tx_leuart_sm (Ble.leuart w')) = Leuart.TXdata ∧
      Ble.result_str w' = Ble.result_str w.
Proof.
  intros (Hsz & Hmask & Hl & Hr & Hw & Hp) Hchars Hm Hres Htx Hbusy Hc Hcr.
  unfold Ble.CSIZE in *. change (64 - 1) with 63 in *.
  set (m := Z.of_nat (length msg)) in *.
  assert (Hcstr : cstr msg = msg) by (apply cstr_chars_id, Hchars).
  assert (Hstrlen : strlen msg = m) by (unfold strlen; rewrite Hcstr; reflexivity).
  assert (Hwf : Ble.wf (Ble.ble_cbuf w)).
  { unfold Ble.wf, Ble.CSIZE. rewrite Hr, Hw. repeat split; assumption || lia. }
  assert (Hspace : Ble.space_of (Ble.ble_cbuf w) = 64).
  { rewrite space_of_wf by assumption. rewrite Hr, Hw, Z.sub_diag. reflexivity. }
  (* the push *)
  unfold mbind at 1. unfold M_bind, bind.
  rewrite ble_circ_push_run by lia.
  rewrite Hstrlen, Hcstr, Hspace.
  destruct (Z.gtb_spec (m + 1) 64) as [|_]; [lia|].
  destruct (push_loop_spec ((m + 1) :: msg) w Hwf)
    as (w1 & Hrun & Hres1 & Hleu1 & Hsz1 & Hmask1 & Hr1 & Hw1 & Hl1 & Hin & _).
  { simpl. lia. }
  rewrite Hrun. clear Hrun.
  assert (Hmlen : m = Z.of_nat (length msg)) by reflexivity.
  clearbody m.
  assert (Hlen1 : Z.of_nat (length ((m + 1) :: msg)) = m + 1) by (simpl; lia).
  rewrite Hlen1 in Hw1. rewrite Hw in Hw1, Hin. rewrite Hr in Hr1.
  rewrite Hsz in Hsz1. rewrite Hmask in Hmask1. rewrite Hl in Hl1.
  assert (Hwp1 : 0 <= Ble.write_ptr (Ble.ble_cbuf w1) < 64).
  { rewrite Hw1. apply Z.mod_pos_bound. lia. }
  assert (Hwf1 : Ble.wf (Ble.ble_cbuf w1)).
  { unfold Ble.wf, Ble.CSIZE. rewrite Hr1. repeat split; assumption || lia. }
  assert (Hdiff : (Ble.write_ptr (Ble.ble_cbuf w1) - Ble.read_ptr (Ble.ble_cbuf w1))
                    mod 64 = m + 1).
  { rewrite Hw1, Hr1, Zminus_mod_idemp_l.
    replace (p + (m + 1) - p) with (m + 1) by lia. apply Z.mod_small. lia. }
  destruct (ble_circ_pop_message w1 msg test c)
    as (w' & Hpop & Hsz' & Hmask' & Hc' & Hw' & Hr' & Hsink).
  { exact Hwf1. }
  { rewrite space_of_wf by assumption. rewrite Hdiff. unfold Ble.CSIZE. lia. }
  { intros k x Hk. rewrite <- Hmlen in Hk. rewrite Hr1.
    rewrite (Hin k x Hk). f_equal. apply uint8_small.
    destruct k as [|k].
    - simpl in Hk. injection Hk as <-. lia.
    - simpl in Hk. rewrite Forall_lookup in Hchars.
      specialize (Hchars _ _ Hk). unfold Ble.is_char in Hchars. lia. }
  { unfold Ble.CSIZE. lia. }
  { rewrite Hres1. exact Hres. }
  { rewrite Hleu1. exact Htx. }
  { exact Hchars. }
  { rewrite Hleu1. exact Hbusy. }
  { rewrite Hleu1. exact Hc. }
  { exact Hcr. }
  rewrite <- Hmlen in Hr', Hsink.
  exists w'. split; [exact Hpop|].
  assert (Hrfinal : Ble.read_ptr (Ble.ble_cbuf w') = (p + m + 1) mod 64).
  { rewrite Hr', Hr1. reflexivity. }
  assert (Hwfinal : Ble.write_ptr (Ble.ble_cbuf w') = (p + m + 1) mod 64).
  { rewrite Hw', Hw1. f_equal. lia. }
  split.
  { unfold Ble.empty_at, Ble.CSIZE. rewrite Hsz', Hmask', Hc'.
    repeat split; try assumption; apply Z.mod_pos_bound; lia. }
  split.
  { rewrite space_of_wf by (rewrite ?Hsz', ?Hmask'; assumption).
    rewrite Hrfinal, Hwfinal, Z.sub_diag. reflexivity. }
  destruct test.
  - destruct Hsink as [Hs1 Hs2]. split; [exact Hs1|]. rewrite Hs2. exact Hleu1.
  - destruct Hsink as (Hs1 & Hs2 & Hs3 & Hs4 & Hs5).
    repeat split; try assumption. rewrite Hs5. exact Hres1.
Qed.



Lemma push_pop_round_trip_witness :
  ∃ w' : Ble.world,
    (Ble.ble_circ_push (bytes_of_string "Hi") ;; Ble.ble_circ_pop true) Ble.opened
      = Ok false w' ∧
    Ble.empty_at ((0 + Z.of_nat (length (bytes_of_string "Hi")) + 1) mod 64)
                 (Ble.ble_cbuf w') ∧
    Ble.space_of (Ble.ble_cbuf w') = Ble.CSIZE ∧
    take (S (length (bytes_of_string "Hi"))) (Ble.result_str w') =
      bytes_of_string "Hi" ++ [0] ∧
    Ble.leuart w' = Ble.leuart Ble.opened.
Proof.
  apply (push_pop_round_trip Ble.opened 0 (bytes_of_string "Hi") true 0).
  - unfold Ble.empty_at, Ble.CSIZE. simpl. repeat split; reflexivity || lia.
  - repeat constructor.
  - unfold Ble.CSIZE. simpl. lia.
  - reflexivity.
  - reflexivity.
  - reflexivity.
  - reflexivity.
  - lia.
Defined.

(** C6. A message of [CSIZE - 1] characters is accepted by an empty
    buffer, although with its header it is [CSIZE] bytes, one more than
    [CSIZE - 1]: the write index comes round to the read index, the buffer
    reports all its space free again, and the pop finds it empty. *)
Theorem push_accepts_a_message_of_the_whole_capacity :
  ∃ w' : Ble.world,
    Ble.ble_circ_push (replicate 63 65) Ble.opened = Ok tt w' ∧
    strlen (replicate 63 65) + Ble.PACKET_HEADER = Ble.CSIZE ∧
    Ble.space_of (Ble.ble_cbuf Ble.opened) = Ble.CSIZE ∧
    Ble.space_of (Ble.ble_cbuf w') = Ble.CSIZE ∧
    Ble.ble_circ_pop true w' = Ok true w'.
Proof.
  eexists. split; [vm_compute; reflexivity|]. repeat split.
Qed.

(** ** More on the power-mode block table *)

(** X1. A block followed by an unblock of the same level returns normally
    and leaves the table as it was, as long as the level had fewer than
    four blocks; in between the count of the level is one higher. *)
Theorem block_then_unblock_restores (t : list Z) (EM c : Z) :
  0 <= EM → t !! Z.to_nat EM = Some c → 0 <= c < 4 →
  (Sleep.sleep_block_mode EM ;; Sleep.sleep_unblock_mode EM) t = Ok tt t ∧
  ∃ t', Sleep.sleep_block_mode EM t = Ok tt t' ∧ t' !! Z.to_nat EM = Some (c + 1).
Proof.
  intros HEM Hc Hr.
  pose proof (lookup_lt_Some _ _ _ Hc) as Hlt.
  unfold mbind, M_bind, bind.
  rewrite (sleep_block_mode_run _ _ _ HEM Hc). cbn zeta.
  rewrite int32_small by lia.
  destruct (Z.ltb_spec (c + 1) 5); [|lia].
  split.
  - rewrite (sleep_unblock_mode_run _ _ (c + 1) HEM)
      by (apply list_lookup_insert_eq; exact Hlt).
    destruct (Z.ltb_spec 0 (c + 1)); [|lia]. cbn zeta.
    rewrite int32_small by lia.
    destruct (Z.leb_spec 0 (c + 1 - 1)); [|lia].
    rewrite list_insert_insert_eq.
    replace (c + 1 - 1) with c by lia.
    rewrite list_insert_id by exact Hc. reflexivity.
  - eexists. split; [reflexivity|]. apply list_lookup_insert_eq. exact Hlt.
Qed.

Lemma block_then_unblock_restores_witness :
  (Sleep.sleep_block_mode 3 ;; Sleep.sleep_unblock_mode 3) [0; 0; 0; 0; 0]
    = Ok tt [0; 0; 0; 0; 0] ∧
  ∃ t', Sleep.sleep_block_mode 3 [0; 0; 0; 0; 0] = Ok tt t' ∧
        t' !! Z.to_nat 3 = Some (0 + 1).
Proof.
  apply (block_then_unblock_restores [0; 0; 0; 0; 0] 3 0); [lia | reflexivity | lia].
Defined.

Lemma blocks_from (n : nat) (t : list Z) (EM c : Z) :
  0 <= EM → t !! Z.to_nat EM = Some c → 0 <= c <= 4 →
  Sleep.do_calls (replicate n (Sleep.Block EM)) t =
    if decide (c + Z.of_nat n <= 4) then Ok tt (<[Z.to_nat EM := c + Z.of_nat n]> t)
    else Fault (<[Z.to_nat EM := 5]> t).
Proof.
  revert t c. induction n as [|n IH]; intros t c HEM Hc Hr.
  - simpl. rewrite decide_True by lia. rewrite Z.add_0_r.
    rewrite list_insert_id by exact Hc. reflexivity.
  - pose proof (lookup_lt_Some _ _ _ Hc) as Hlt.
    cbn [replicate Sleep.do_calls Sleep.do_call]. unfold mbind, M_bind, bind.
    rewrite (sleep_block_mode_run _ _ _ HEM Hc). cbn zeta.
    rewrite int32_small by lia.
    destruct (Z.ltb_spec (c + 1) 5).
    + rewrite (IH _ (c + 1)); [| exact HEM | apply list_lookup_insert_eq; exact Hlt | lia].
      rewrite !list_insert_insert_eq.
      destruct (decide (c + 1 + Z.of_nat n <= 4)), (decide (c + Z.of_nat (S n) <= 4));
        try lia; [f_equal; f_equal; lia | reflexivity].
    + rewrite decide_False by lia. replace (c + 1) with 5 by lia. reflexivity.
Qed.

(** X2. From the table [sleep_open] leaves, [n] blocks of one level
    return normally and count [n] when [n] is at most four; the fifth block
    stops in the assertion of [sleep_block_mode], with the count at five,
    and no later call runs. *)
Theorem at_most_four_blocks_on_a_level (EM : Z) (n : nat) :
  Sleep.valid_level EM →
  Sleep.do_calls (replicate n (Sleep.Block EM)) [0; 0; 0; 0; 0] =
    if decide (n <= 4)%nat then Ok tt (<[Z.to_nat EM := Z.of_nat n]> [0; 0; 0; 0; 0])
    else Fault (<[Z.to_nat EM := 5]> [0; 0; 0; 0; 0]).
Proof.
  intros [H0 H1]. unfold Sleep.MAX_ENERGY_MODES in H1.
  rewrite (blocks_from n _ EM 0); [| exact H0 | | lia].
  - destruct (decide (0 + Z.of_nat n <= 4)), (decide (n <= 4)%nat); try lia; reflexivity.
  - assert (HEM : EM = 0 ∨ EM = 1 ∨ EM = 2 ∨ EM = 3 ∨ EM = 4) by lia.
    destruct HEM as [->|[->|[->|[->| ->]]]]; reflexivity.
Qed.

Lemma at_most_four_blocks_on_a_level_witness :
  Sleep.do_calls (replicate 5 (Sleep.Block 2)) [0; 0; 0; 0; 0] =
    if decide (5 <= 4)%nat
    then Ok tt (<[Z.to_nat 2 := Z.of_nat 5]> [0; 0; 0; 0; 0])
    else Fault (<[Z.to_nat 2 := 5]> [0; 0; 0; 0; 0]).
Proof.
  apply (at_most_four_blocks_on_a_level 2 5).
  unfold Sleep.valid_level, Sleep.MAX_ENERGY_MODES. lia.
Defined.

Lemma scan_from_past_the_end (n : nat) (i : Z) (t : list Z) :
  Sleep.MAX_ENERGY_MODES <= i → Sleep.scan_from n i t = Ok (Sleep.MAX_ENERGY_MODES - 1) t.
Proof.
  intros Hi. destruct n; [reflexivity|]. cbn [Sleep.scan_from].
  destruct (Z.ltb_spec i Sleep.MAX_ENERGY_MODES); [lia|reflexivity].
Qed.

(** X3. Whatever value the loop variable of [current_block_energy_mode]
    starts from, the function returns and leaves the table alone: its
    result is the first level at or after the start value with a block, and
    [MAX_ENERGY_MODES - 1] when there is none, so blocks below the start
    value are not seen. *)
Theorem current_block_energy_mode_from_any_start (i0 c0 c1 c2 c3 c4 : Z) :
  0 <= i0 →
  let t := [c0; c1; c2; c3; c4] in
  Sleep.current_block_energy_mode i0 t =
    Ok (match list_find (λ c, c ≠ 0) (drop (Z.to_nat i0) t) with
        | Some (k, _) => i0 + Z.of_nat k
        | None => Sleep.MAX_ENERGY_MODES - 1
        end) t.
Proof.
  intros Hi t. subst t.
  unfold Sleep.current_block_energy_mode.
  change (Z.to_nat Sleep.MAX_ENERGY_MODES) with 5%nat.
  destruct (Z.lt_ge_cases i0 5) as [Hlt|Hge].
  - assert (Hcase : i0 = 0 ∨ i0 = 1 ∨ i0 = 2 ∨ i0 = 3 ∨ i0 = 4) by lia.
    destruct Hcase as [->|[->|[->|[->| ->]]]];
      match goal with |- context [drop (Z.to_nat ?i) _] =>
        let n := eval vm_compute in (Z.to_nat i) in
        change (Z.to_nat i) with n; cbn [drop]
      end.
    + rewrite (scan_from_step _ 0 c0) by (done || (unfold Sleep.MAX_ENERGY_MODES; lia)).
      destruct (Z.eqb_spec c0 0) as [->|?]; [|found c0].
      rewrite (scan_from_step _ 1 c1) by (done || (unfold Sleep.MAX_ENERGY_MODES; lia)).
      destruct (Z.eqb_spec c1 0) as [->|?]; [|found c1].
      rewrite (scan_from_step _ 2 c2) by (done || (unfold Sleep.MAX_ENERGY_MODES; lia)).
      destruct (Z.eqb_spec c2 0) as [->|?]; [|found c2].
      rewrite (scan_from_step _ 3 c3) by (done || (unfold Sleep.MAX_ENERGY_MODES; lia)).
      destruct (Z.eqb_spec c3 0) as [->|?]; [|found c3].
      rewrite (scan_from_step _ 4 c4) by (done || (unfold Sleep.MAX_ENERGY_MODES; lia)).
      destruct (Z.eqb_spec c4 0) as [->|?]; [|found c4].
      reflexivity.
    + rewrite (scan_from_step _ 1 c1) by (done || (unfold Sleep.MAX_ENERGY_MODES; lia)).
      destruct (Z.eqb_spec c1 0) as [->|?]; [|found c1].
      rewrite (scan_from_step _ 2 c2) by (done || (unfold Sleep.MAX_ENERGY_MODES; lia)).
      destruct (Z.eqb_spec c2 0) as [->|?]; [|found c2].
      rewrite (scan_from_step _ 3 c3) by (done || (unfold Sleep.MAX_ENERGY_MODES; lia)).
      destruct (Z.eqb_spec c3 0) as [->|?]; [|found c3].
      rewrite (scan_from_step _ 4 c4) by (done || (unfold Sleep.MAX_ENERGY_MODES; lia)).
      destruct (Z.eqb_spec c4 0) as [->|?]; [|found c4].
      reflexivity.
    + rewrite (scan_from_step _ 2 c2) by (done || (unfold Sleep.MAX_ENERGY_MODES; lia)).
      destruct (Z.eqb_spec c2 0) as [->|?]; [|found c2].
      rewrite (scan_from_step _ 3 c3) by (done || (unfold Sleep.MAX_ENERGY_MODES; lia)).
      destruct (Z.eqb_spec c3 0) as [->|?]; [|found c3].
      rewrite (scan_from_step _ 4 c4) by (done || (unfold Sleep.MAX_ENERGY_MODES; lia)).
      destruct (Z.eqb_spec c4 0) as [->|?]; [|found c4].
      reflexivity.
    + rewrite (scan_from_step _ 3 c3) by (done || (unfold Sleep.MAX_ENERGY_MODES; lia)).
      destruct (Z.eqb_spec c3 0) as [->|?]; [|found c3].
      rewrite (scan_from_step _ 4 c4) by (done || (unfold Sleep.MAX_ENERGY_MODES; lia)).
      destruct (Z.eqb_spec c4 0) as [->|?]; [|found c4].
      reflexivity.
    + rewrite (scan_from_step _ 4 c4) by (done || (unfold Sleep.MAX_ENERGY_MODES; lia)).
      destruct (Z.eqb_spec c4 0) as [->|?]; [|found c4].
      reflexivity.
  - rewrite scan_from_past_the_end by (unfold Sleep.MAX_ENERGY_MODES; lia).
    rewrite drop_ge by (simpl; lia). reflexivity.
Qed.

Lemma current_block_energy_mode_from_any_start_witness :
  Sleep.current_block_energy_mode 2 [1; 0; 0; 1; 0] =
    Ok (match list_find (λ c, c ≠ 0) (drop (Z.to_nat 2) [1; 0; 0; 1; 0]) with
        | Some (k, _) => 2 + Z.of_nat k
        | None => Sleep.MAX_ENERGY_MODES - 1
        end) [1; 0; 0; 1; 0].
Proof.
  apply (current_block_energy_mode_from_any_start 2 1 0 0 1 0). lia.
Defined.

(** ** The event scheduler *)

Lemma uint32_testbit (x n : Z) :
  0 <= n → Z.testbit (uint32 x) n = (n <? 32) && Z.testbit x n.
Proof.
  intros Hn. unfold uint32.
  destruct (Z.ltb_spec n 32).
  - rewrite Z.mod_pow2_bits_low by lia. reflexivity.
  - rewrite Z.mod_pow2_bits_high by lia. reflexivity.
Qed.

Lemma uint32_high_bits (m n : Z) : 0 <= m < 2 ^ 32 → 32 <= n → Z.testbit m n = false.
Proof.
  intros Hm Hn. rewrite <- (Z.mod_small m (2 ^ 32)) by exact Hm.
  apply Z.mod_pow2_bits_high. lia.
Qed.

Lemma land_uint32_lnot (m e : Z) :
  0 <= m < 2 ^ 32 → Z.land m (uint32 (Z.lnot e)) = Z.ldiff m e.
Proof.
  intros Hm. apply Z.bits_inj'. intros n Hn.
  rewrite Z.land_spec, Z.ldiff_spec, uint32_testbit, Z.lnot_spec by exact Hn.
  destruct (Z.ltb_spec n 32); [reflexivity|].
  rewrite (uint32_high_bits m n) by assumption. reflexivity.
Qed.

Lemma lor_range (m e : Z) : 0 <= m < 2 ^ 32 → 0 <= e < 2 ^ 32 → 0 <= Z.lor m e < 2 ^ 32.
Proof.
  intros Hm He.
  assert (Heq : Z.lor m e = uint32 (Z.lor m e)).
  { apply Z.bits_inj'. intros n Hn. rewrite uint32_testbit by exact Hn.
    destruct (Z.ltb_spec n 32); [reflexivity|].
    rewrite Z.lor_spec, (uint32_high_bits m n), (uint32_high_bits e n) by assumption.
    reflexivity. }
  rewrite Heq. unfold uint32. apply Z.mod_pos_bound. lia.
Qed.

Section SchedulerFacts.

Import Scheduler.

(** The mask after a run of scheduler calls. *)
Lemma add_scheduled_event_run (s : t) (e : Z) :
  add_scheduled_event e s = Ok tt (mk (Z.lor (event_scheduled s) e) (posted s ++ [e])).
Proof. reflexivity. Qed.

Lemma remove_scheduled_event_run (s : t) (e : Z) :
  0 <= event_scheduled s < 2 ^ 32 →
  remove_scheduled_event e s = Ok tt (mk (Z.ldiff (event_scheduled s) e) (posted s)).
Proof.
  intros Hm. unfold remove_scheduled_event, modify.
  rewrite land_uint32_lnot by exact Hm. reflexivity.
Qed.

End SchedulerFacts.

(** X4. Posting an event that is already pending leaves the mask as one
    posting leaves it: the mask is the old one or-ed with the event, and
    [get_scheduled_events] returns it without changing it. *)
Theorem post_twice_is_post_once (s : Scheduler.t) (e : Z) :
  ∃ s1 s2,
    Scheduler.add_scheduled_event e s = Ok tt s1 ∧
    (Scheduler.add_scheduled_event e ;; Scheduler.add_scheduled_event e) s = Ok tt s2 ∧
    Scheduler.event_scheduled s2 = Scheduler.event_scheduled s1 ∧
    Scheduler.get_scheduled_events s2 = Ok (Z.lor (Scheduler.event_scheduled s) e) s2.
Proof.
  eexists. eexists. split; [reflexivity|]. split; [reflexivity|].
  cbn. rewrite <- Z.lor_assoc, Z.lor_diag. split; reflexivity.
Qed.

(** X5. Posting an event and clearing it again leaves none of its bits
    pending and leaves every event that shares no bit with it as it was;
    when the event was not pending before, the mask is back at its old
    value. *)
Theorem clear_takes_out_only_its_event (s : Scheduler.t) (e e' : Z) :
  0 <= Scheduler.event_scheduled s < 2 ^ 32 → 0 <= e < 2 ^ 32 →
  Z.land e e' = 0 →
  ∃ s', (Scheduler.add_scheduled_event e ;; Scheduler.remove_scheduled_event e) s
          = Ok tt s' ∧
        Z.land (Scheduler.event_scheduled s') e = 0 ∧
        Z.land (Scheduler.event_scheduled s') e' = Z.land (Scheduler.event_scheduled s) e' ∧
        (Z.land (Scheduler.event_scheduled s) e = 0 →
         Scheduler.event_scheduled s' = Scheduler.event_scheduled s).
Proof.
  intros Hm He Hdis.
  unfold mbind, M_bind, bind. rewrite add_scheduled_event_run.
  rewrite remove_scheduled_event_run by (apply lor_range; assumption).
  eexists. split; [reflexivity|]. cbn [Scheduler.event_scheduled].
  assert (Hbit : ∀ n, 0 <= n → Z.testbit e n && Z.testbit e' n = false).
  { intros n Hn. rewrite <- Z.land_spec, Hdis. apply Z.bits_0. }
  repeat split.
  - apply Z.bits_inj'. intros n Hn.
    rewrite Z.land_spec, Z.ldiff_spec, Z.lor_spec, Z.bits_0.
    destruct (Z.testbit (Scheduler.event_scheduled s) n), (Z.testbit e n); reflexivity.
  - apply Z.bits_inj'. intros n Hn. specialize (Hbit n Hn).
    rewrite !Z.land_spec, Z.ldiff_spec, Z.lor_spec.
    destruct (Z.testbit (Scheduler.event_scheduled s) n), (Z.testbit e n),
      (Z.testbit e' n); try reflexivity; discriminate.
  - intros Hfree. apply Z.bits_inj'. intros n Hn.
    assert (Hb : Z.testbit (Scheduler.event_scheduled s) n && Z.testbit e n = false).
    { rewrite <- Z.land_spec, Hfree. apply Z.bits_0. }
    rewrite Z.ldiff_spec, Z.lor_spec.
    destruct (Z.testbit (Scheduler.event_scheduled s) n), (Z.testbit e n);
      try reflexivity; discriminate.
Qed.

Lemma clear_takes_out_only_its_event_witness :
  ∃ s', (Scheduler.add_scheduled_event 0x20 ;; Scheduler.remove_scheduled_event 0x20)
          (Scheduler.mk 0x48 []) = Ok tt s' ∧
        Z.land (Scheduler.event_scheduled s') 0x20 = 0 ∧
        Z.land (Scheduler.event_scheduled s') 0x40 =
          Z.land (Scheduler.event_scheduled (Scheduler.mk 0x48 [])) 0x40 ∧
        (Z.land (Scheduler.event_scheduled (Scheduler.mk 0x48 [])) 0x20 = 0 →
         Scheduler.event_scheduled s' = Scheduler.event_scheduled (Scheduler.mk 0x48 [])).
Proof.
  apply (clear_takes_out_only_its_event (Scheduler.mk 0x48 []) 0x20 0x40);
    [simpl; lia | lia | reflexivity].
Defined.

(** X6. Clearing an event none of whose bits is pending changes nothing
    of the scheduler. *)
Theorem clear_of_unset_event_is_noop (s : Scheduler.t) (e : Z) :
  0 <= Scheduler.event_scheduled s < 2 ^ 32 →
  Z.land (Scheduler.event_scheduled s) e = 0 →
  Scheduler.remove_scheduled_event e s = Ok tt s.
Proof.
  intros Hm Hfree. rewrite remove_scheduled_event_run by exact Hm.
  destruct s as [m ps]. cbn in *. f_equal. f_equal.
  apply Z.bits_inj'. intros n Hn.
  assert (Hb : Z.testbit m n && Z.testbit e n = false).
  { rewrite <- Z.land_spec, Hfree. apply Z.bits_0. }
  rewrite Z.ldiff_spec.
  destruct (Z.testbit m n), (Z.testbit e n); try reflexivity; discriminate.
Qed.

Lemma clear_of_unset_event_is_noop_witness :
  Scheduler.remove_scheduled_event 0x40 (Scheduler.mk 0x8 [0x8])
    = Ok tt (Scheduler.mk 0x8 [0x8]).
Proof.
  apply (clear_of_unset_event_is_noop (Scheduler.mk 0x8 [0x8]) 0x40);
    [simpl; lia | reflexivity].
Defined.

(** ** More on the bus transaction engine *)

Section I2CRuns.

Import I2C.

Variables (slave_add cmd read_data cb ev st : Z) (rd : bool) (r1 : I2C_TypeDef).

(** The world in the middle of a transaction on I2C0, nothing pending. *)
Let W (s : Z) (rx : Z) (wr : list reg_write) (ram sl : list Z) (sch : Scheduler.t) : world :=
  mkWorld (mkSM s slave_add cmd read_data rd I2C0 cb) ev
          (mkRegs st enabled 0 rx wr) r1 ram sl sch.

Lemma raise_ack_handshake (rx : Z) (wr : list reg_write) (ram sl : list Z) (sch : Scheduler.t) :
  raise Ack 0 (W handshake rx wr ram sl sch)
  = Ok tt (W measure_cmd rx (wr ++ [TXDATA cmd]) ram sl sch).
Proof. reflexivity. Qed.

Lemma raise_ack_measure_cmd (rx : Z) (wr : list reg_write) (ram sl : list Z) (sch : Scheduler.t) :
  raise Ack 0 (W measure_cmd rx wr ram sl sch)
  = Ok tt (W confirm_cmd rx
             ((wr ++ [CMD Reg.I2C_CMD_START]) ++ [TXDATA (address_byte slave_add true)])
             ram sl sch).
Proof. reflexivity. Qed.

Lemma raise_ack_confirm_cmd (rx : Z) (wr : list reg_write) (ram sl : list Z) (sch : Scheduler.t) :
  raise Ack 0 (W confirm_cmd rx wr ram sl sch) = Ok tt (W RX_MS_byte rx wr ram sl sch).
Proof. reflexivity. Qed.

Lemma raise_nack_handshake (rx : Z) (wr : list reg_write) (ram sl : list Z) (sch : Scheduler.t) :
  raise Nack 0 (W handshake rx wr ram sl sch)
  = Ok tt (W handshake rx
             ((wr ++ [CMD Reg.I2C_CMD_START]) ++ [TXDATA (address_byte slave_add false)])
             ram sl sch).
Proof. reflexivity. Qed.

Lemma raise_nack_confirm_cmd (rx : Z) (wr : list reg_write) (ram sl : list Z) (sch : Scheduler.t) :
  raise Nack 0 (W confirm_cmd rx wr ram sl sch)
  = Ok tt (W confirm_cmd rx
             ((wr ++ [CMD Reg.I2C_CMD_START]) ++ [TXDATA (address_byte slave_add true)])
             ram sl sch).
Proof. reflexivity. Qed.

Lemma raise_is_isr (rx : Z) (wr : list reg_write) (ram sl : list Z) (sch : Scheduler.t) (c : condition) (s rx' : Z) :
  raise c rx' (W s rx wr ram sl sch)
  = isr c (W s (match c with DataAvailable => rx' | _ => rx end) wr ram sl sch).
Proof.
  destruct c;
    unfold raise, I2C0_IRQHandler, isr, W, modify, get, set_IF, mbind, M_bind, bind, ret;
    cbn -[i2c_ack i2c_nack i2c_rxdatav i2c_mstop];
    repeat match goal with
    | |- context [Reg.any_bit ?a ?b] =>
        let v := eval vm_compute in (Reg.any_bit a b) in
        change (Reg.any_bit a b) with v
    | |- context [Reg.clear_bits ?a ?b] =>
        let v := eval vm_compute in (Reg.clear_bits a b) in
        change (Reg.clear_bits a b) with v
    end;
    cbv beta iota;
    first [ reflexivity
          | match goal with |- context [match ?m with _ => _ end] =>
              destruct m as [[] ?| | |] end; reflexivity ].
Qed.

Lemma i2c_rxdatav_high (rx : Z) (wr : list reg_write) (ram sl : list Z) (sch : Scheduler.t) (old : Z) :
  0 <= read_data → ram !! Z.to_nat read_data = Some old →
  i2c_rxdatav (W RX_MS_byte rx wr ram sl sch)
  = Ok tt (W RX_LS_byte rx (wr ++ [CMD Reg.I2C_CMD_ACK])
             (<[Z.to_nat read_data := Z.lor old (uint32 (Z.shiftl rx 8))]> ram)
             sl sch).
Proof.
  intros Hd Hold. pose proof (lookup_lt_Some _ _ _ Hold) as Hlt.
  unfold W, i2c_rxdatav, load_word, store_word, get, mbind, M_bind, bind, of_option.
  cbn [i2c_sm state data I2C.ram Z.eqb Pos.eqb handshake measure_cmd confirm_cmd
       RX_MS_byte RX_LS_byte].
  rewrite (aload_lookup _ _ _ Hd Hold). unfold ret. cbn [I2C.ram].
  rewrite astore_insert by lia.
  reflexivity.
Qed.

Lemma i2c_rxdatav_low (rx : Z) (wr : list reg_write) (ram sl : list Z) (sch : Scheduler.t) (old : Z) :
  0 <= read_data → ram !! Z.to_nat read_data = Some old →
  i2c_rxdatav (W RX_LS_byte rx wr ram sl sch)
  = Ok tt (W end_comm rx
             ((wr ++ [CMD Reg.I2C_CMD_NACK]) ++ [CMD Reg.I2C_CMD_STOP])
             (<[Z.to_nat read_data := Z.lor old rx]> ram) sl sch).
Proof.
  intros Hd Hold. pose proof (lookup_lt_Some _ _ _ Hold) as Hlt.
  unfold W, i2c_rxdatav, load_word, store_word, get, mbind, M_bind, bind, of_option.
  cbn [i2c_sm state data I2C.ram Z.eqb Pos.eqb handshake measure_cmd confirm_cmd
       RX_MS_byte RX_LS_byte].
  rewrite (aload_lookup _ _ _ Hd Hold). unfold ret. cbn [I2C.ram].
  rewrite astore_insert by lia.
  reflexivity.
Qed.

Lemma i2c_mstop_done (rx : Z) (wr : list reg_write) (ram sl : list Z) (sch : Scheduler.t) (c : Z) :
  sl !! Z.to_nat I2C_EM_BLOCK = Some c → 0 < c < 2 ^ 31 →
  i2c_mstop (W end_comm rx wr ram sl sch)
  = Ok tt (W handshake rx wr ram (<[Z.to_nat I2C_EM_BLOCK := c - 1]> sl)
             (Scheduler.mk (Z.lor (Scheduler.event_scheduled sch) ev)
                           (Scheduler.posted sch ++ [ev]))).
Proof.
  intros Hc Hr.
  unfold W, i2c_mstop, get, mbind, M_bind, bind.
  cbn [i2c_sm state Z.eqb Pos.eqb end_comm handshake measure_cmd confirm_cmd
       RX_MS_byte RX_LS_byte].
  unfold sleep_unblock_mode, zoom. cbn [sleep].
  rewrite (sleep_unblock_mode_run _ _ c) by (done || exact Hc).
  destruct (Z.ltb_spec 0 c); [|lia]. cbn zeta.
  rewrite int32_small by lia.
  destruct (Z.leb_spec 0 (c - 1)); [|lia].
  reflexivity.
Qed.

(** The address a retry sends again. *)
Lemma nacks_handshake (n : nat) (rx : Z) (wr : list reg_write) (ram sl : list Z) (sch : Scheduler.t) :
  times n (raise Nack 0) (W handshake rx wr ram sl sch)
  = Ok tt (W handshake rx
             (wr ++ concat (replicate n [CMD Reg.I2C_CMD_START;
                                         TXDATA (address_byte slave_add false)]))
             ram sl sch).
Proof.
  revert wr. induction n as [|n IH]; intros wr.
  - simpl. rewrite app_nil_r. reflexivity.
  - cbn [times]. unfold mbind, M_bind, bind. rewrite raise_nack_handshake.
    rewrite IH. cbn [replicate concat]. rewrite <- !app_assoc. reflexivity.
Qed.

Lemma nacks_confirm_cmd (n : nat) (rx : Z) (wr : list reg_write) (ram sl : list Z) (sch : Scheduler.t) :
  times n (raise Nack 0) (W confirm_cmd rx wr ram sl sch)
  = Ok tt (W confirm_cmd rx
             (wr ++ concat (replicate n [CMD Reg.I2C_CMD_START;
                                         TXDATA (address_byte slave_add true)]))
             ram sl sch).
Proof.
  revert wr. induction n as [|n IH]; intros wr.
  - simpl. rewrite app_nil_r. reflexivity.
  - cbn [times]. unfold mbind, M_bind, bind. rewrite raise_nack_confirm_cmd.
    rewrite IH. cbn [replicate concat]. rewrite <- !app_assoc. reflexivity.
Qed.

End I2CRuns.

Lemma i2c_start_run (sm0 : I2C.I2C_STATE_MACHINE) (ev st rx : Z)
    (wr : list I2C.reg_write) (r1 : I2C.I2C_TypeDef) (ram sl : list Z)
    (sch : Scheduler.t) (slave_add cmd read_data cb c : Z) :
  Z.land st Reg._I2C_STATE_MASK = Reg.I2C_STATE_STATE_IDLE →
  sl !! Z.to_nat I2C.I2C_EM_BLOCK = Some c → 0 <= c < 4 →
  I2C.i2c_start slave_add cmd read_data I2C.I2C0 cb
    (I2C.mkWorld sm0 ev (I2C.mkRegs st I2C.enabled 0 rx wr) r1 ram sl sch)
  = Ok tt (I2C.mkWorld
             (I2C.mkSM I2C.handshake slave_add cmd read_data false I2C.I2C0 cb) ev
             (I2C.mkRegs st I2C.enabled 0 rx
                ((wr ++ [I2C.CMD Reg.I2C_CMD_START]) ++
                 [I2C.TXDATA (I2C.address_byte slave_add false)]))
             r1 ram (<[Z.to_nat I2C.I2C_EM_BLOCK := c + 1]> sl) sch).
Proof.
  intros Hidle Hc Hr.
  unfold I2C.i2c_start, get, mbind, M_bind, bind, EFM_ASSERT.
  cbn [I2C.regs I2C.I2C0_regs I2C.STATE]. rewrite Hidle.
  cbn [Z.eqb Reg.I2C_STATE_STATE_IDLE].
  unfold I2C.sleep_block_mode, zoom. cbn [I2C.sleep].
  rewrite (sleep_block_mode_run _ _ c) by (done || exact Hc).
  cbn zeta. rewrite int32_small by lia.
  destruct (Z.ltb_spec (c + 1) 5); [|lia].
  reflexivity.
Qed.

(** X7. A reading in which the sensor refuses the address [n1] times and
    the repeated start [n2] times still completes: every refusal sends the
    start and the address again and nothing else, the two bytes are or-ed
    into the destination word, the event [i2c_open] was given is posted
    once and is pending in the event mask, the block on the I2C level is
    released, and the driver is ready for the next reading. *)
Theorem reading_with_retries_completes (w : I2C.world)
    (slave_add cmd read_data cb : Z) (n1 n2 : nat) (high low old c : Z) :
  I2C.ready w →
  0 <= read_data → I2C.ram w !! Z.to_nat read_data = Some old →
  I2C.sleep w !! Z.to_nat I2C.I2C_EM_BLOCK = Some c → 0 <= c < 4 →
  ∃ w' : I2C.world,
    I2C.reading_with_retries slave_add cmd read_data cb n1 n2 high low w = Ok tt w' ∧
    I2C.ram w' =
      <[Z.to_nat read_data := Z.lor (Z.lor old (uint32 (Z.shiftl high 8))) low]>
        (I2C.ram w) ∧
    I2C.sleep w' = I2C.sleep w ∧
    Scheduler.posted (I2C.sched w') = Scheduler.posted (I2C.sched w) ++ [I2C.event w] ∧
    Scheduler.event_scheduled (I2C.sched w') =
      Z.lor (Scheduler.event_scheduled (I2C.sched w)) (I2C.event w) ∧
    I2C.state (I2C.i2c_sm w') = I2C.handshake ∧
    I2C.written (I2C.I2C0_regs w') =
      I2C.written (I2C.I2C0_regs w) ++
      [I2C.CMD Reg.I2C_CMD_START; I2C.TXDATA (I2C.address_byte slave_add false)] ++
      concat (replicate n1 [I2C.CMD Reg.I2C_CMD_START;
                            I2C.TXDATA (I2C.address_byte slave_add false)]) ++
      [I2C.TXDATA cmd;
       I2C.CMD Reg.I2C_CMD_START; I2C.TXDATA (I2C.address_byte slave_add true)] ++
      concat (replicate n2 [I2C.CMD Reg.I2C_CMD_START;
                            I2C.TXDATA (I2C.address_byte slave_add true)]) ++
      [I2C.CMD Reg.I2C_CMD_ACK; I2C.CMD Reg.I2C_CMD_NACK; I2C.CMD Reg.I2C_CMD_STOP] ∧
    I2C.ready w'.
Proof.
  intros (Hien & Hif & Hidle) Hd Hold Hc Hr.
  destruct w as [sm0 ev [st ien if_ rx wr] r1 ram sl sch].
  cbn in Hien, Hif, Hidle, Hold, Hc. subst ien if_.
  pose proof (lookup_lt_Some _ _ _ Hold) as Hlt.
  pose proof (lookup_lt_Some _ _ _ Hc) as Hlts.
  unfold I2C.reading_with_retries, mbind, M_bind, bind.
  rewrite (i2c_start_run _ _ _ _ _ _ _ _ _ _ _ _ _ c Hidle Hc Hr).
  rewrite nacks_handshake, raise_ack_handshake, raise_ack_measure_cmd.
  rewrite nacks_confirm_cmd, raise_ack_confirm_cmd.
  rewrite raise_is_isr.
  rewrite i2c_rxdatav_high with (old := old) by assumption.
  rewrite raise_is_isr.
  rewrite i2c_rxdatav_low with (old := Z.lor old (uint32 (Z.shiftl high 8)))
    by (first [assumption | apply list_lookup_insert_eq; exact Hlt]).
  rewrite raise_is_isr.
  rewrite i2c_mstop_done with (c := c + 1)
    by (first [apply list_lookup_insert_eq; exact Hlts | lia]).
  eexists. split; [reflexivity|].
  cbn [I2C.ram I2C.sleep I2C.sched I2C.event I2C.i2c_sm I2C.state I2C.I2C0_regs
       I2C.written Scheduler.posted].
  rewrite !list_insert_insert_eq.
  replace (c + 1 - 1) with c by lia. rewrite (list_insert_id sl) by exact Hc.
  repeat split.
  - rewrite <- !app_assoc. reflexivity.
  - exact Hidle.
Qed.

Lemma reading_with_retries_completes_witness :
  let w := I2C.mkWorld (I2C.mkSM 0 0 0 0 false I2C.I2C0 0) 8
             (I2C.mkRegs 0 I2C.enabled 0 0 []) (I2C.mkRegs 0 0 0 0 [])
             [0] [0; 0; 0; 0; 0] (Scheduler.mk 0 []) in
  ∃ w' : I2C.world,
    I2C.reading_with_retries 0x40 0xF3 0 8 2 1 0x12 0x34 w = Ok tt w' ∧
    I2C.ram w' =
      <[Z.to_nat 0 := Z.lor (Z.lor 0 (uint32 (Z.shiftl 0x12 8))) 0x34]> (I2C.ram w) ∧
    I2C.sleep w' = I2C.sleep w ∧
    Scheduler.posted (I2C.sched w') = Scheduler.posted (I2C.sched w) ++ [I2C.event w] ∧
    Scheduler.event_scheduled (I2C.sched w') =
      Z.lor (Scheduler.event_scheduled (I2C.sched w)) (I2C.event w) ∧
    I2C.state (I2C.i2c_sm w') = I2C.handshake ∧
    I2C.written (I2C.I2C0_regs w') =
      I2C.written (I2C.I2C0_regs w) ++
      [I2C.CMD Reg.I2C_CMD_START; I2C.TXDATA (I2C.address_byte 0x40 false)] ++
      concat (replicate 2 [I2C.CMD Reg.I2C_CMD_START;
                           I2C.TXDATA (I2C.address_byte 0x40 false)]) ++
      [I2C.TXDATA 0xF3;
       I2C.CMD Reg.I2C_CMD_START; I2C.TXDATA (I2C.address_byte 0x40 true)] ++
      concat (replicate 1 [I2C.CMD Reg.I2C_CMD_START;
                           I2C.TXDATA (I2C.address_byte 0x40 true)]) ++
      [I2C.CMD Reg.I2C_CMD_ACK; I2C.CMD Reg.I2C_CMD_NACK; I2C.CMD Reg.I2C_CMD_STOP] ∧
    I2C.ready w'.
Proof.
  intros w.
  apply (reading_with_retries_completes w 0x40 0xF3 0 8 2 1 0x12 0x34 0 0);
    [repeat split | lia | reflexivity | reflexivity | lia].
Defined.


Lemma clear_no_bits (x : Z) : 0 <= x < 2 ^ 32 → Reg.clear_bits x 0 = x.
Proof.
  intros Hx. unfold Reg.clear_bits. rewrite land_uint32_lnot by exact Hx.
  apply Z.ldiff_0_r.
Qed.

(** X8. A bus condition whose interrupt is not enabled, raised while no
    enabled interrupt is pending, is latched in the flag register and
    nothing else happens: the state machine, the destination word, the
    block counts, the scheduler and the register writes are as before. *)
Theorem disabled_condition_is_not_serviced (w : I2C.world) (c : I2C.condition) (rx : Z) :
  0 <= I2C.IF_ (I2C.I2C0_regs w) < 2 ^ 32 →
  Z.land (I2C.IF_ (I2C.I2C0_regs w)) (I2C.IEN (I2C.I2C0_regs w)) = 0 →
  Z.land (I2C.flag c) (I2C.IEN (I2C.I2C0_regs w)) = 0 →
  ∃ w' : I2C.world,
    I2C.raise c rx w = Ok tt w' ∧
    I2C.i2c_sm w' = I2C.i2c_sm w ∧ I2C.ram w' = I2C.ram w ∧
    I2C.sleep w' = I2C.sleep w ∧ I2C.sched w' = I2C.sched w ∧
    I2C.written (I2C.I2C0_regs w') = I2C.written (I2C.I2C0_regs w) ∧
    I2C.IF_ (I2C.I2C0_regs w') = Reg.set_bits (I2C.IF_ (I2C.I2C0_regs w)) (I2C.flag c).
Proof.
  intros Hif Hpend Hdis.
  destruct w as [sm0 ev [st ien if_ rx0 wr] r1 ram sl sch].
  cbn [I2C.I2C0_regs I2C.IF_ I2C.IEN] in *.
  assert (Hflag : 0 <= I2C.flag c < 2 ^ 32) by (destruct c; vm_compute; split; congruence).
  assert (Hint : Z.land (Reg.set_bits if_ (I2C.flag c)) ien = 0).
  { unfold Reg.set_bits. rewrite Z.land_lor_distr_l, Hpend, Hdis. reflexivity. }
  unfold I2C.raise, I2C.I2C0_IRQHandler, modify, get, I2C.set_IF, mbind, M_bind, bind, ret.
  cbn [I2C.with_regs I2C.regs I2C.I2C0_regs I2C.IF_ I2C.IEN I2C.STATE I2C.RXDATA
       I2C.written I2C.i2c_sm I2C.event I2C.I2C1_regs I2C.ram I2C.sleep I2C.sched
       modify].
  rewrite Hint. cbn [Reg.any_bit Z.land Z.eqb negb].
  rewrite clear_no_bits by (apply lor_range; assumption).
  eexists. split; [reflexivity|]. repeat split.
Qed.

Lemma disabled_condition_is_not_serviced_witness :
  ∃ w' : I2C.world,
    I2C.raise I2C.Nack 0 I2C.power_on = Ok tt w' ∧
    I2C.i2c_sm w' = I2C.i2c_sm I2C.power_on ∧ I2C.ram w' = I2C.ram I2C.power_on ∧
    I2C.sleep w' = I2C.sleep I2C.power_on ∧ I2C.sched w' = I2C.sched I2C.power_on ∧
    I2C.written (I2C.I2C0_regs w') = I2C.written (I2C.I2C0_regs I2C.power_on) ∧
    I2C.IF_ (I2C.I2C0_regs w') =
      Reg.set_bits (I2C.IF_ (I2C.I2C0_regs I2C.power_on)) (I2C.flag I2C.Nack).
Proof.
  apply (disabled_condition_is_not_serviced I2C.power_on I2C.Nack 0);
    [simpl; lia | reflexivity | reflexivity].
Defined.

(** ** More on the serial framing engine *)

Ltac is_numeral v :=
  lazymatch v with
  | Z0 => idtac
  | Zpos ?p => is_ground_term p
  | Zneg ?p => is_ground_term p
  end
with is_ground_term p :=
  lazymatch p with
  | xH => idtac
  | xO ?q => is_ground_term q
  | xI ?q => is_ground_term q
  end.

Ltac eval_bits :=
  repeat match goal with
  | |- context [Reg.any_bit ?a ?b] =>
      is_numeral a; is_numeral b;
      let v := eval vm_compute in (Reg.any_bit a b) in
      change (Reg.any_bit a b) with v
  | |- context [Reg.clear_bits ?a ?b] =>
      is_numeral a; is_numeral b;
      let v := eval vm_compute in (Reg.clear_bits a b) in
      change (Reg.clear_bits a b) with v
  | |- context [Reg.set_bits ?a ?b] =>
      is_numeral a; is_numeral b;
      let v := eval vm_compute in (Reg.set_bits a b) in
      change (Reg.set_bits a b) with v
  | |- context [Z.land ?a ?b] =>
      is_numeral a; is_numeral b;
      let v := eval vm_compute in (Z.land a b) in
      change (Z.land a b) with v
  end.

Lemma bind_ret_tt {S} (m : M S unit) (w : S) :
  match m w with
  | Ok _ s' => Ok tt s'
  | Fault s' => Fault s'
  | Hang s' => Hang s'
  | Undefined => Undefined
  end = m w.
Proof. destruct (m w) as [[] ?| | |]; reflexivity. Qed.

Section LeuartTx.

Import Leuart.

Variables (rxsm : RX_LEUART_STATE_MACHINE) (rxcb txcb rxd sf sg : Z) (rb su : bool).

(** The driver while a string goes out: [ien] is the enable register, the
    TXBL flag is up. *)
Let T (s : Z) (b : bool) (str : list Z) (len k cbk ien : Z) (txd sl : list Z)
    (sch : Scheduler.t) : world :=
  mkWorld (mkTX s b str len k cbk) rxsm rxcb txcb
          (mkRegs ien Reg.LEUART_IF_TXBL rxd sf sg rb su txd) sl sch.

Ltac run_handler :=
  cbv -[leuart_txbl leuart_txc leuart_startf leuart_rxdatav leuart_sigf];
  repeat match goal with
  | |- context [match ?m ?w with Ok _ _ => _ | Fault _ => _ | Hang _ => _ | Undefined => _ end] =>
      destruct (m w) as [[] ?| | |]
  end; try reflexivity.

Lemma interrupt_txbl (s : Z) (b : bool) (str : list Z) (len k cbk : Z)
    (txd sl : list Z) (sch : Scheduler.t) :
  interrupt Reg.LEUART_IF_TXBL (T s b str len k cbk 0x202 txd sl sch)
  = leuart_txbl (T s b str len k cbk 0x202 txd sl sch).
Proof. unfold T. run_handler. Qed.

Lemma leuart_txbl_sends (str : list Z) (len k cbk ch ien : Z) (txd sl : list Z)
    (sch : Scheduler.t) :
  0 <= k → str !! Z.to_nat k = Some ch →
  leuart_txbl (T TXdata true str len k cbk ien txd sl sch)
  = if uint32 (k + 1) =? len
    then Ok tt (T stop true str len (uint32 (k + 1)) cbk
                  (Reg.set_bits (Reg.clear_bits ien Reg.LEUART_IEN_TXBL) Reg.LEUART_IEN_TXC)
                  (txd ++ [uint8 ch]) sl sch)
    else Ok tt (T TXdata true str len (uint32 (k + 1)) cbk ien (txd ++ [uint8 ch]) sl sch).
Proof.
  intros Hk Hch.
  unfold T, leuart_txbl, get, mbind, M_bind, bind, of_option.
  cbn [tx_leuart_sm tx_state sent_bytes tx_str tx_str_len Z.eqb Pos.eqb start TXdata stop].
  rewrite (aload_lookup _ _ _ Hk Hch). unfold ret.
  unfold leuart_app_transmit_byte, get, mbind, M_bind, bind.
  cbn [LEUART0 IF_]. eval_bits. cbv beta iota.
  unfold write_TXDATA, set_sent_bytes, modify.
  destruct (uint32 (k + 1) =? len); reflexivity.
Qed.

Lemma interrupt_txc (str : list Z) (len k cbk : Z) (txd sl : list Z)
    (sch : Scheduler.t) :
  interrupt Reg.LEUART_IF_TXC (T stop true str len k cbk 0x201 txd sl sch)
  = leuart_txc (T stop true str len k cbk 0x201 txd sl sch).
Proof. unfold T. run_handler. Qed.

Lemma leuart_txc_done (str : list Z) (len k cbk : Z) (txd sl : list Z)
    (sch : Scheduler.t) (c : Z) :
  sl !! Z.to_nat LEUART_TX_EM = Some c → 0 < c < 2 ^ 31 →
  leuart_txc (T stop true str len k cbk 0x201 txd sl sch)
  = Ok tt (T stop false str len k cbk 0x200 txd
             (<[Z.to_nat LEUART_TX_EM := c - 1]> sl)
             (Scheduler.mk (Z.lor (Scheduler.event_scheduled sch) cbk)
                           (Scheduler.posted sch ++ [cbk]))).
Proof.
  intros Hc Hr.
  unfold T, leuart_txc, get, mbind, M_bind, bind.
  cbn [tx_leuart_sm tx_state Z.eqb Pos.eqb start TXdata stop].
  unfold IEN_clear, set_IEN, set_busy, set_tx_state, add_scheduled_event,
    sleep_unblock_mode, zoom, get, modify, mbind, M_bind, bind.
  cbn [Scheduler.add_scheduled_event modify sleep with_sleep with_sched with_tx
       with_regs].
  rewrite (sleep_unblock_mode_run _ _ c) by (done || exact Hc).
  destruct (Z.ltb_spec 0 c); [|lia]. cbn zeta.
  rewrite int32_small by lia.
  destruct (Z.leb_spec 0 (c - 1)); [|lia].
  reflexivity.
Qed.

(** [n] TXBL interrupts none of which reaches the length send the next [n]
    bytes of the buffer. *)
Lemma txbl_run (n k : nat) (str : list Z) (len cbk : Z) (txd sl : list Z)
    (sch : Scheduler.t) :
  (k + n <= length str)%nat → Z.of_nat (length str) < 2 ^ 32 →
  (∀ j : nat, (k < j <= k + n)%nat → Z.of_nat j ≠ len) →
  times n (interrupt Reg.LEUART_IF_TXBL)
    (T TXdata true str len (Z.of_nat k) cbk 0x202 txd sl sch)
  = Ok tt (T TXdata true str len (Z.of_nat (k + n)) cbk 0x202
             (txd ++ map uint8 (take n (drop k str))) sl sch).
Proof.
  revert k txd. induction n as [|n IH]; intros k txd Hlen Hsz Hne.
  - rewrite Nat.add_0_r. simpl. rewrite app_nil_r. reflexivity.
  - destruct (lookup_lt_is_Some_2 str k) as [ch Hch]; [lia|].
    cbn [times]. unfold mbind, M_bind, bind.
    rewrite interrupt_txbl.
    rewrite (leuart_txbl_sends _ _ _ _ ch) by (first [lia | rewrite Nat2Z.id; exact Hch]).
    replace (uint32 (Z.of_nat k + 1)) with (Z.of_nat (S k))
      by (unfold uint32; rewrite Z.mod_small; lia).
    destruct (Z.eqb_spec (Z.of_nat (S k)) len) as [Heq|_].
    { exfalso. apply (Hne (S k)); [lia | exact Heq]. }
    rewrite IH by (first [lia | intros j Hj; apply Hne; lia]).
    replace (S k + n)%nat with (k + S n)%nat by lia.
    rewrite (drop_S _ _ _ Hch). cbn [take map].
    rewrite <- app_assoc. reflexivity.
Qed.

(** The TXBL interrupt that reaches the length sends the last byte and hands
    over to TXC. *)
Lemma txbl_last (k : nat) (str : list Z) (cbk ch : Z) (txd sl : list Z)
    (sch : Scheduler.t) :
  str !! k = Some ch → Z.of_nat (length str) < 2 ^ 32 →
  interrupt Reg.LEUART_IF_TXBL
    (T TXdata true str (Z.of_nat (S k)) (Z.of_nat k) cbk 0x202 txd sl sch)
  = Ok tt (T stop true str (Z.of_nat (S k)) (Z.of_nat (S k)) cbk 0x201
             (txd ++ [uint8 ch]) sl sch).
Proof.
  intros Hch Hsz. pose proof (lookup_lt_Some _ _ _ Hch) as Hlt.
  rewrite interrupt_txbl.
  rewrite (leuart_txbl_sends _ _ _ _ ch) by (first [lia | rewrite Nat2Z.id; exact Hch]).
  replace (uint32 (Z.of_nat k + 1)) with (Z.of_nat (S k))
    by (unfold uint32; rewrite Z.mod_small; lia).
  rewrite Z.eqb_refl. reflexivity.
Qed.

Lemma leuart_start_exact (s : Z) (str string : list Z) (len k cbk : Z)
    (txd sl : list Z) (sch : Scheduler.t) (c : Z) :
  (length (cstr string) + 1 <= length str)%nat →
  sl !! Z.to_nat LEUART_TX_EM = Some c → 0 <= c < 4 →
  leuart_start string (T s false str len k cbk 0x200 txd sl sch)
  = Ok tt (T TXdata true (cstr string ++ [0] ++ drop (length (cstr string) + 1) str)
             (uint32 (strlen string)) 0 txcb 0x202 txd
             (<[Z.to_nat LEUART_TX_EM := c + 1]> sl) sch).
Proof.
  intros Hlen Hc Hr.
  unfold T, leuart_start, leuart_busy, get, mbind, M_bind, bind, ret.
  cbn [tx_leuart_sm busy].
  unfold set_tx_str_len, set_sent_bytes, modify.
  cbn [tx_leuart_sm with_tx tx_str of_option].
  rewrite strcpy_spec by exact Hlen.
  unfold ret, set_tx_str, set_busy, modify, sleep_block_mode, zoom.
  cbn [of_option ret sleep with_tx].
  rewrite (sleep_block_mode_run _ _ c) by (done || exact Hc).
  cbn zeta. rewrite int32_small by lia.
  destruct (Z.ltb_spec (c + 1) 5); [|lia].
  reflexivity.
Qed.

Lemma leuart_txbl_outside (str : list Z) (len k cbk ien : Z) (txd sl : list Z)
    (sch : Scheduler.t) :
  Z.of_nat (length str) <= k →
  leuart_txbl (T TXdata true str len k cbk ien txd sl sch) = Undefined.
Proof.
  intros Hk.
  unfold T, leuart_txbl, get, mbind, M_bind, bind, of_option.
  cbn [tx_leuart_sm tx_state sent_bytes tx_str tx_str_len Z.eqb Pos.eqb start TXdata stop].
  unfold aload. destruct (Z.ltb_spec k (Z.of_nat (length str))); [lia|].
  rewrite andb_false_r. reflexivity.
Qed.

End LeuartTx.

Lemma times_S_r {S} (n : nat) (m : M S unit) (w : S) :
  times (Datatypes.S n) m w = (times n m ;; m) w.
Proof.
  revert w. induction n as [|n IH]; intros w.
  - cbn [times]. unfold mbind, M_bind, bind, ret.
    destruct (m w) as [[] ?| | |]; reflexivity.
  - change (times (Datatypes.S (Datatypes.S n)) m w)
      with (bind m (λ _, times (Datatypes.S n) m) w).
    change ((times (Datatypes.S n) m ;; m) w)
      with (bind (bind m (λ _, times n m)) (λ _, m) w).
    unfold bind. destruct (m w) as [[] s'| | |]; try reflexivity.
    rewrite IH. reflexivity.
Qed.

(** X9. A transmission started with the driver at rest sends exactly the
    characters of the string, in order and without the terminator: after
    one TXBL interrupt for each character and the TXC interrupt the busy
    flag is down, the machine is in [stop] with all bytes counted, the
    event [leuart_open] was given is posted once and is pending in the
    event mask, the block on the transmit level is released, the receive
    side is untouched, and both sides are at rest again. *)
Theorem transmission_sends_the_string (w : Leuart.world) (string : list Z) (c : Z) :
  Leuart.rx_at_rest w → Leuart.tx_at_rest w →
  (0 < length (cstr string) < 64)%nat →
  Leuart.sleep w !! Z.to_nat Leuart.LEUART_TX_EM = Some c → 0 <= c < 4 →
  ∃ w' : Leuart.world,
    Leuart.transmission string w = Ok tt w' ∧
    Leuart.TXDATA (Leuart.LEUART0 w') =
      Leuart.TXDATA (Leuart.LEUART0 w) ++ map uint8 (cstr string) ∧
    Leuart.busy (Leuart.tx_leuart_sm w') = false ∧
    Leuart.tx_state (Leuart.tx_leuart_sm w') = Leuart.stop ∧
    Leuart.sent_bytes (Leuart.tx_leuart_sm w') = strlen string ∧
    Leuart.sleep w' = Leuart.sleep w ∧
    Scheduler.posted (Leuart.sched w') =
      Scheduler.posted (Leuart.sched w) ++ [Leuart.leuart0_tx_done_cb w] ∧
    Scheduler.event_scheduled (Leuart.sched w') =
      Z.lor (Scheduler.event_scheduled (Leuart.sched w)) (Leuart.leuart0_tx_done_cb w) ∧
    Leuart.rx_leuart_sm w' = Leuart.rx_leuart_sm w ∧
    Leuart.rx_at_rest w' ∧ Leuart.tx_at_rest w'.
Proof.
  intros (Hst & Hrlen & Hien & Hif & Hsf & Hsg & Hrb & Hsu) (Hbusy & Htlen) Hl Hc Hr.
  destruct w as [[ts b str len k cbk] rxsm rxcb txcb
                 [ien if_ rxd sf sg rb su txd] sl sch].
  cbn in Hst, Hrlen, Hien, Hif, Hsf, Hsg, Hrb, Hsu, Hbusy, Htlen, Hc.
  subst b ien if_ sf sg rb su.
  pose proof (lookup_lt_Some _ _ _ Hc) as Hlts.
  set (cs := cstr string) in *.
  destruct (length cs) as [|n] eqn:Hn; [lia|].
  set (str' := cs ++ [0] ++ drop (S n + 1) str).
  assert (Hlen' : length str' = 64%nat).
  { unfold str'. rewrite !length_app, length_drop, Hn, Htlen. simpl. lia. }
  assert (Htake : take (S n) str' = cs).
  { unfold str'. rewrite take_app_length' by (symmetry; exact Hn). reflexivity. }
  destruct (lookup_lt_is_Some_2 str' n) as [ch Hch]; [lia|].
  assert (Hcs : cs = take n str' ++ [ch]).
  { rewrite <- Htake. apply take_S_r, Hch. }
  unfold Leuart.transmission, mbind, M_bind, bind.
  rewrite leuart_start_exact with (c := c)
    by (first [exact Hc | lia | fold cs; rewrite Hn, Htlen; lia]).
  fold cs. rewrite Hn. fold str'.
  unfold strlen. fold cs. rewrite Hn.
  replace (uint32 (Z.of_nat (S n))) with (Z.of_nat (S n))
    by (unfold uint32; rewrite Z.mod_small; lia).
  rewrite times_S_r. unfold mbind, M_bind, bind.
  pose proof (txbl_run rxsm rxcb txcb rxd 35 33 true true n 0 str' (Z.of_nat (S n))
                txcb txd (<[Z.to_nat Leuart.LEUART_TX_EM := c + 1]> sl) sch) as Hrun.
  cbv beta in Hrun. change (Z.of_nat 0) with 0 in Hrun. change (0 + n)%nat with n in Hrun.
  change (drop 0 str') with str' in Hrun.
  rewrite Hrun by (first [lia | intros j Hj; lia]).
  rewrite txbl_last with (ch := ch) by (first [exact Hch | lia]).
  rewrite interrupt_txc.
  rewrite leuart_txc_done with (c := c + 1)
    by (first [apply list_lookup_insert_eq; exact Hlts | lia]).
  eexists. split; [reflexivity|].
  cbn [Leuart.LEUART0 Leuart.TXDATA Leuart.tx_leuart_sm Leuart.busy Leuart.tx_state
       Leuart.sent_bytes Leuart.sleep Leuart.sched Scheduler.posted
       Leuart.leuart0_tx_done_cb Leuart.rx_leuart_sm].
  rewrite list_insert_insert_eq.
  replace (c + 1 - 1) with c by lia. rewrite (list_insert_id sl) by exact Hc.
  rewrite <- app_assoc, Hcs, map_app.
  repeat split; assumption.
Qed.

Lemma transmission_sends_the_string_witness :
  let w := Leuart.idle (replicate 64 0) 8 16 in
  ∃ w' : Leuart.world,
    Leuart.transmission (bytes_of_string "Hi") w = Ok tt w' ∧
    Leuart.TXDATA (Leuart.LEUART0 w') =
      Leuart.TXDATA (Leuart.LEUART0 w) ++ map uint8 (cstr (bytes_of_string "Hi")) ∧
    Leuart.busy (Leuart.tx_leuart_sm w') = false ∧
    Leuart.tx_state (Leuart.tx_leuart_sm w') = Leuart.stop ∧
    Leuart.sent_bytes (Leuart.tx_leuart_sm w') = strlen (bytes_of_string "Hi") ∧
    Leuart.sleep w' = Leuart.sleep w ∧
    Scheduler.posted (Leuart.sched w') =
      Scheduler.posted (Leuart.sched w) ++ [Leuart.leuart0_tx_done_cb w] ∧
    Scheduler.event_scheduled (Leuart.sched w') =
      Z.lor (Scheduler.event_scheduled (Leuart.sched w)) (Leuart.leuart0_tx_done_cb w) ∧
    Leuart.rx_leuart_sm w' = Leuart.rx_leuart_sm w ∧
    Leuart.rx_at_rest w' ∧ Leuart.tx_at_rest w'.
Proof.
  intros w.
  apply (transmission_sends_the_string w (bytes_of_string "Hi") 0);
    [repeat split | repeat split | simpl; lia | reflexivity | lia].
Defined.

(** X10. A transmission of the empty string never reaches its end: the
    length is zero and the count of sent bytes is compared with it only
    after it has been raised.  After [n] TXBL interrupts, [n] up to the 64
    cells of the transmit buffer, the machine is still busy in [TXdata],
    has sent the terminator and the stale bytes behind it, and has posted
    nothing; the 65th interrupt reads past the end of the buffer. *)
Theorem empty_string_transmission_runs_away (w : Leuart.world) (string : list Z)
    (c : Z) (n : nat) :
  Leuart.rx_at_rest w → Leuart.tx_at_rest w →
  cstr string = [] →
  Leuart.sleep w !! Z.to_nat Leuart.LEUART_TX_EM = Some c → 0 <= c < 4 →
  (n <= 64)%nat →
  (∃ w' : Leuart.world,
     (Leuart.leuart_start string ;; times n (Leuart.interrupt Reg.LEUART_IF_TXBL)) w
       = Ok tt w' ∧
     Leuart.busy (Leuart.tx_leuart_sm w') = true ∧
     Leuart.tx_state (Leuart.tx_leuart_sm w') = Leuart.TXdata ∧
     Leuart.sent_bytes (Leuart.tx_leuart_sm w') = Z.of_nat n ∧
     Leuart.TXDATA (Leuart.LEUART0 w') =
       Leuart.TXDATA (Leuart.LEUART0 w) ++
       map uint8 (take n (0 :: drop 1 (Leuart.tx_str (Leuart.tx_leuart_sm w)))) ∧
     Scheduler.posted (Leuart.sched w') = Scheduler.posted (Leuart.sched w)) ∧
  (Leuart.leuart_start string ;; times 65 (Leuart.interrupt Reg.LEUART_IF_TXBL)) w
    = Undefined.
Proof.
  intros (Hst & Hrlen & Hien & Hif & Hsf & Hsg & Hrb & Hsu) (Hbusy & Htlen) He Hc Hr Hn.
  destruct w as [[ts b str len k cbk] rxsm rxcb txcb
                 [ien if_ rxd sf sg rb su txd] sl sch].
  cbn in Hst, Hrlen, Hien, Hif, Hsf, Hsg, Hrb, Hsu, Hbusy, Htlen, Hc.
  subst b ien if_ sf sg rb su.
  set (str' := 0 :: drop 1 str).
  assert (Hlen' : length str' = 64%nat).
  { unfold str'. cbn [length]. rewrite length_drop, Htlen. reflexivity. }
  assert (Hstart :
    Leuart.leuart_start string
      (Leuart.mkWorld (Leuart.mkTX ts false str len k cbk) rxsm rxcb txcb
         (Leuart.mkRegs Reg.LEUART_IEN_STARTF Reg.LEUART_IF_TXBL rxd 35 33 true true txd)
         sl sch)
    = Ok tt
      (Leuart.mkWorld (Leuart.mkTX Leuart.TXdata true str' 0 0 txcb) rxsm rxcb txcb
         (Leuart.mkRegs 0x202 Reg.LEUART_IF_TXBL rxd 35 33 true true txd)
         (<[Z.to_nat Leuart.LEUART_TX_EM := c + 1]> sl) sch)).
  { rewrite leuart_start_exact with (c := c)
      by (first [exact Hc | lia | rewrite He, Htlen; simpl; lia]).
    unfold strlen. rewrite He. reflexivity. }
  assert (Hrun : ∀ m : nat, (m <= 64)%nat →
    times m (Leuart.interrupt Reg.LEUART_IF_TXBL)
      (Leuart.mkWorld (Leuart.mkTX Leuart.TXdata true str' 0 0 txcb) rxsm rxcb txcb
         (Leuart.mkRegs 0x202 Reg.LEUART_IF_TXBL rxd 35 33 true true txd)
         (<[Z.to_nat Leuart.LEUART_TX_EM := c + 1]> sl) sch)
    = Ok tt
      (Leuart.mkWorld (Leuart.mkTX Leuart.TXdata true str' 0 (Z.of_nat m) txcb)
         rxsm rxcb txcb
         (Leuart.mkRegs 0x202 Reg.LEUART_IF_TXBL rxd 35 33 true true
            (txd ++ map uint8 (take m str')))
         (<[Z.to_nat Leuart.LEUART_TX_EM := c + 1]> sl) sch)).
  { intros m Hm.
    pose proof (txbl_run rxsm rxcb txcb rxd 35 33 true true m 0 str' 0
                  txcb txd (<[Z.to_nat Leuart.LEUART_TX_EM := c + 1]> sl) sch) as H.
    cbv beta in H. change (Z.of_nat 0) with 0 in H. change (0 + m)%nat with m in H.
    change (drop 0 str') with str' in H.
    apply H; [lia | lia | intros j Hj; lia]. }
  split.
  - unfold mbind, M_bind, bind. rewrite Hstart, (Hrun n Hn).
    eexists. split; [reflexivity|]. repeat split.
  - unfold mbind, M_bind, bind. rewrite Hstart.
    rewrite times_S_r. unfold mbind, M_bind, bind.
    rewrite (Hrun 64%nat) by lia.
    rewrite interrupt_txbl. apply leuart_txbl_outside. lia.
Qed.

Lemma empty_string_transmission_runs_away_witness :
  let w := Leuart.idle (replicate 64 0) 8 16 in
  (∃ w' : Leuart.world,
     (Leuart.leuart_start [] ;; times 3 (Leuart.interrupt Reg.LEUART_IF_TXBL)) w
       = Ok tt w' ∧
     Leuart.busy (Leuart.tx_leuart_sm w') = true ∧
     Leuart.tx_state (Leuart.tx_leuart_sm w') = Leuart.TXdata ∧
     Leuart.sent_bytes (Leuart.tx_leuart_sm w') = Z.of_nat 3 ∧
     Leuart.TXDATA (Leuart.LEUART0 w') =
       Leuart.TXDATA (Leuart.LEUART0 w) ++
       map uint8 (take 3 (0 :: drop 1 (Leuart.tx_str (Leuart.tx_leuart_sm w)))) ∧
     Scheduler.posted (Leuart.sched w') = Scheduler.posted (Leuart.sched w)) ∧
  (Leuart.leuart_start [] ;; times 65 (Leuart.interrupt Reg.LEUART_IF_TXBL)) w
    = Undefined.
Proof.
  intros w.
  apply (empty_string_transmission_runs_away w [] 0 3);
    [repeat split | repeat split | reflexivity | reflexivity | lia | lia].
Defined.

Lemma insert_at_end {A} (pre : list A) (x b : A) (rest : list A) :
  <[length pre := b]> (pre ++ x :: rest) = (pre ++ [b]) ++ rest.
Proof.
  induction pre as [|a pre IH]; [reflexivity|].
  cbn [length app]. cbn. f_equal. exact IH.
Qed.

Lemma receive_all_app (a b : list Z) (w : Leuart.world) :
  Leuart.receive_all (a ++ b) w = (Leuart.receive_all a ;; Leuart.receive_all b) w.
Proof.
  revert w. induction a as [|x a IH]; intros w; [reflexivity|].
  cbn [app Leuart.receive_all]. unfold mbind, M_bind, bind.
  destruct (Leuart.receive x w) as [[] w'| | |]; try reflexivity.
  rewrite IH. reflexivity.
Qed.

Ltac len_solve :=
  repeat first [rewrite length_app | rewrite length_drop | progress cbn [length]];
  lia.

Section LeuartRx.

Import Leuart.

Variables (txsm : TX_LEUART_STATE_MACHINE) (rcb rxcb txcb : Z) (txd sl : list Z).

(** The driver while frames come in, the start frame '#' and the signal
    frame '!' set up. *)
Let R (st : Z) (buf : list Z) (len ien if_ rxd : Z) (rb : bool)
    (sch : Scheduler.t) : world :=
  mkWorld txsm (mkRX st buf len rcb) rxcb txcb
          (mkRegs ien if_ rxd 35 33 rb true txd) sl sch.

Lemma frame_arrives_other (b ien if_ rxd : Z) (rb : bool) :
  b ≠ 35 → b ≠ 33 →
  frame_arrives b (mkRegs ien if_ rxd 35 33 rb true txd)
  = mkRegs ien (if rb then if_ else Reg.set_bits if_ Reg.LEUART_IF_RXDATAV)
           (if rb then rxd else b) 35 33 rb true txd.
Proof.
  intros Hs Hg. apply Z.eqb_neq in Hs. apply Z.eqb_neq in Hg.
  unfold frame_arrives. cbn [STARTFRAME SIGFRAME RXBLOCK SFUBRX IF_ IEN RXDATA TXDATA].
  rewrite Hs, Hg. destruct rb; reflexivity.
Qed.

Ltac frame_in :=
  unfold R, receive, modify, mbind, M_bind, bind, with_regs;
  cbn [LEUART0 tx_leuart_sm rx_leuart_sm leuart_rx_cb leuart0_tx_done_cb sleep sched];
  rewrite ?frame_arrives_other by assumption;
  cbv -[leuart_txbl leuart_txc leuart_startf leuart_rxdatav leuart_sigf];
  repeat match goal with
  | |- context [match ?m ?w with Ok _ _ => _ | Fault _ => _ | Hang _ => _ | Undefined => _ end] =>
      destruct (m w) as [[] ?| | |]
  end; try reflexivity.

Lemma receive_start_frame (buf : list Z) (len rxd : Z) (sch : Scheduler.t) :
  receive 35 (R RXstart buf len 0x200 0x2 rxd true sch)
  = leuart_startf (R RXstart buf len 0x200 0x6 35 false sch).
Proof. frame_in. Qed.

Lemma receive_payload_byte (buf : list Z) (len rxd b : Z) (sch : Scheduler.t) :
  b ≠ 35 → b ≠ 33 →
  receive b (R RXdata buf len 0x604 0x2 rxd false sch)
  = leuart_rxdatav (R RXdata buf len 0x604 0x6 b false sch).
Proof.
  intros Hs Hg. frame_in.
Qed.

Lemma receive_signal_frame (buf : list Z) (len rxd : Z) (sch : Scheduler.t) :
  receive 33 (R RXdata buf len 0x604 0x2 rxd false sch)
  = (leuart_rxdatav ;; leuart_sigf) (R RXdata buf len 0x604 0x6 33 false sch).
Proof. frame_in. Qed.

Lemma receive_second_start_frame (buf : list Z) (len rxd : Z) (sch : Scheduler.t) :
  receive 35 (R RXdata buf len 0x604 0x2 rxd false sch)
  = (leuart_startf ;; leuart_rxdatav) (R RXdata buf len 0x604 0x6 35 false sch).
Proof. frame_in. Qed.

Lemma receive_while_blocked (buf : list Z) (len rxd b : Z) (sch : Scheduler.t) :
  b ≠ 35 → b ≠ 33 →
  receive b (R RXstart buf len 0x200 0x2 rxd true sch)
  = Ok tt (R RXstart buf len 0x200 0x2 rxd true sch).
Proof.
  intros Hs Hg. frame_in.
Qed.

Ltac decide_bits :=
  repeat match goal with
  | |- context [Reg.any_bit ?a ?b] =>
      let v := eval vm_compute in (Reg.any_bit a b) in
      lazymatch v with
      | true => change (Reg.any_bit a b) with true
      | false => change (Reg.any_bit a b) with false
      end
  end; cbv beta iota.

Ltac run_rx :=
  unfold read_RXDATA, rx_store, rx_str_len_incr, set_rx_state, set_rx_str_len,
    IEN_set, IEN_clear, set_IEN, set_IF, write_CMD, set_RXBLOCK,
    add_scheduled_event, zoom, Scheduler.add_scheduled_event, modify, get, put,
    ret, mret, M_ret, mbind, M_bind, bind, of_option, with_rx, with_regs, with_sched;
  cbn [LEUART0 tx_leuart_sm rx_leuart_sm leuart_rx_cb leuart0_tx_done_cb sleep sched
       rx_state rx_str rx_str_len rx_callback
       IEN IF_ RXDATA STARTFRAME SIGFRAME RXBLOCK SFUBRX TXDATA].

Lemma leuart_startf_run (buf : list Z) (len : Z) (sch : Scheduler.t) :
  (0 < length buf)%nat →
  leuart_startf (R RXstart buf len 0x200 0x6 35 false sch)
  = Ok tt (R RXdata (<[0%nat := 35]> buf) 1 0x604 0x2 35 false sch).
Proof.
  intros Hlen.
  unfold R, leuart_startf, get, mbind, M_bind, bind.
  cbn [rx_leuart_sm rx_state Z.eqb Pos.eqb RXstart RXdata decode].
  run_rx. unfold ret. cbn [rx_str rx_str_len].
  rewrite astore_insert by lia.
  reflexivity.
Qed.

Lemma leuart_rxdatav_run (buf : list Z) (len c : Z) (sch : Scheduler.t) :
  0 <= len < Z.of_nat (length buf) →
  leuart_rxdatav (R RXdata buf len 0x604 0x6 c false sch)
  = Ok tt (R RXdata (<[Z.to_nat len := uint8 c]> buf) (uint32 (len + 1))
             0x604 0x2 c false sch).
Proof.
  intros Hlen.
  unfold R, leuart_rxdatav, get, mbind, M_bind, bind.
  cbn [rx_leuart_sm rx_state Z.eqb Pos.eqb RXstart RXdata decode].
  run_rx. unfold ret. cbn [rx_str rx_str_len].
  rewrite astore_insert by lia.
  reflexivity.
Qed.

Lemma leuart_rxdatav_outside (buf : list Z) (len ien if_ c : Z) (rb : bool)
    (sch : Scheduler.t) :
  Z.of_nat (length buf) <= len →
  leuart_rxdatav (R RXdata buf len ien if_ c rb sch) = Undefined.
Proof.
  intros Hlen.
  unfold R, leuart_rxdatav, get, mbind, M_bind, bind.
  cbn [rx_leuart_sm rx_state Z.eqb Pos.eqb RXstart RXdata decode].
  run_rx. unfold astore.
  destruct (Z.ltb_spec len (Z.of_nat (length buf))); [lia|].
  rewrite andb_false_r. reflexivity.
Qed.

Lemma leuart_sigf_run (buf : list Z) (len c : Z) (sch : Scheduler.t) :
  0 <= len < Z.of_nat (length buf) →
  leuart_sigf (R RXdata buf len 0x604 0x2 c false sch)
  = Ok tt (R RXstart (<[Z.to_nat len := 0]> buf) (uint32 (len + 1))
             0x200 0x2 c true
             (Scheduler.mk (Z.lor (Scheduler.event_scheduled sch) rxcb)
                           (Scheduler.posted sch ++ [rxcb]))).
Proof.
  intros Hlen.
  unfold R, leuart_sigf, get, mbind, M_bind, bind.
  cbn [rx_leuart_sm rx_state Z.eqb Pos.eqb RXstart RXdata decode].
  run_rx. decide_bits. run_rx. unfold ret. cbn [rx_str rx_str_len].
  rewrite astore_insert by lia.
  reflexivity.
Qed.

Lemma leuart_sigf_outside (buf : list Z) (len ien if_ c : Z) (rb : bool)
    (sch : Scheduler.t) :
  Z.of_nat (length buf) <= len →
  leuart_sigf (R RXdata buf len ien if_ c rb sch) = Undefined.
Proof.
  intros Hlen.
  unfold R, leuart_sigf, get, mbind, M_bind, bind.
  cbn [rx_leuart_sm rx_state Z.eqb Pos.eqb RXstart RXdata decode].
  run_rx. decide_bits. run_rx. cbn [rx_str rx_str_len].
  unfold astore.
  destruct (Z.ltb_spec len (Z.of_nat (length buf))); [lia|].
  rewrite andb_false_r. reflexivity.
Qed.

Lemma leuart_startf_again (buf : list Z) (len ien if_ c : Z) (rb : bool)
    (sch : Scheduler.t) :
  leuart_startf (R RXdata buf len ien if_ c rb sch)
  = Ok tt (R RXdata buf 0 ien if_ c rb sch).
Proof. reflexivity. Qed.

(** The payload bytes go to the buffer one after the other. *)
Lemma receive_payload (payload pre rest : list Z) (rxd : Z) (sch : Scheduler.t) :
  Forall payload_byte payload →
  (length payload <= length rest)%nat → Z.of_nat (length (pre ++ rest)) < 2 ^ 32 →
  ∃ rxd',
    receive_all payload
      (R RXdata (pre ++ rest) (Z.of_nat (length pre)) 0x604 0x2 rxd false sch)
    = Ok tt (R RXdata ((pre ++ payload) ++ drop (length payload) rest)
               (Z.of_nat (length (pre ++ payload))) 0x604 0x2 rxd' false sch).
Proof.
  intros Hp. revert pre rest rxd.
  induction Hp as [|b payload (Hb & Hs & Hg) _ IH]; intros pre rest rxd Hlen Hsz.
  - exists rxd. cbn [receive_all length drop]. rewrite app_nil_r. reflexivity.
  - destruct rest as [|x rest]; [simpl in Hlen; lia|].
    rewrite length_app in Hsz. cbn [length] in Hlen, Hsz.
    cbn [receive_all]. unfold mbind, M_bind, bind.
    rewrite receive_payload_byte by assumption.
    rewrite leuart_rxdatav_run by (rewrite length_app; cbn [length]; lia).
    rewrite Nat2Z.id, insert_at_end.
    replace (uint8 b) with b by (unfold uint8; rewrite Z.mod_small; lia).
    replace (uint32 (Z.of_nat (length pre) + 1)) with (Z.of_nat (length (pre ++ [b])))
      by (rewrite length_app; cbn [length]; unfold uint32; rewrite Z.mod_small; lia).
    destruct (IH (pre ++ [b]) rest b) as [rxd' Hrun];
      [lia | rewrite !length_app; cbn [length]; lia |].
    exists rxd'. rewrite Hrun. cbn [length drop].
    rewrite <- (app_assoc pre [b] payload). reflexivity.
Qed.

(** More payload than the buffer has room for is written past its end. *)
Lemma receive_payload_overflow (payload more pre rest : list Z) (rxd : Z)
    (sch : Scheduler.t) :
  Forall payload_byte payload →
  (length rest < length payload)%nat → Z.of_nat (length (pre ++ rest)) < 2 ^ 32 →
  receive_all (payload ++ more)
    (R RXdata (pre ++ rest) (Z.of_nat (length pre)) 0x604 0x2 rxd false sch)
  = Undefined.
Proof.
  intros Hp. revert pre rest rxd.
  induction Hp as [|b payload (Hb & Hs & Hg) _ IH]; intros pre rest rxd Hlen Hsz.
  - simpl in Hlen. lia.
  - cbn [app receive_all]. unfold mbind, M_bind, bind.
    rewrite receive_payload_byte by assumption.
    destruct rest as [|x rest].
    + rewrite leuart_rxdatav_outside by (rewrite app_nil_r; lia). reflexivity.
    + rewrite length_app in Hsz. cbn [length] in Hlen, Hsz.
      rewrite leuart_rxdatav_run by (rewrite length_app; cbn [length]; lia).
      rewrite Nat2Z.id, insert_at_end.
      replace (uint32 (Z.of_nat (length pre) + 1)) with (Z.of_nat (length (pre ++ [uint8 b])))
        by (rewrite length_app; cbn [length]; unfold uint32; rewrite Z.mod_small; lia).
      apply IH; [lia | rewrite !length_app; cbn [length]; lia].
Qed.

(** Frames that are neither '#' nor '!' are dropped while the receiver is
    blocked. *)
Lemma receive_blocked (bs buf : list Z) (len rxd : Z) (sch : Scheduler.t) :
  Forall (λ b, b ≠ 35 ∧ b ≠ 33) bs →
  receive_all bs (R RXstart buf len 0x200 0x2 rxd true sch)
  = Ok tt (R RXstart buf len 0x200 0x2 rxd true sch).
Proof.
  induction 1 as [|b bs [Hs Hg] _ IH]; [reflexivity|].
  cbn [receive_all]. unfold mbind, M_bind, bind.
  rewrite receive_while_blocked by assumption. exact IH.
Qed.

(** From the start frame in the buffer to the end of the message. *)
Lemma message_run (payload rest : list Z) (rxd : Z) (sch : Scheduler.t) :
  Forall payload_byte payload → (length payload + 2 <= length rest)%nat →
  Z.of_nat (length rest) + 1 < 2 ^ 32 →
  receive_all (payload ++ [33])
    (R RXdata ([35] ++ rest) 1 0x604 0x2 rxd false sch)
  = Ok tt (R RXstart ((35 :: payload ++ [33; 0]) ++ drop (length payload + 2) rest)
             (Z.of_nat (length payload + 3)) 0x200 0x2 33 true
             (Scheduler.mk (Z.lor (Scheduler.event_scheduled sch) rxcb)
                           (Scheduler.posted sch ++ [rxcb]))).
Proof.
  intros Hp Hl Hsz.
  rewrite receive_all_app. unfold mbind, M_bind, bind.
  destruct (receive_payload payload [35] rest rxd sch) as [rxd' Hrun];
    [exact Hp | lia | cbn [length app]; lia |].
  change (Z.of_nat (length [35])) with 1 in Hrun.
  rewrite Hrun.
  destruct (lookup_lt_is_Some_2 rest (length payload)) as [y Hy]; [lia|].
  destruct (lookup_lt_is_Some_2 rest (S (length payload))) as [z Hz]; [lia|].
  rewrite (drop_S _ _ _ Hy), (drop_S _ _ _ Hz).
  cbn [receive_all]. unfold mbind, M_bind, bind.
  rewrite receive_signal_frame. unfold mbind, M_bind, bind.
  rewrite leuart_rxdatav_run by len_solve.
  rewrite Nat2Z.id, insert_at_end.
  replace (uint32 (Z.of_nat (length ([35] ++ payload)) + 1))
    with (Z.of_nat (length (([35] ++ payload) ++ [uint8 33])))
    by (rewrite !length_app; cbn [length]; unfold uint32; rewrite Z.mod_small; lia).
  rewrite leuart_sigf_run by len_solve.
  rewrite Nat2Z.id, insert_at_end.
  replace (uint32 (Z.of_nat (length (([35] ++ payload) ++ [uint8 33])) + 1))
    with (Z.of_nat (length payload + 3))
    by (rewrite !length_app; cbn [length]; unfold uint32; rewrite Z.mod_small; lia).
  replace (length payload + 2)%nat with (S (S (length payload))) by lia.
  cbn [app]. rewrite <- !app_assoc. reflexivity.
Qed.

(** A frame too long for the buffer. *)
Lemma message_overrun (payload rest : list Z) (rxd : Z) (sch : Scheduler.t) :
  Forall payload_byte payload → (length rest < length payload + 2)%nat →
  Z.of_nat (length rest) + 1 < 2 ^ 32 →
  receive_all (payload ++ [33])
    (R RXdata ([35] ++ rest) 1 0x604 0x2 rxd false sch)
  = Undefined.
Proof.
  intros Hp Hl Hsz.
  destruct (Nat.lt_ge_cases (length rest) (length payload)) as [Hlt|Hge].
  { change 1 with (Z.of_nat (length [35])).
    apply receive_payload_overflow; [exact Hp | exact Hlt | cbn [length app]; lia]. }
  rewrite receive_all_app. unfold mbind, M_bind, bind.
  destruct (receive_payload payload [35] rest rxd sch) as [rxd' Hrun];
    [exact Hp | lia | cbn [length app]; lia |].
  change (Z.of_nat (length [35])) with 1 in Hrun.
  rewrite Hrun.
  cbn [receive_all]. unfold mbind, M_bind, bind.
  rewrite receive_signal_frame. unfold mbind, M_bind, bind.
  destruct (drop (length payload) rest) as [|y rest'] eqn:Hd.
  - rewrite leuart_rxdatav_outside by (rewrite app_nil_r; lia). reflexivity.
  - assert (Hr : rest' = []).
    { apply (f_equal length) in Hd. rewrite length_drop in Hd. cbn [length] in Hd.
      destruct rest'; [reflexivity | cbn [length] in Hd; lia]. }
    subst rest'.
    assert (Hr : length rest = S (length payload)).
    { apply (f_equal length) in Hd. rewrite length_drop in Hd. cbn [length] in Hd. lia. }
    rewrite leuart_rxdatav_run by len_solve.
    rewrite Nat2Z.id, insert_at_end.
    replace (uint32 (Z.of_nat (length ([35] ++ payload)) + 1))
      with (Z.of_nat (length (([35] ++ payload) ++ [uint8 33])))
      by (rewrite !length_app; cbn [length]; unfold uint32; rewrite Z.mod_small; lia).
    rewrite leuart_sigf_outside by (rewrite app_nil_r; lia). reflexivity.
Qed.

Lemma receive_start_at_rest (x0 : Z) (rest : list Z) (len rxd : Z) (sch : Scheduler.t) :
  receive 35 (R RXstart (x0 :: rest) len 0x200 0x2 rxd true sch)
  = Ok tt (R RXdata ([35] ++ rest) 1 0x604 0x2 35 false sch).
Proof.
  rewrite receive_start_frame, leuart_startf_run by (cbn [length]; lia).
  reflexivity.
Qed.

Lemma receive_start_again (x0 : Z) (rest : list Z) (len rxd : Z) (sch : Scheduler.t) :
  receive 35 (R RXdata (x0 :: rest) len 0x604 0x2 rxd false sch)
  = Ok tt (R RXdata ([35] ++ rest) 1 0x604 0x2 35 false sch).
Proof.
  rewrite receive_second_start_frame. unfold mbind, M_bind, bind.
  rewrite leuart_startf_again, leuart_rxdatav_run by (cbn [length]; lia).
  reflexivity.
Qed.

End LeuartRx.

Ltac rx_world_at_rest w buf x0 rest0 :=
  let Hst := fresh "Hst" in let Hlen := fresh "Hlen" in
  let Hien := fresh "Hien" in let Hif := fresh "Hif" in
  let Hsf := fresh "Hsf" in let Hsg := fresh "Hsg" in
  let Hrb := fresh "Hrb" in let Hsu := fresh "Hsu" in
  intros (Hst & Hlen & Hien & Hif & Hsf & Hsg & Hrb & Hsu);
  destruct w as [tx [rst buf rlen rcb] rxcb txcb [ien if_ rxd sf sg rb su txd] sl sch];
  cbn in Hst, Hlen, Hien, Hif, Hsf, Hsg, Hrb, Hsu; subst rst ien if_ sf sg rb su;
  destruct buf as [|x0 rest0]; [discriminate Hlen|];
  cbn [length] in Hlen; apply Nat.succ_inj in Hlen.

Ltac rx_facts Hlen :=
  unfold Leuart.rx_str_of;
  cbn [Leuart.rx_leuart_sm Leuart.rx_str Leuart.rx_str_len Leuart.sched
       Scheduler.posted Leuart.leuart_rx_cb Leuart.tx_leuart_sm Leuart.sleep].

Lemma frame_length (payload : list Z) :
  (length payload + 3)%nat = length (35 :: payload ++ [33; 0]).
Proof. cbn [length]. rewrite length_app. cbn [length]. lia. Qed.

(** X11. From rest, a start frame, up to 61 payload bytes and the signal
    frame leave the frame with both its delimiters and a terminator at the
    front of the receive buffer and the rest of the buffer as it was; the
    length counts the terminator, the receive event is posted once and is
    pending in the event mask, the transmit side and the block counts are
    untouched, and the receive side is at rest again, blocked until the
    next start frame. *)
Theorem framed_message_is_received (w : Leuart.world) (payload : list Z) :
  Leuart.rx_at_rest w →
  Forall Leuart.payload_byte payload → (length payload <= 61)%nat →
  ∃ w' : Leuart.world,
    Leuart.receive_all (35 :: payload ++ [33]) w = Ok tt w' ∧
    take (length payload + 3) (Leuart.rx_str_of w') = 35 :: payload ++ [33; 0] ∧
    drop (length payload + 3) (Leuart.rx_str_of w') =
      drop (length payload + 3) (Leuart.rx_str_of w) ∧
    Leuart.rx_str_len (Leuart.rx_leuart_sm w') = Z.of_nat (length payload + 3) ∧
    Scheduler.posted (Leuart.sched w') =
      Scheduler.posted (Leuart.sched w) ++ [Leuart.leuart_rx_cb w] ∧
    Scheduler.event_scheduled (Leuart.sched w') =
      Z.lor (Scheduler.event_scheduled (Leuart.sched w)) (Leuart.leuart_rx_cb w) ∧
    Leuart.tx_leuart_sm w' = Leuart.tx_leuart_sm w ∧
    Leuart.sleep w' = Leuart.sleep w ∧
    Leuart.rx_at_rest w'.
Proof.
  rx_world_at_rest w buf x0 rest0. intros Hp Hl.
  cbn [Leuart.receive_all]. unfold mbind, M_bind, bind.
  rewrite receive_start_at_rest.
  rewrite message_run by (first [exact Hp | lia]).
  eexists. split; [reflexivity|]. rx_facts Hlen.
  split; [apply take_app_length', frame_length|].
  split.
  { rewrite drop_app_length' by apply frame_length.
    replace (length payload + 3)%nat with (S (length payload + 2)) by lia.
    reflexivity. }
  split; [reflexivity|]. split; [reflexivity|]. split; [reflexivity|].
  split; [reflexivity|].
  unfold Leuart.rx_at_rest.
  cbn [Leuart.rx_leuart_sm Leuart.rx_state Leuart.rx_str Leuart.LEUART0 Leuart.IEN
       Leuart.IF_ Leuart.STARTFRAME Leuart.SIGFRAME Leuart.RXBLOCK Leuart.SFUBRX].
  repeat split.
  rewrite length_app, <- frame_length, length_drop. lia.
Qed.

Lemma framed_message_is_received_witness :
  let w := Leuart.idle (replicate 64 0) 8 16 in
  let payload := bytes_of_string "TEMP C" in
  ∃ w' : Leuart.world,
    Leuart.receive_all (35 :: payload ++ [33]) w = Ok tt w' ∧
    take (length payload + 3) (Leuart.rx_str_of w') = 35 :: payload ++ [33; 0] ∧
    drop (length payload + 3) (Leuart.rx_str_of w') =
      drop (length payload + 3) (Leuart.rx_str_of w) ∧
    Leuart.rx_str_len (Leuart.rx_leuart_sm w') = Z.of_nat (length payload + 3) ∧
    Scheduler.posted (Leuart.sched w') =
      Scheduler.posted (Leuart.sched w) ++ [Leuart.leuart_rx_cb w] ∧
    Scheduler.event_scheduled (Leuart.sched w') =
      Z.lor (Scheduler.event_scheduled (Leuart.sched w)) (Leuart.leuart_rx_cb w) ∧
    Leuart.tx_leuart_sm w' = Leuart.tx_leuart_sm w ∧
    Leuart.sleep w' = Leuart.sleep w ∧
    Leuart.rx_at_rest w'.
Proof.
  intros w payload.
  apply (framed_message_is_received w payload); subst w payload;
    [repeat split | repeat constructor; vm_compute; congruence | simpl; lia].
Defined.

(** X12. The receive machine does not check its index: a frame with 62
    or more payload bytes between the start frame and the signal frame is
    written past the 64 cells of the receive buffer, by the payload, by
    the signal frame or by the terminator. *)
Theorem overlong_frame_overruns_the_buffer (w : Leuart.world) (payload : list Z) :
  Leuart.rx_at_rest w →
  Forall Leuart.payload_byte payload → (62 <= length payload)%nat →
  Leuart.receive_all (35 :: payload ++ [33]) w = Undefined.
Proof.
  rx_world_at_rest w buf x0 rest0. intros Hp Hl.
  cbn [Leuart.receive_all]. unfold mbind, M_bind, bind.
  rewrite receive_start_at_rest.
  apply message_overrun; [exact Hp | lia | lia].
Qed.

Lemma overlong_frame_overruns_the_buffer_witness :
  Leuart.receive_all (35 :: replicate 62 65 ++ [33]) (Leuart.idle (replicate 64 0) 8 16)
    = Undefined.
Proof.
  apply (overlong_frame_overruns_the_buffer (Leuart.idle (replicate 64 0) 8 16)
           (replicate 62 65));
    [repeat split | repeat constructor; vm_compute; congruence | simpl; lia].
Defined.

(** X13. A second start frame before the signal frame starts the message
    over: the bytes received since the first start frame are overwritten
    from the front of the buffer, and the buffer ends up with the frame
    that follows the second start frame; the receive event is posted once
    and is pending in the event mask. *)
Theorem second_start_frame_restarts_the_message (w : Leuart.world)
    (dropped payload : list Z) :
  Leuart.rx_at_rest w →
  Forall Leuart.payload_byte dropped → (length dropped <= 63)%nat →
  Forall Leuart.payload_byte payload → (length payload <= 61)%nat →
  ∃ w' : Leuart.world,
    Leuart.receive_all (35 :: dropped ++ 35 :: payload ++ [33]) w = Ok tt w' ∧
    take (length payload + 3) (Leuart.rx_str_of w') = 35 :: payload ++ [33; 0] ∧
    Leuart.rx_str_len (Leuart.rx_leuart_sm w') = Z.of_nat (length payload + 3) ∧
    Scheduler.posted (Leuart.sched w') =
      Scheduler.posted (Leuart.sched w) ++ [Leuart.leuart_rx_cb w] ∧
    Scheduler.event_scheduled (Leuart.sched w') =
      Z.lor (Scheduler.event_scheduled (Leuart.sched w)) (Leuart.leuart_rx_cb w) ∧
    Leuart.rx_at_rest w'.
Proof.
  rx_world_at_rest w buf x0 rest0. intros Hd Hdl Hp Hl.
  cbn [Leuart.receive_all]. unfold mbind, M_bind, bind.
  rewrite receive_start_at_rest.
  rewrite receive_all_app. unfold mbind, M_bind, bind.
  destruct (receive_payload tx rcb rxcb txcb txd sl dropped [35] rest0 35 sch)
    as [rxd' Hrun]; [exact Hd | lia | cbn [length app]; lia |].
  cbv beta in Hrun. change (Z.of_nat (length [35])) with 1 in Hrun.
  rewrite Hrun.
  cbn [Leuart.receive_all]. unfold mbind, M_bind, bind.
  change (([35] ++ dropped) ++ drop (length dropped) rest0)
    with (35 :: (dropped ++ drop (length dropped) rest0)).
  rewrite receive_start_again.
  assert (Hrest : length (dropped ++ drop (length dropped) rest0) = 63%nat)
    by len_solve.
  rewrite message_run by (first [exact Hp | lia]).
  eexists. split; [reflexivity|]. rx_facts Hlen.
  split; [apply take_app_length', frame_length|].
  split; [reflexivity|]. split; [reflexivity|].
  unfold Leuart.rx_at_rest.
  cbn [Leuart.rx_leuart_sm Leuart.rx_state Leuart.rx_str Leuart.LEUART0 Leuart.IEN
       Leuart.IF_ Leuart.STARTFRAME Leuart.SIGFRAME Leuart.RXBLOCK Leuart.SFUBRX].
  repeat split.
  rewrite length_app, <- frame_length, length_drop. lia.
Qed.

Lemma second_start_frame_restarts_the_message_witness :
  let w := Leuart.idle (replicate 64 0) 8 16 in
  let dropped := bytes_of_string "TEM" in
  let payload := bytes_of_string "TEMP F" in
  ∃ w' : Leuart.world,
    Leuart.receive_all (35 :: dropped ++ 35 :: payload ++ [33]) w = Ok tt w' ∧
    take (length payload + 3) (Leuart.rx_str_of w') = 35 :: payload ++ [33; 0] ∧
    Leuart.rx_str_len (Leuart.rx_leuart_sm w') = Z.of_nat (length payload + 3) ∧
    Scheduler.posted (Leuart.sched w') =
      Scheduler.posted (Leuart.sched w) ++ [Leuart.leuart_rx_cb w] ∧
    Scheduler.event_scheduled (Leuart.sched w') =
      Z.lor (Scheduler.event_scheduled (Leuart.sched w)) (Leuart.leuart_rx_cb w) ∧
    Leuart.rx_at_rest w'.
Proof.
  intros w dropped payload.
  apply (second_start_frame_restarts_the_message w dropped payload);
    subst w dropped payload;
    [repeat split | repeat constructor; vm_compute; congruence | simpl; lia
    | repeat constructor; vm_compute; congruence | simpl; lia].
Defined.

(** X14. While the receive side is at rest, frames other than the start
    frame and the signal frame change nothing at all: they are neither
    stored nor do they raise an interrupt. *)
Theorem blocked_receiver_drops_frames (w : Leuart.world) (bs : list Z) :
  Leuart.rx_at_rest w →
  Forall (λ b, b ≠ 35 ∧ b ≠ 33) bs →
  Leuart.receive_all bs w = Ok tt w.
Proof.
  intros (Hst & Hlen & Hien & Hif & Hsf & Hsg & Hrb & Hsu) Hbs.
  destruct w as [tx [rst buf rlen rcb] rxcb txcb [ien if_ rxd sf sg rb su txd] sl sch].
  cbn in Hst, Hlen, Hien, Hif, Hsf, Hsg, Hrb, Hsu. subst rst ien if_ sf sg rb su.
  apply receive_blocked. exact Hbs.
Qed.

Lemma blocked_receiver_drops_frames_witness :
  Leuart.receive_all (bytes_of_string "abc") (Leuart.idle (replicate 64 0) 8 16)
    = Ok tt (Leuart.idle (replicate 64 0) 8 16).
Proof.
  apply (blocked_receiver_drops_frames (Leuart.idle (replicate 64 0) 8 16)
           (bytes_of_string "abc"));
    [repeat split | repeat constructor; vm_compute; congruence].
Defined.

(** ** More on the circular buffer *)

Ltac explicit_list l H :=
  do 64 (destruct l as [|? l]; [simpl in H; discriminate|]);
  destruct l; [|simpl in H; discriminate].

(** X15. [circular_buff_test] passes on every opened driver whose
    transmitter is idle, whatever the buffer, the result string and the
    transmit buffer hold: all its assertions hold, the three test strings
    come back in the order they were pushed, the buffer is empty at the
    end, and the closing [ble_write] has started the transmission of the
    pass message without a byte sent yet. *)
Theorem circular_buff_test_passes (w : Ble.world) (c0 c1 c2 c c4 : Z) :
  Ble.size (Ble.ble_cbuf w) = Ble.CSIZE →
  Ble.size_mask (Ble.ble_cbuf w) = Ble.CSIZE - 1 →
  length (Ble.cbuf (Ble.ble_cbuf w)) = 64%nat →
  length (Ble.result_str w) = 64%nat →
  Leuart.tx_at_rest (Ble.leuart w) →
  Leuart.sleep (Ble.leuart w) = [c0; c1; c2; c; c4] → 0 <= c < 4 →
  ∃ w' : Ble.world,
    Ble.circular_buff_test w = Ok tt w' ∧
    take 6 (Ble.result_str w') = Ble.test_string 35 5 ∧
    Ble.read_ptr (Ble.ble_cbuf w') = Ble.write_ptr (Ble.ble_cbuf w') ∧
    Leuart.busy (Leuart.tx_leuart_sm (Ble.leuart w')) = true ∧
    cstr (Leuart.tx_str (Leuart.tx_leuart_sm (Ble.leuart w'))) =
      [10] ++ bytes_of_string "Passed Circular Buffer Test" ++ [10] ∧
    Leuart.TXDATA (Leuart.LEUART0 (Ble.leuart w')) =
      Leuart.TXDATA (Leuart.LEUART0 (Ble.leuart w)) ∧
    Leuart.sleep (Ble.leuart w') = [c0; c1; c2; c + 1; c4].
Proof.
  intros Hsz Hmask Hl Hres (Hbusy & Htx) Hsl Hc.
  destruct w as [[cb mask sz rp wp] res
                 [[ts b str len k cbk] rxsm rxcb txcb
                  [ien if_ rxd sf sg rb su txd] sl sch]].
  cbn in Hsz, Hmask, Hl, Hres, Hbusy, Htx, Hsl. subst sz mask b sl.
  explicit_list cb Hl.
  explicit_list res Hres.
  explicit_list str Htx.
  assert (Hcase : c = 0 ∨ c = 1 ∨ c = 2 ∨ c = 3) by lia.
  destruct Hcase as [->|[->|[->| ->]]];
    (eexists; split; [vm_compute; reflexivity|]; repeat split).
Qed.

Lemma circular_buff_test_passes_witness :
  ∃ w' : Ble.world,
    Ble.circular_buff_test Ble.opened = Ok tt w' ∧
    take 6 (Ble.result_str w') = Ble.test_string 35 5 ∧
    Ble.read_ptr (Ble.ble_cbuf w') = Ble.write_ptr (Ble.ble_cbuf w') ∧
    Leuart.busy (Leuart.tx_leuart_sm (Ble.leuart w')) = true ∧
    cstr (Leuart.tx_str (Leuart.tx_leuart_sm (Ble.leuart w'))) =
      [10] ++ bytes_of_string "Passed Circular Buffer Test" ++ [10] ∧
    Leuart.TXDATA (Leuart.LEUART0 (Ble.leuart w')) =
      Leuart.TXDATA (Leuart.LEUART0 (Ble.leuart Ble.opened)) ∧
    Leuart.sleep (Ble.leuart w') = [0; 0; 0; 0 + 1; 0].
Proof.
  apply (circular_buff_test_passes Ble.opened 0 0 0 0 0);
    [reflexivity | reflexivity | reflexivity | reflexivity | split; reflexivity
    | reflexivity | lia].
Defined.

(** X16. [circular_buff_test] cannot pass while a transmission is in
    flight: [ble_circ_pop] then reports nothing to pop, and the test stops
    in its assertion on the first pop, with the first test string left in
    the buffer and the transmitter untouched. *)
Theorem circular_buff_test_stops_while_transmitting (w : Ble.world) :
  Ble.size (Ble.ble_cbuf w) = Ble.CSIZE →
  Ble.size_mask (Ble.ble_cbuf w) = Ble.CSIZE - 1 →
  length (Ble.cbuf (Ble.ble_cbuf w)) = 64%nat →
  Leuart.busy (Leuart.tx_leuart_sm (Ble.leuart w)) = true →
  ∃ w' : Ble.world,
    Ble.circular_buff_test w = Fault w' ∧
    Ble.leuart w' = Ble.leuart w ∧ Ble.result_str w' = Ble.result_str w ∧
    Ble.read_ptr (Ble.ble_cbuf w') = 0 ∧ Ble.write_ptr (Ble.ble_cbuf w') = 51.
Proof.
  intros Hsz Hmask Hl Hbusy.
  destruct w as [[cb mask sz rp wp] res
                 [[ts b str len k cbk] rxsm rxcb txcb
                  [ien if_ rxd sf sg rb su txd] sl sch]].
  cbn in Hsz, Hmask, Hl, Hbusy. subst sz mask b.
  explicit_list cb Hl.
  eexists; split; [vm_compute; reflexivity|]; repeat split.
Qed.

Lemma circular_buff_test_stops_while_transmitting_witness :
  let w := Ble.with_leuart
       (Leuart.with_tx (λ t, Leuart.mkTX Leuart.TXdata true (Leuart.tx_str t) 1 0 8)
          (Leuart.idle (replicate 64 0) 8 16))
       Ble.opened in
  ∃ w' : Ble.world,
    Ble.circular_buff_test w = Fault w' ∧
    Ble.leuart w' = Ble.leuart w ∧ Ble.result_str w' = Ble.result_str w ∧
    Ble.read_ptr (Ble.ble_cbuf w') = 0 ∧ Ble.write_ptr (Ble.ble_cbuf w') = 51.
Proof.
  intros w.
  apply (circular_buff_test_stops_while_transmitting w);
    [reflexivity | reflexivity | reflexivity | reflexivity].
Defined.

Section BleQueue.

Import Ble.

Lemma ble_circ_pop_busy (w : world) (test : bool) :
  Leuart.busy (Leuart.tx_leuart_sm (leuart w)) = true →
  ble_circ_pop test w = Ok true w.
Proof.
  intros Hbusy.
  unfold ble_circ_pop, leuart_busy, zoom, Leuart.leuart_busy, ble_circ_space,
    get, mbind, M_bind, bind, ret.
  rewrite Hbusy, with_leuart_id. reflexivity.
Qed.

End BleQueue.

(** X17. A [ble_write] while a transmission is in flight only queues the
    message: the header and the characters are in the buffer from the
    write index on, the free space is less by their number, and the read
    index, the result string and the whole serial driver are as before. *)
Theorem ble_write_while_busy_is_queued (w : Ble.world) (string : list Z) :
  Ble.wf (Ble.ble_cbuf w) →
  Leuart.busy (Leuart.tx_leuart_sm (Ble.leuart w)) = true →
  strlen string + Ble.PACKET_HEADER < Ble.space_of (Ble.ble_cbuf w) →
  ∃ w' : Ble.world,
    Ble.ble_write string w = Ok tt w' ∧
    Ble.leuart w' = Ble.leuart w ∧
    Ble.result_str w' = Ble.result_str w ∧
    Ble.read_ptr (Ble.ble_cbuf w') = Ble.read_ptr (Ble.ble_cbuf w) ∧
    Ble.space_of (Ble.ble_cbuf w') =
      Ble.space_of (Ble.ble_cbuf w) - (strlen string + Ble.PACKET_HEADER) ∧
    (∀ (k : nat) (x : Z),
       ((strlen string + Ble.PACKET_HEADER) :: cstr string) !! k = Some x →
       Ble.cbuf (Ble.ble_cbuf w') !!
         Z.to_nat ((Ble.write_ptr (Ble.ble_cbuf w) + Z.of_nat k) mod 64) = Some (uint8 x)).
Proof.
  intros Hwf Hbusy Hfit. pose proof Hwf as (Hsz & Hmask & Hl & Hr & Hw).
  pose proof (space_of_le _ Hsz Hmask) as Hsp.
  pose proof (strlen_range string) as Hlen.
  unfold Ble.PACKET_HEADER in *.
  unfold Ble.ble_write, mbind, M_bind, bind.
  rewrite ble_circ_push_run by lia.
  destruct (Z.gtb_spec (strlen string + 1) (Ble.space_of (Ble.ble_cbuf w))); [lia|].
  destruct (push_loop_spec ((strlen string + 1) :: cstr string) w Hwf)
    as (w1 & Hrun & Hres1 & Hleu1 & Hsz1 & Hmask1 & Hr1 & Hw1 & Hl1 & Hin & _).
  { simpl. unfold strlen in *. lia. }
  rewrite Hrun.
  rewrite ble_circ_pop_busy by (rewrite Hleu1; exact Hbusy).
  exists w1. split; [reflexivity|].
  repeat split; try assumption.
  rewrite !space_of_wf by (rewrite ?Hsz1, ?Hmask1; assumption).
  rewrite space_of_wf in Hfit, Hsp by assumption.
  rewrite Hw1, Hr1.
  assert (Hn : Z.of_nat (length ((strlen string + 1) :: cstr string)) = strlen string + 1).
  { simpl. unfold strlen. lia. }
  rewrite Hn, Zminus_mod_idemp_l.
  replace (Ble.write_ptr (Ble.ble_cbuf w) + (strlen string + 1)
           - Ble.read_ptr (Ble.ble_cbuf w))
    with ((Ble.write_ptr (Ble.ble_cbuf w) - Ble.read_ptr (Ble.ble_cbuf w))
          + (strlen string + 1)) by lia.
  rewrite <- Zplus_mod_idemp_l.
  pose proof (Z.mod_pos_bound (Ble.write_ptr (Ble.ble_cbuf w)
                               - Ble.read_ptr (Ble.ble_cbuf w)) 64 ltac:(lia)).
  rewrite (Z.mod_small (_ + _)) by lia. lia.
Qed.

Lemma ble_write_while_busy_is_queued_witness :
  let w := Ble.with_leuart
       (Leuart.with_tx (λ t, Leuart.mkTX Leuart.TXdata true (Leuart.tx_str t) 1 0 8)
          (Leuart.idle (replicate 64 0) 8 16))
       Ble.opened in
  let string := bytes_of_string "Hi" in
  ∃ w' : Ble.world,
    Ble.ble_write string w = Ok tt w' ∧
    Ble.leuart w' = Ble.leuart w ∧
    Ble.result_str w' = Ble.result_str w ∧
    Ble.read_ptr (Ble.ble_cbuf w') = Ble.read_ptr (Ble.ble_cbuf w) ∧
    Ble.space_of (Ble.ble_cbuf w') =
      Ble.space_of (Ble.ble_cbuf w) - (strlen string + Ble.PACKET_HEADER) ∧
    (∀ (k : nat) (x : Z),
       ((strlen string + Ble.PACKET_HEADER) :: cstr string) !! k = Some x →
       Ble.cbuf (Ble.ble_cbuf w') !!
         Z.to_nat ((Ble.write_ptr (Ble.ble_cbuf w) + Z.of_nat k) mod 64) = Some (uint8 x)).
Proof.
  intros w string.
  apply (ble_write_while_busy_is_queued w string); subst w string;
    [repeat split; vm_compute; congruence | reflexivity | vm_compute; reflexivity].
Defined.

(** ** The callbacks of the serial link *)

Ltac app_simpl :=
  unfold App.with_sched, App.with_leuart, App.with_ble, Ble.with_leuart,
    Leuart.with_sched, App.sched, App.leuart;
  cbn [App.str App.celsius App.ble Ble.ble_cbuf Ble.result_str Ble.leuart
       Leuart.tx_leuart_sm Leuart.rx_leuart_sm Leuart.leuart_rx_cb
       Leuart.leuart0_tx_done_cb Leuart.LEUART0 Leuart.sleep Leuart.sched
       Scheduler.event_scheduled Scheduler.posted].

Lemma framed_inj (p q : list Z) : 35 :: p ++ [33] = 35 :: q ++ [33] → p = q.
Proof. intros H. injection H as H. apply app_inv_tail in H. exact H. Qed.

Lemma payload_chars (payload : list Z) :
  Forall Leuart.payload_byte payload → 0 ∉ payload →
  Forall Ble.is_char (35 :: payload ++ [33]).
Proof.
  intros Hp H0. constructor; [unfold Ble.is_char; lia|].
  apply Forall_app. split; [|repeat constructor; unfold Ble.is_char; lia].
  rewrite Forall_forall in *. intros b Hb. destruct (Hp b Hb) as (Hr & _).
  unfold Ble.is_char. assert (b ≠ 0) by (intros ->; contradiction). lia.
Qed.

Lemma frame_run (tx : Leuart.TX_LEUART_STATE_MACHINE) (rcb rxcb txcb : Z)
    (txd sl : list Z) (x0 : Z) (rest0 : list Z) (rlen rxd : Z) (sch : Scheduler.t)
    (payload : list Z) :
  length rest0 = 63%nat →
  Forall Leuart.payload_byte payload → (length payload <= 61)%nat →
  Leuart.receive_all (35 :: payload ++ [33])
    (Leuart.mkWorld tx (Leuart.mkRX Leuart.RXstart (x0 :: rest0) rlen rcb) rxcb txcb
       (Leuart.mkRegs Reg.LEUART_IEN_STARTF Reg.LEUART_IF_TXBL rxd 35 33 true true txd)
       sl sch)
  = Ok tt
      (Leuart.mkWorld tx
         (Leuart.mkRX Leuart.RXstart
            ((35 :: payload ++ [33; 0]) ++ drop (length payload + 2) rest0)
            (Z.of_nat (length payload + 3)) rcb)
         rxcb txcb
         (Leuart.mkRegs Reg.LEUART_IEN_STARTF Reg.LEUART_IF_TXBL 33 35 33 true true txd)
         sl
         (Scheduler.mk (Z.lor (Scheduler.event_scheduled sch) rxcb)
                       (Scheduler.posted sch ++ [rxcb]))).
Proof.
  intros Hlen Hp Hl.
  cbn [Leuart.receive_all]. unfold mbind, M_bind, bind.
  rewrite receive_start_at_rest.
  rewrite message_run by (first [exact Hp | lia]).
  reflexivity.
Qed.

Lemma ldiff_lor_same (m e : Z) : Z.ldiff (Z.lor m e) e = Z.ldiff m e.
Proof.
  apply Z.bits_inj'. intros n Hn. rewrite !Z.ldiff_spec, Z.lor_spec.
  destruct (Z.testbit m n), (Z.testbit e n); reflexivity.
Qed.

(** X18. A command frame selects the unit.  With the receive side at
    rest and no transmit event pending, the frames of "#payload!" followed
    by the serial part of a pass of the main loop copy the frame to [str],
    clear the receive event again, and set [celsius] when the payload is
    "TEMP C", clear it when it is "TEMP F" and leave it for every other
    payload; the circular buffer and the transmit side are untouched and
    the receive side is at rest again. *)
Theorem command_frame_selects_the_unit (w : App.world) (payload : list Z) :
  Leuart.rx_at_rest (App.leuart w) →
  Leuart.leuart_rx_cb (App.leuart w) = App.BLE_RX_CB →
  0 <= Scheduler.event_scheduled (App.sched w) < 2 ^ 32 →
  Z.land (Scheduler.event_scheduled (App.sched w)) App.BLE_TX_CB = 0 →
  length (App.str w) = 64%nat →
  Forall Leuart.payload_byte payload → 0 ∉ payload → (length payload <= 61)%nat →
  ∃ w' : App.world,
    (App.receive_all (35 :: payload ++ [33]) ;; App.serve_serial_events) w = Ok tt w' ∧
    cstr (App.str w') = 35 :: payload ++ [33] ∧
    App.celsius w' =
      (if decide (payload = bytes_of_string "TEMP C") then true
       else if decide (payload = bytes_of_string "TEMP F") then false
       else App.celsius w) ∧
    Scheduler.event_scheduled (App.sched w') =
      Z.ldiff (Scheduler.event_scheduled (App.sched w)) App.BLE_RX_CB ∧
    Ble.ble_cbuf (App.ble w') = Ble.ble_cbuf (App.ble w) ∧
    Leuart.tx_leuart_sm (App.leuart w') = Leuart.tx_leuart_sm (App.leuart w) ∧
    Leuart.rx_at_rest (App.leuart w').
Proof.
  intros (Hst & Hlen & Hien & Hif & Hsf & Hsg & Hrb & Hsu) Hcb Hm Htx Hstr Hp H0 Hl.
  destruct w as [str cel [cb res [tx [rst buf rlen rcb] rxcb txcb
                                  [ien if_ rxd sf sg rb su txd] sl [m ps]]]].
  cbn in Hst, Hlen, Hien, Hif, Hsf, Hsg, Hrb, Hsu, Hcb, Hm, Htx, Hstr.
  subst rst ien if_ sf sg rb su rxcb.
  destruct buf as [|x0 rest0]; [discriminate Hlen|].
  cbn [length] in Hlen. apply Nat.succ_inj in Hlen.
  unfold mbind at 1. unfold M_bind, bind.
  unfold App.receive_all, zoom. app_simpl.
  rewrite frame_run by assumption. app_simpl.
  set (rx' := (35 :: payload ++ [33; 0]) ++ drop (length payload + 2) rest0).
  assert (Hchars : Forall Ble.is_char (35 :: payload ++ [33]))
    by (apply payload_chars; assumption).
  assert (Hrx : cstr rx' = 35 :: payload ++ [33]).
  { unfold rx'. replace (35 :: payload ++ [33; 0]) with ((35 :: payload ++ [33]) ++ [0])
      by (cbn [app]; rewrite <- app_assoc; reflexivity).
    rewrite <- app_assoc. apply cstr_chars, Hchars. }
  assert (Hlor : 0 <= Z.lor m App.BLE_RX_CB < 2 ^ 32)
    by (apply lor_range; [exact Hm | unfold App.BLE_RX_CB; lia]).
  unfold App.serve_serial_events, App.get_scheduled_events, zoom,
    Scheduler.get_scheduled_events, get, ret, mbind, M_bind, bind.
  app_simpl.
  rewrite Z.land_lor_distr_l, Htx.
  change (Z.lor 0 (Z.land App.BLE_RX_CB App.BLE_TX_CB) =? 0) with true.
  cbn [negb]. app_simpl.
  rewrite Z.land_lor_distr_l.
  change (Z.land App.BLE_RX_CB App.BLE_RX_CB) with App.BLE_RX_CB.
  destruct (Z.eqb_spec (Z.lor (Z.land m App.BLE_RX_CB) App.BLE_RX_CB) 0) as [He|_].
  { apply (f_equal (λ z, Z.testbit z 6)) in He.
    rewrite Z.lor_spec, orb_true_r in He. discriminate He. }
  cbn [negb].
  unfold App.scheduled_ble_rx_cb, App.remove_scheduled_event, zoom, get, put,
    mbind, M_bind, bind.
  app_simpl.
  rewrite remove_scheduled_event_run by exact Hlor.
  app_simpl. unfold Leuart.rx_str_of. app_simpl. cbn [Leuart.rx_str].
  fold rx'.
  rewrite strcpy_spec by (rewrite Hrx, Hstr; cbn [length]; rewrite length_app; cbn [length]; lia).
  cbn [of_option]. unfold ret.
  rewrite Hrx.
  set (str' := (35 :: payload ++ [33]) ++ [0] ++ drop _ str).
  assert (Hstr' : cstr str' = 35 :: payload ++ [33]).
  { unfold str'. apply cstr_chars, Hchars. }
  unfold App.strcmp_eq. rewrite Hstr'.
  change (cstr App.c_str) with (35 :: bytes_of_string "TEMP C" ++ [33]).
  change (cstr App.f_str) with (35 :: bytes_of_string "TEMP F" ++ [33]).
  rewrite ldiff_lor_same.
  assert (Hrl : length rx' = 64%nat) by (unfold rx'; len_solve).
  assert (Hfin : ∀ (c : bool) (P : bool → Prop), P c →
    ∃ w' : App.world,
      Ok tt (App.mkWorld str' c
               (Ble.mkWorld cb res
                  (Leuart.mkWorld tx (Leuart.mkRX Leuart.RXstart rx'
                                        (Z.of_nat (length payload + 3)) rcb)
                     App.BLE_RX_CB txcb
                     (Leuart.mkRegs Reg.LEUART_IEN_STARTF Reg.LEUART_IF_TXBL 33 35 33
                                    true true txd)
                     sl (Scheduler.mk (Z.ldiff m App.BLE_RX_CB) (ps ++ [App.BLE_RX_CB])))))
        = Ok tt w' ∧
      cstr (App.str w') = 35 :: payload ++ [33] ∧
      P (App.celsius w') ∧
      Scheduler.event_scheduled (App.sched w') = Z.ldiff m App.BLE_RX_CB ∧
      Ble.ble_cbuf (App.ble w') = cb ∧
      Leuart.tx_leuart_sm (App.leuart w') = tx ∧
      Leuart.rx_at_rest (App.leuart w')).
  { intros c P HP. eexists. split; [reflexivity|]. app_simpl.
    repeat split; assumption. }
  destruct (decide (payload = bytes_of_string "TEMP C")) as [HC|HC].
  { rewrite bool_decide_true by (rewrite HC; reflexivity).
    apply (Hfin true (λ b, b = true)); reflexivity. }
  rewrite bool_decide_false by (intros E; apply HC, framed_inj, E).
  destruct (decide (payload = bytes_of_string "TEMP F")) as [HF|HF].
  { rewrite bool_decide_true by (rewrite HF; reflexivity).
    apply (Hfin false (λ b, b = false)); reflexivity. }
  rewrite bool_decide_false by (intros E; apply HF, framed_inj, E).
  apply (Hfin cel (λ b, b = cel)); reflexivity.
Qed.

Lemma command_frame_selects_the_unit_witness :
  let w := App.mkWorld (replicate 64 0) false
             (Ble.with_leuart (Leuart.idle (replicate 64 0) App.BLE_TX_CB App.BLE_RX_CB)
                Ble.opened) in
  let payload := bytes_of_string "TEMP C" in
  ∃ w' : App.world,
    (App.receive_all (35 :: payload ++ [33]) ;; App.serve_serial_events) w = Ok tt w' ∧
    cstr (App.str w') = 35 :: payload ++ [33] ∧
    App.celsius w' =
      (if decide (payload = bytes_of_string "TEMP C") then true
       else if decide (payload = bytes_of_string "TEMP F") then false
       else App.celsius w) ∧
    Scheduler.event_scheduled (App.sched w') =
      Z.ldiff (Scheduler.event_scheduled (App.sched w)) App.BLE_RX_CB ∧
    Ble.ble_cbuf (App.ble w') = Ble.ble_cbuf (App.ble w) ∧
    Leuart.tx_leuart_sm (App.leuart w') = Leuart.tx_leuart_sm (App.leuart w) ∧
    Leuart.rx_at_rest (App.leuart w').
Proof.
  intros w payload.
  apply (command_frame_selects_the_unit w payload); subst w payload;
    [repeat split | reflexivity | simpl; lia | reflexivity | reflexivity
    | repeat constructor; vm_compute; congruence
    | apply (bool_decide_unpack _); vm_compute; exact I
    | simpl; lia].
Defined.

(** ** Messages on their way out *)

Section LeuartCompletion.

Import Leuart.

Variables (rxsm : RX_LEUART_STATE_MACHINE) (rxcb txcb rxd sf sg : Z) (rb su : bool).

Let T (s : Z) (b : bool) (str : list Z) (len k cbk ien : Z) (txd sl : list Z)
    (sch : Scheduler.t) : world :=
  mkWorld (mkTX s b str len k cbk) rxsm rxcb txcb
          (mkRegs ien Reg.LEUART_IF_TXBL rxd sf sg rb su txd) sl sch.

(** The interrupts of a transmission, after [leuart_start]. *)
Lemma completion_run (n : nat) (str : list Z) (cbk : Z) (txd sl : list Z)
    (sch : Scheduler.t) (c : Z) :
  (n < length str)%nat → Z.of_nat (length str) < 2 ^ 32 →
  sl !! Z.to_nat LEUART_TX_EM = Some c → 0 < c < 2 ^ 31 →
  (times (S n) (interrupt Reg.LEUART_IF_TXBL) ;; interrupt Reg.LEUART_IF_TXC)
    (T TXdata true str (Z.of_nat (S n)) 0 cbk 0x202 txd sl sch)
  = Ok tt (T stop false str (Z.of_nat (S n)) (Z.of_nat (S n)) cbk 0x200
             (txd ++ map uint8 (take (S n) str))
             (<[Z.to_nat LEUART_TX_EM := c - 1]> sl)
             (Scheduler.mk (Z.lor (Scheduler.event_scheduled sch) cbk)
                           (Scheduler.posted sch ++ [cbk]))).
Proof.
  intros Hn Hsz Hc Hr.
  destruct (lookup_lt_is_Some_2 str n) as [ch Hch]; [lia|].
  unfold mbind at 1. unfold M_bind, bind at 1.
  rewrite times_S_r. unfold mbind, M_bind, bind.
  pose proof (txbl_run rxsm rxcb txcb rxd sf sg rb su n 0 str (Z.of_nat (S n))
                cbk txd sl sch) as Hrun.
  cbv beta in Hrun. change (Z.of_nat 0) with 0 in Hrun.
  change (0 + n)%nat with n in Hrun. change (drop 0 str) with str in Hrun.
  unfold T. rewrite Hrun by (first [lia | intros j Hj; lia]).
  rewrite txbl_last with (ch := ch) by (first [exact Hch | lia]).
  rewrite interrupt_txc.
  rewrite leuart_txc_done with (c := c) by assumption.
  rewrite (take_S_r _ _ _ Hch), map_app, app_assoc. reflexivity.
Qed.

End LeuartCompletion.

Section BleRuns.

Import Ble.

Lemma wf_explicit (cb : list Z) (rp wp : Z) :
  length cb = 64%nat → 0 <= rp < 64 → 0 <= wp < 64 →
  wf (mkBuf cb 63 64 rp wp).
Proof. intros Hl Hr Hw. unfold wf, CSIZE. cbn. repeat split; assumption || lia. Qed.

Lemma space_explicit (cb : list Z) (rp wp : Z) :
  space_of (mkBuf cb 63 64 rp wp) = 64 - (wp - rp) mod 64.
Proof. apply space_of_wf; reflexivity. Qed.

(** [ble_circ_push] with the buffer spelled out. *)
Lemma ble_circ_push_exact (cb res : list Z) (rp wp : Z) (l : Leuart.world)
    (string : list Z) :
  length cb = 64%nat → 0 <= rp < 64 → 0 <= wp < 64 →
  strlen string + 1 <= 64 - (wp - rp) mod 64 →
  ∃ cb1, length cb1 = 64%nat ∧
    (∀ (k : nat) (x : Z), ((strlen string + 1) :: cstr string) !! k = Some x →
       cb1 !! Z.to_nat ((wp + Z.of_nat k) mod 64) = Some (uint8 x)) ∧
    ble_circ_push string (mkWorld (mkBuf cb 63 64 rp wp) res l)
    = Ok tt (mkWorld (mkBuf cb1 63 64 rp ((wp + (strlen string + 1)) mod 64)) res l).
Proof.
  intros Hl Hr Hw Hfit.
  pose proof (strlen_range string) as Hlen.
  pose proof (Z.mod_pos_bound (wp - rp) 64 ltac:(lia)) as Hd.
  rewrite ble_circ_push_run by lia.
  cbn [ble_cbuf]. rewrite space_explicit.
  destruct (Z.gtb_spec (strlen string + 1) (64 - (wp - rp) mod 64)); [lia|].
  destruct (push_loop_spec ((strlen string + 1) :: cstr string)
              (mkWorld (mkBuf cb 63 64 rp wp) res l))
    as (w1 & Hrun & Hres1 & Hleu1 & Hsz1 & Hmask1 & Hr1 & Hw1 & Hl1 & Hin & _).
  { apply wf_explicit; assumption. }
  { simpl. unfold strlen in *. lia. }
  destruct w1 as [[cb1 mask1 sz1 rp1 wp1] res1 l1].
  cbn in Hres1, Hleu1, Hsz1, Hmask1, Hr1, Hw1, Hl1, Hin. subst.
  exists cb1. split; [congruence|]. split; [exact Hin|].
  rewrite Hrun. do 4 f_equal. simpl. unfold strlen. lia.
Qed.

(** [ble_circ_pop] handing the oldest message to the transmitter. *)
Lemma ble_circ_pop_exact (cb res : list Z) (rp wp : Z) (l : Leuart.world)
    (msg : list Z) :
  let m := Z.of_nat (length msg) in
  length cb = 64%nat → 0 <= rp < 64 → 0 <= wp < 64 → wp ≠ rp →
  (∀ (k : nat) (x : Z), ((m + 1) :: msg) !! k = Some x →
     cb !! Z.to_nat ((rp + Z.of_nat k) mod 64) = Some x) →
  m < 63 → Forall is_char msg →
  Leuart.busy (Leuart.tx_leuart_sm l) = false →
  ble_circ_pop false (mkWorld (mkBuf cb 63 64 rp wp) res l)
  = match Leuart.leuart_start (msg ++ [0]) l with
    | Ok _ l' => Ok false (mkWorld (mkBuf cb 63 64 ((rp + m + 1) mod 64) wp) res l')
    | Fault l' => Fault (mkWorld (mkBuf cb 63 64 ((rp + m + 1) mod 64) wp) res l')
    | Hang l' => Hang (mkWorld (mkBuf cb 63 64 ((rp + m + 1) mod 64) wp) res l')
    | Undefined => Undefined
    end.
Proof.
  intros m Hl Hr Hw Hne Hcells Hm Hchars Hbusy.
  assert (Hmlen : m = Z.of_nat (length msg)) by reflexivity.
  clearbody m.
  unfold ble_circ_pop, leuart_busy, zoom, Leuart.leuart_busy, ble_circ_space,
    get, mbind, M_bind, bind, ret.
  unfold with_leuart. cbn [leuart ble_cbuf result_str].
  rewrite Hbusy. cbn [orb]. rewrite space_explicit.
  destruct (Z.eqb_spec (64 - (wp - rp) mod 64) CSIZE) as [Heq|_].
  { exfalso. unfold CSIZE in Heq.
    assert (Hz : (wp - rp) mod 64 = 0) by lia.
    destruct (Z.lt_ge_cases wp rp).
    - replace (wp - rp) with ((wp - rp + 64) + (-1) * 64) in Hz by lia.
      rewrite Z_mod_plus_full, Z.mod_small in Hz by lia. lia.
    - rewrite Z.mod_small in Hz by lia. lia. }
  cbv beta iota.
  assert (Hhdr : cb !! Z.to_nat rp = Some (m + 1)).
  { specialize (Hcells 0%nat (m + 1) eq_refl).
    rewrite Z.add_0_r, Z.mod_small in Hcells by lia. exact Hcells. }
  rewrite (cbuf_load_run _ (m + 1)) by (cbn; first [lia | exact Hhdr]).
  unfold PACKET_HEADER, uint32. change (2 ^ 32) with 4294967296.
  replace (m + 1 - 1) with m by lia.
  rewrite (Z.mod_small m) by lia.
  rewrite (Z.mod_small (m + 1)) by lia.
  destruct (Z.eqb_spec (m + 1) 0) as [|_]; [lia|].
  unfold undefined, update_circ_readtindex, modify.
  unfold with_buf.
  cbn [ble_cbuf cbuf size_mask size read_ptr write_ptr result_str leuart].
  rewrite (land_mask (rp + 1)).
  destruct (pop_loop_spec (Z.to_nat m)
              (mkWorld (mkBuf cb 63 64 ((rp + 1) mod 64) wp) res l))
    as (cs & w2 & Hrun & Hres2 & Hleu2 & Hsz2 & Hmask2 & Hw2 & Hc2 & Hr2 & Hlen2 & Hcs).
  { apply wf_explicit; [exact Hl | apply Z.mod_pos_bound; lia | exact Hw]. }
  rewrite Hrun.
  destruct w2 as [[cb2 mask2 sz2 rp2 wp2] res2 l2].
  cbn in Hres2, Hleu2, Hsz2, Hmask2, Hw2, Hc2, Hr2, Hcs. subst.
  assert (Hcsmsg : cs = msg).
  { apply list_eq. intros k.
    destruct (decide (k < length msg)%nat) as [Hk|Hk].
    - rewrite Hcs by lia. rewrite Zplus_mod_idemp_l.
      destruct (lookup_lt_is_Some_2 msg k Hk) as [x Hx].
      rewrite Hx.
      replace (rp + 1 + Z.of_nat k) with (rp + Z.of_nat (S k)) by lia.
      apply Hcells. exact Hx.
    - rewrite !lookup_ge_None_2; [reflexivity | lia | lia]. }
  subst cs.
  rewrite Nat2Z.id, Zplus_mod_idemp_l.
  replace (rp + 1 + Z.of_nat (length msg)) with (rp + Z.of_nat (length msg) + 1) by lia.
  unfold leuart_start, zoom, with_leuart. cbn [leuart ble_cbuf result_str].
  destruct (Leuart.leuart_start (msg ++ [0]) l) as [[] l'|l'|l'|]; reflexivity.
Qed.

End BleRuns.

Lemma mod_shift_ne (p n : Z) : 0 <= p < 64 → 0 < n < 64 → (p + n) mod 64 ≠ p.
Proof.
  intros Hp Hn Heq. destruct (Z.lt_ge_cases (p + n) 64).
  - rewrite Z.mod_small in Heq by lia. lia.
  - replace (p + n) with ((p + n - 64) + 1 * 64) in Heq by lia.
    rewrite Z_mod_plus_full, Z.mod_small in Heq by lia. lia.
Qed.

Lemma map_uint8_chars (msg : list Z) : Forall Ble.is_char msg → map uint8 msg = msg.
Proof.
  induction 1 as [|c msg Hc _ IH]; [reflexivity|].
  cbn [map]. rewrite IH, uint8_small by (unfold Ble.is_char in Hc; lia). reflexivity.
Qed.

Lemma land_ldiff_0 (m e f : Z) : Z.land m f = 0 → Z.land (Z.ldiff m e) f = 0.
Proof.
  intros H. apply Z.bits_inj'. intros n Hn.
  assert (Hb : Z.testbit m n && Z.testbit f n = false)
    by (rewrite <- Z.land_spec, H; apply Z.bits_0).
  rewrite Z.land_spec, Z.ldiff_spec, Z.bits_0.
  destruct (Z.testbit m n), (Z.testbit f n), (Z.testbit e n); try reflexivity; discriminate.
Qed.

Lemma lor_ldiff_same (m e : Z) : Z.lor (Z.ldiff m e) e = Z.lor m e.
Proof.
  apply Z.bits_inj'. intros n Hn. rewrite !Z.lor_spec, Z.ldiff_spec.
  destruct (Z.testbit m n), (Z.testbit e n); reflexivity.
Qed.

Lemma ldiff_range (m e : Z) : 0 <= m < 2 ^ 32 → 0 <= Z.ldiff m e < 2 ^ 32.
Proof.
  intros Hm.
  assert (Heq : Z.ldiff m e = uint32 (Z.ldiff m e)).
  { apply Z.bits_inj'. intros n Hn. rewrite uint32_testbit by exact Hn.
    destruct (Z.ltb_spec n 32); [reflexivity|].
    rewrite Z.ldiff_spec, (uint32_high_bits m n) by assumption. reflexivity. }
  rewrite Heq. unfold uint32. apply Z.mod_pos_bound. lia.
Qed.

Section AppRuns.

Variables (str : list Z) (cel : bool).

Let A (b : Ble.BLE_CIRCULAR_BUF) (res : list Z) (l : Leuart.world) : App.world :=
  App.mkWorld str cel (Ble.mkWorld b res l).

Lemma app_ble_write (string : list Z) (b : Ble.BLE_CIRCULAR_BUF) (res : list Z)
    (l : Leuart.world) :
  App.ble_write string (A b res l)
  = match Ble.ble_write string (Ble.mkWorld b res l) with
    | Ok _ bw => Ok tt (App.mkWorld str cel bw)
    | Fault bw => Fault (App.mkWorld str cel bw)
    | Hang bw => Hang (App.mkWorld str cel bw)
    | Undefined => Undefined
    end.
Proof.
  unfold App.ble_write, zoom, A. cbn [App.ble].
  destruct (Ble.ble_write string _) as [[] bw|bw|bw|]; reflexivity.
Qed.

Lemma app_interrupt (flags : Z) (b : Ble.BLE_CIRCULAR_BUF) (res : list Z)
    (l : Leuart.world) :
  App.interrupt flags (A b res l)
  = match Leuart.interrupt flags l with
    | Ok _ l' => Ok tt (A b res l')
    | Fault l' => Fault (A b res l')
    | Hang l' => Hang (A b res l')
    | Undefined => Undefined
    end.
Proof.
  unfold App.interrupt, zoom, A, App.leuart. cbn [App.ble Ble.leuart].
  destruct (Leuart.interrupt flags l) as [[] l'|l'|l'|]; reflexivity.
Qed.

Lemma app_interrupts (n : nat) (flags : Z) (b : Ble.BLE_CIRCULAR_BUF) (res : list Z)
    (l : Leuart.world) :
  times n (App.interrupt flags) (A b res l)
  = match times n (Leuart.interrupt flags) l with
    | Ok _ l' => Ok tt (A b res l')
    | Fault l' => Fault (A b res l')
    | Hang l' => Hang (A b res l')
    | Undefined => Undefined
    end.
Proof.
  revert l. induction n as [|n IH]; intros l; [reflexivity|].
  cbn [times]. unfold mbind, M_bind, bind.
  rewrite app_interrupt.
  destruct (Leuart.interrupt flags l) as [[] l'|l'|l'|]; try reflexivity.
  apply IH.
Qed.

Lemma app_transmitted (n : nat) (b : Ble.BLE_CIRCULAR_BUF) (res : list Z)
    (l : Leuart.world) :
  App.transmitted n (A b res l)
  = match (times n (Leuart.interrupt Reg.LEUART_IF_TXBL) ;;
           Leuart.interrupt Reg.LEUART_IF_TXC) l with
    | Ok _ l' => Ok tt (A b res l')
    | Fault l' => Fault (A b res l')
    | Hang l' => Hang (A b res l')
    | Undefined => Undefined
    end.
Proof.
  unfold App.transmitted, mbind, M_bind, bind.
  rewrite app_interrupts.
  destruct (times n (Leuart.interrupt Reg.LEUART_IF_TXBL) l) as [[] l'|l'|l'|];
    try reflexivity.
  apply app_interrupt.
Qed.

End AppRuns.

Section BleSends.

Variables (rxsm : Leuart.RX_LEUART_STATE_MACHINE) (rxcb txcb rxd sf sg : Z) (rb su : bool).

Let T (s : Z) (b : bool) (str : list Z) (len k cbk ien : Z) (txd sl : list Z)
    (sch : Scheduler.t) : Leuart.world :=
  Leuart.mkWorld (Leuart.mkTX s b str len k cbk) rxsm rxcb txcb
    (Leuart.mkRegs ien Reg.LEUART_IF_TXBL rxd sf sg rb su txd) sl sch.

(** The oldest message goes from the buffer to the idle transmitter. *)
Lemma ble_circ_pop_starts (cb res : list Z) (rp wp : Z) (msg : list Z)
    (ts : Z) (tstr : list Z) (tlen tk tcbk : Z) (txd sl : list Z)
    (sch : Scheduler.t) (c : Z) :
  let m := Z.of_nat (length msg) in
  length cb = 64%nat → 0 <= rp < 64 → 0 <= wp < 64 → wp ≠ rp →
  (∀ (k : nat) (x : Z), ((m + 1) :: msg) !! k = Some x →
     cb !! Z.to_nat ((rp + Z.of_nat k) mod 64) = Some x) →
  m < 63 → Forall Ble.is_char msg →
  length tstr = 64%nat →
  sl !! Z.to_nat Leuart.LEUART_TX_EM = Some c → 0 <= c < 4 →
  Ble.ble_circ_pop false
    (Ble.mkWorld (Ble.mkBuf cb 63 64 rp wp) res
       (T ts false tstr tlen tk tcbk 0x200 txd sl sch))
  = Ok false
      (Ble.mkWorld (Ble.mkBuf cb 63 64 ((rp + m + 1) mod 64) wp) res
         (T Leuart.TXdata true (msg ++ [0] ++ drop (length msg + 1) tstr) m 0 txcb
            0x202 txd (<[Z.to_nat Leuart.LEUART_TX_EM := c + 1]> sl) sch)).
Proof.
  intros m Hl Hr Hw Hne Hcells Hm Hchars Htl Hc Hcr.
  assert (Hcstr : cstr (msg ++ [0]) = msg) by (apply cstr_chars, Hchars).
  rewrite (ble_circ_pop_exact cb res rp wp _ msg) by (assumption || reflexivity).
  unfold T. rewrite leuart_start_exact with (c := c)
    by (first [exact Hc | exact Hcr | rewrite Hcstr, Htl; unfold m in Hm; lia]).
  unfold strlen. rewrite Hcstr. fold m.
  replace (uint32 m) with m by (unfold uint32; rewrite Z.mod_small; unfold m; lia).
  reflexivity.
Qed.

(** [ble_write] on an empty buffer with the transmitter idle. *)
Lemma ble_write_starts (cb res : list Z) (p : Z) (msg : list Z)
    (ts : Z) (tstr : list Z) (tlen tk tcbk : Z) (txd sl : list Z)
    (sch : Scheduler.t) (c : Z) :
  let m := Z.of_nat (length msg) in
  length cb = 64%nat → 0 <= p < 64 →
  m < 63 → Forall Ble.is_char msg →
  length tstr = 64%nat →
  sl !! Z.to_nat Leuart.LEUART_TX_EM = Some c → 0 <= c < 4 →
  ∃ cb1, length cb1 = 64%nat ∧
    Ble.ble_write msg
      (Ble.mkWorld (Ble.mkBuf cb 63 64 p p) res
         (T ts false tstr tlen tk tcbk 0x200 txd sl sch))
    = Ok tt
        (Ble.mkWorld (Ble.mkBuf cb1 63 64 ((p + (m + 1)) mod 64) ((p + (m + 1)) mod 64))
           res
           (T Leuart.TXdata true (msg ++ [0] ++ drop (length msg + 1) tstr) m 0 txcb
              0x202 txd (<[Z.to_nat Leuart.LEUART_TX_EM := c + 1]> sl) sch)).
Proof.
  intros m Hl Hp Hm Hchars Htl Hc Hcr.
  assert (Hcstr : cstr msg = msg) by (apply cstr_chars_id, Hchars).
  assert (Hstrlen : strlen msg = m) by (unfold strlen; rewrite Hcstr; reflexivity).
  destruct (ble_circ_push_exact cb res p p
              (T ts false tstr tlen tk tcbk 0x200 txd sl sch) msg)
    as (cb1 & Hl1 & Hin & Hpush); try assumption.
  { rewrite Z.sub_diag, Hstrlen. change (0 mod 64) with 0. unfold m. lia. }
  rewrite Hstrlen, Hcstr in *.
  exists cb1. split; [exact Hl1|].
  unfold Ble.ble_write, mbind, M_bind, bind. rewrite Hpush.
  rewrite ble_circ_pop_starts with (msg := msg) (c := c); try assumption.
  - fold m. replace (p + m + 1) with (p + (m + 1)) by lia. reflexivity.
  - apply Z.mod_pos_bound. lia.
  - apply mod_shift_ne; unfold m; lia.
  - intros k x Hk. rewrite (Hin k x Hk). f_equal. apply uint8_small.
    destruct k as [|k].
    + simpl in Hk. injection Hk as <-. unfold m. lia.
    + simpl in Hk. rewrite Forall_lookup in Hchars.
      specialize (Hchars _ _ Hk). unfold Ble.is_char in Hchars. lia.
Qed.

(** [ble_write] while a transmission is in flight, the buffer empty. *)
Lemma ble_write_waits (cb res : list Z) (p : Z) (msg : list Z) (l : Leuart.world) :
  let m := Z.of_nat (length msg) in
  length cb = 64%nat → 0 <= p < 64 →
  m < 63 → Forall Ble.is_char msg →
  Leuart.busy (Leuart.tx_leuart_sm l) = true →
  ∃ cb1, length cb1 = 64%nat ∧
    (∀ (k : nat) (x : Z), ((m + 1) :: msg) !! k = Some x →
       cb1 !! Z.to_nat ((p + Z.of_nat k) mod 64) = Some x) ∧
    Ble.ble_write msg (Ble.mkWorld (Ble.mkBuf cb 63 64 p p) res l)
    = Ok tt (Ble.mkWorld (Ble.mkBuf cb1 63 64 p ((p + (m + 1)) mod 64)) res l).
Proof.
  intros m Hl Hp Hm Hchars Hbusy.
  assert (Hcstr : cstr msg = msg) by (apply cstr_chars_id, Hchars).
  assert (Hstrlen : strlen msg = m) by (unfold strlen; rewrite Hcstr; reflexivity).
  destruct (ble_circ_push_exact cb res p p l msg)
    as (cb1 & Hl1 & Hin & Hpush); try assumption.
  { rewrite Z.sub_diag, Hstrlen. change (0 mod 64) with 0. unfold m. lia. }
  rewrite Hstrlen, Hcstr in *.
  exists cb1. split; [exact Hl1|]. split.
  - intros k x Hk. rewrite (Hin k x Hk). f_equal. apply uint8_small.
    destruct k as [|k].
    + simpl in Hk. injection Hk as <-. unfold m. lia.
    + simpl in Hk. rewrite Forall_lookup in Hchars.
      specialize (Hchars _ _ Hk). unfold Ble.is_char in Hchars. lia.
  - unfold Ble.ble_write, mbind, M_bind, bind. rewrite Hpush.
    rewrite ble_circ_pop_busy by exact Hbusy. reflexivity.
Qed.

End BleSends.

Lemma tx_event_pending (m : Z) : negb (Z.land (Z.lor m App.BLE_TX_CB) App.BLE_TX_CB =? 0) = true.
Proof.
  destruct (Z.eqb_spec (Z.land (Z.lor m App.BLE_TX_CB) App.BLE_TX_CB) 0) as [He|_];
    [|reflexivity].
  apply (f_equal (λ z, Z.testbit z 5)) in He.
  rewrite Z.land_spec, Z.lor_spec, orb_true_r in He. discriminate He.
Qed.

(** X19. Two [ble_write]s back to back go out in order, the second one
    through the transmit-done callback.  From an empty buffer and an idle
    driver, the first message is started at once and the second waits in
    the buffer; when the interrupts of the first transmission are over,
    exactly the first message has been sent and the transmitter is idle;
    the serial part of a pass of the main loop then clears the transmit
    event and starts the second message, emptying the buffer; after its
    interrupts the bytes sent are the first message followed by the
    second, the transmit event has been posted twice, the block counts,
    [str] and [celsius] are as at the start, and the driver is at rest. *)
Theorem back_to_back_writes_go_out_in_order (w : App.world) (p : Z)
    (a b : list Z) (c : Z) :
  Ble.empty_at p (Ble.ble_cbuf (App.ble w)) →
  Leuart.rx_at_rest (App.leuart w) → Leuart.tx_at_rest (App.leuart w) →
  Leuart.leuart0_tx_done_cb (App.leuart w) = App.BLE_TX_CB →
  0 <= Scheduler.event_scheduled (App.sched w) < 2 ^ 32 →
  Z.land (Scheduler.event_scheduled (App.sched w)) App.BLE_RX_CB = 0 →
  Leuart.sleep (App.leuart w) !! Z.to_nat Leuart.LEUART_TX_EM = Some c → 0 <= c < 4 →
  Forall Ble.is_char a → (0 < length a < 63)%nat →
  Forall Ble.is_char b → (0 < length b < 63)%nat →
  ∃ w1 w2 w3 : App.world,
    (App.ble_write a ;; App.ble_write b ;; App.transmitted (length a)) w = Ok tt w1 ∧
    Leuart.TXDATA (Leuart.LEUART0 (App.leuart w1)) =
      Leuart.TXDATA (Leuart.LEUART0 (App.leuart w)) ++ a ∧
    Leuart.busy (Leuart.tx_leuart_sm (App.leuart w1)) = false ∧
    Ble.space_of (Ble.ble_cbuf (App.ble w1)) = Ble.CSIZE - (Z.of_nat (length b) + 1) ∧
    App.serve_serial_events w1 = Ok tt w2 ∧
    Leuart.busy (Leuart.tx_leuart_sm (App.leuart w2)) = true ∧
    Z.land (Scheduler.event_scheduled (App.sched w2)) App.BLE_TX_CB = 0 ∧
    Ble.space_of (Ble.ble_cbuf (App.ble w2)) = Ble.CSIZE ∧
    App.transmitted (length b) w2 = Ok tt w3 ∧
    Leuart.TXDATA (Leuart.LEUART0 (App.leuart w3)) =
      Leuart.TXDATA (Leuart.LEUART0 (App.leuart w)) ++ a ++ b ∧
    Leuart.busy (Leuart.tx_leuart_sm (App.leuart w3)) = false ∧
    Scheduler.posted (App.sched w3) =
      Scheduler.posted (App.sched w) ++ [App.BLE_TX_CB; App.BLE_TX_CB] ∧
    Leuart.sleep (App.leuart w3) = Leuart.sleep (App.leuart w) ∧
    App.str w3 = App.str w ∧ App.celsius w3 = App.celsius w ∧
    Leuart.rx_leuart_sm (App.leuart w3) = Leuart.rx_leuart_sm (App.leuart w) ∧
    Leuart.rx_at_rest (App.leuart w3) ∧ Leuart.tx_at_rest (App.leuart w3).
Proof.
  intros (Hsz & Hmask & Hl & Hrp & Hwp & Hp)
         (Hst & Hrlen & Hien & Hif & Hsf & Hsg & Hrb & Hsu) (Hbusy & Htl)
         Hcb Hm Hrx Hc Hcr Ha Hla Hb Hlb.
  destruct w as [str cel [[cb mask sz rp wp] res
                          [[ts bsy tstr tlen tk tcbk] rxsm rxcb txcb
                           [ien if_ rxd sf sg rb su txd] sl [m ps]]]].
  unfold App.leuart, App.sched in *.
  cbn in Hsz, Hmask, Hl, Hrp, Hwp, Hst, Hrlen, Hien, Hif, Hsf, Hsg, Hrb, Hsu,
         Hbusy, Htl, Hcb, Hm, Hrx, Hc.
  unfold Ble.CSIZE in *. change (64 - 1) with 63 in *.
  change (Z.to_nat 64) with 64%nat in *.
  subst sz mask rp wp ien if_ sf sg rb su bsy txcb.
  change Reg.LEUART_IEN_STARTF with 0x200.
  pose proof (lookup_lt_Some _ _ _ Hc) as Hlts.
  set (la := Z.of_nat (length a)). set (lb := Z.of_nat (length b)).
  (* the first write starts the transmitter *)
  destruct (ble_write_starts rxsm rxcb App.BLE_TX_CB rxd 35 33 true true
              cb res p a ts tstr tlen tk tcbk txd sl (Scheduler.mk m ps) c)
    as (cb1 & Hl1 & Hw1); try assumption; [unfold la in *; lia|].
  cbv beta zeta in Hw1. fold la in Hw1.
  set (p1 := (p + (la + 1)) mod 64) in *.
  assert (Hp1 : 0 <= p1 < 64) by (apply Z.mod_pos_bound; lia).
  set (tstr1 := a ++ [0] ++ drop (length a + 1) tstr) in *.
  assert (Htl1 : length tstr1 = 64%nat) by (unfold tstr1; len_solve).
  set (sl1 := <[Z.to_nat Leuart.LEUART_TX_EM := c + 1]> sl) in *.
  (* the second write waits in the buffer *)
  destruct (ble_write_waits cb1 res p1 b
              (Leuart.mkWorld (Leuart.mkTX Leuart.TXdata true tstr1 la 0 App.BLE_TX_CB)
                 rxsm rxcb App.BLE_TX_CB
                 (Leuart.mkRegs 0x202 Reg.LEUART_IF_TXBL rxd 35 33 true true txd)
                 sl1 (Scheduler.mk m ps)))
    as (cb2 & Hl2 & Hcells2 & Hw2); try assumption; [unfold lb in *; lia|reflexivity|].
  cbv beta zeta in Hw2. fold lb in Hw2, Hcells2.
  set (p2 := (p1 + (lb + 1)) mod 64) in *.
  assert (Hp2 : 0 <= p2 < 64) by (apply Z.mod_pos_bound; lia).
  assert (Hp21 : p2 ≠ p1) by (apply mod_shift_ne; unfold lb; lia).
  (* the first message goes out *)
  destruct (length a) as [|na] eqn:Hna; [lia|].
  assert (Htake1 : take (S na) tstr1 = a).
  { unfold tstr1. rewrite take_app_length' by (symmetry; exact Hna). reflexivity. }
  pose proof (completion_run rxsm rxcb App.BLE_TX_CB rxd 35 33 true true na tstr1
                App.BLE_TX_CB txd sl1 (Scheduler.mk m ps) (c + 1)) as Hc1.
  cbv beta zeta in Hc1.
  specialize (Hc1 ltac:(lia) ltac:(lia)
                  ltac:(apply list_lookup_insert_eq; exact Hlts) ltac:(lia)).
  rewrite Htake1, (map_uint8_chars a Ha) in Hc1.
  unfold sl1 in Hc1 at 2. rewrite list_insert_insert_eq in Hc1.
  replace (c + 1 - 1) with c in Hc1 by lia.
  rewrite (list_insert_id sl) in Hc1 by exact Hc.
  cbn [Scheduler.event_scheduled Scheduler.posted] in Hc1. fold la in Hc1.
  (* the callback hands the second message over *)
  assert (Hm1 : 0 <= Z.lor m App.BLE_TX_CB < 2 ^ 32)
    by (apply lor_range; [exact Hm | unfold App.BLE_TX_CB; lia]).
  pose proof (ble_circ_pop_starts rxsm rxcb App.BLE_TX_CB rxd 35 33 true true
                cb2 res p1 p2 b Leuart.stop tstr1 la la App.BLE_TX_CB (txd ++ a) sl
                (Scheduler.mk (Z.ldiff m App.BLE_TX_CB) (ps ++ [App.BLE_TX_CB])) c)
    as Hpop.
  cbv beta zeta in Hpop. fold lb in Hpop.
  specialize (Hpop Hl2 Hp1 Hp2 Hp21 Hcells2 ltac:(unfold lb; lia) Hb Htl1 Hc Hcr).
  replace ((p1 + lb + 1) mod 64) with p2 in Hpop
    by (unfold p2; f_equal; lia).
  set (tstr2 := b ++ [0] ++ drop (length b + 1) tstr1) in *.
  assert (Htl2 : length tstr2 = 64%nat) by (unfold tstr2; len_solve).
  (* the second message goes out *)
  destruct (length b) as [|nb] eqn:Hnb; [lia|].
  assert (Htake2 : take (S nb) tstr2 = b).
  { unfold tstr2. rewrite take_app_length' by (symmetry; exact Hnb). reflexivity. }
  pose proof (completion_run rxsm rxcb App.BLE_TX_CB rxd 35 33 true true nb tstr2
                App.BLE_TX_CB (txd ++ a) sl1
                (Scheduler.mk (Z.ldiff m App.BLE_TX_CB) (ps ++ [App.BLE_TX_CB]))
                (c + 1)) as Hc2.
  cbv beta zeta in Hc2.
  specialize (Hc2 ltac:(lia) ltac:(lia)
                  ltac:(apply list_lookup_insert_eq; exact Hlts) ltac:(lia)).
  rewrite Htake2, (map_uint8_chars b Hb) in Hc2.
  unfold sl1 in Hc2 at 2. rewrite list_insert_insert_eq in Hc2.
  replace (c + 1 - 1) with c in Hc2 by lia.
  rewrite (list_insert_id sl) in Hc2 by exact Hc.
  cbn [Scheduler.event_scheduled Scheduler.posted] in Hc2. fold lb in Hc2.
  eexists _, _, _.
  split.
  { unfold mbind, M_bind, bind.
    rewrite app_ble_write, Hw1, app_ble_write, Hw2, app_transmitted.
    fold sl1. rewrite Hc1. reflexivity. }
  app_simpl.
  split; [reflexivity|]. split; [reflexivity|].
  split.
  { rewrite space_explicit. unfold p2.
    rewrite Zminus_mod_idemp_l. replace (p1 + (lb + 1) - p1) with (lb + 1) by lia.
    rewrite Z.mod_small by (unfold lb; lia). reflexivity. }
  split.
  { unfold App.serve_serial_events, App.get_scheduled_events, zoom,
      Scheduler.get_scheduled_events, get, ret, mbind, M_bind, bind.
    app_simpl. rewrite tx_event_pending.
    unfold App.scheduled_ble_tx_cb, App.remove_scheduled_event, App.ble_circ_pop,
      zoom, mbind, M_bind, bind.
    app_simpl.
    rewrite remove_scheduled_event_run by exact Hm1.
    cbn [Scheduler.event_scheduled Scheduler.posted]. rewrite ldiff_lor_same.
    app_simpl. rewrite Hpop. unfold ret. app_simpl.
    rewrite (land_ldiff_0 _ _ _ Hrx). reflexivity. }
  app_simpl.
  split; [reflexivity|].
  split.
  { apply Z.bits_inj'. intros n Hn. rewrite Z.land_spec, Z.ldiff_spec, Z.bits_0.
    destruct (Z.testbit m n), (Z.testbit App.BLE_TX_CB n); reflexivity. }
  split.
  { rewrite space_explicit, Z.sub_diag. reflexivity. }
  split.
  { rewrite app_transmitted. fold sl1. rewrite Hc2. reflexivity. }
  app_simpl. cbn [Leuart.TXDATA Leuart.busy].
  rewrite <- !app_assoc.
  repeat split; try assumption; try reflexivity.
Qed.

Lemma back_to_back_writes_go_out_in_order_witness :
  let w := App.mkWorld (replicate 64 0) false
             (Ble.with_leuart (Leuart.idle (replicate 64 0) App.BLE_TX_CB App.BLE_RX_CB)
                Ble.opened) in
  let a := bytes_of_string "Hello" in
  let b := bytes_of_string "World" in
  ∃ w1 w2 w3 : App.world,
    (App.ble_write a ;; App.ble_write b ;; App.transmitted (length a)) w = Ok tt w1 ∧
    Leuart.TXDATA (Leuart.LEUART0 (App.leuart w1)) =
      Leuart.TXDATA (Leuart.LEUART0 (App.leuart w)) ++ a ∧
    Leuart.busy (Leuart.tx_leuart_sm (App.leuart w1)) = false ∧
    Ble.space_of (Ble.ble_cbuf (App.ble w1)) = Ble.CSIZE - (Z.of_nat (length b) + 1) ∧
    App.serve_serial_events w1 = Ok tt w2 ∧
    Leuart.busy (Leuart.tx_leuart_sm (App.leuart w2)) = true ∧
    Z.land (Scheduler.event_scheduled (App.sched w2)) App.BLE_TX_CB = 0 ∧
    Ble.space_of (Ble.ble_cbuf (App.ble w2)) = Ble.CSIZE ∧
    App.transmitted (length b) w2 = Ok tt w3 ∧
    Leuart.TXDATA (Leuart.LEUART0 (App.leuart w3)) =
      Leuart.TXDATA (Leuart.LEUART0 (App.leuart w)) ++ a ++ b ∧
    Leuart.busy (Leuart.tx_leuart_sm (App.leuart w3)) = false ∧
    Scheduler.posted (App.sched w3) =
      Scheduler.posted (App.sched w) ++ [App.BLE_TX_CB; App.BLE_TX_CB] ∧
    Leuart.sleep (App.leuart w3) = Leuart.sleep (App.leuart w) ∧
    App.str w3 = App.str w ∧ App.celsius w3 = App.celsius w ∧
    Leuart.rx_leuart_sm (App.leuart w3) = Leuart.rx_leuart_sm (App.leuart w) ∧
    Leuart.rx_at_rest (App.leuart w3) ∧ Leuart.tx_at_rest (App.leuart w3).
Proof.
  intros w a b.
  apply (back_to_back_writes_go_out_in_order w 0 a b 0); subst w a b;
    [repeat split; vm_compute; congruence | repeat split | repeat split
    | reflexivity | simpl; lia | reflexivity | reflexivity | lia
    | repeat constructor | simpl; lia | repeat constructor | simpl; lia].
Defined.

(** ** Calls out of turn *)

(** X20. A transmit interrupt the transmit state machine does not expect
    stops the core in a failed assertion with nothing changed: TXBL in any
    state but [TXdata], TXC in any state but [stop]; state values outside
    the enumeration are among them. *)
Theorem unexpected_transmit_interrupt_faults (w : Leuart.world) :
  (Leuart.tx_state (Leuart.tx_leuart_sm w) ≠ Leuart.TXdata →
     Leuart.leuart_txbl w = Fault w) ∧
  (Leuart.tx_state (Leuart.tx_leuart_sm w) ≠ Leuart.stop →
     Leuart.leuart_txc w = Fault w).
Proof.
  unfold Leuart.leuart_txbl, Leuart.leuart_txc, get, mbind, M_bind, bind.
  repeat split; intros;
    repeat match goal with
    | |- context [?x =? ?y] => destruct (Z.eqb_spec x y); try contradiction
    end; reflexivity.
Qed.

(** X21. A receive interrupt the receive state machine does not expect
    stops the core in a failed assertion with nothing changed: STARTF in
    any state but [RXstart] and [RXdata], RXDATAV and SIGF in any state
    but [RXdata]; state values outside the enumeration are among them. *)
Theorem unexpected_receive_interrupt_faults (w : Leuart.world) :
  (Leuart.rx_state (Leuart.rx_leuart_sm w) ≠ Leuart.RXstart →
   Leuart.rx_state (Leuart.rx_leuart_sm w) ≠ Leuart.RXdata →
     Leuart.leuart_startf w = Fault w) ∧
  (Leuart.rx_state (Leuart.rx_leuart_sm w) ≠ Leuart.RXdata →
     Leuart.leuart_rxdatav w = Fault w ∧ Leuart.leuart_sigf w = Fault w).
Proof.
  unfold Leuart.leuart_startf, Leuart.leuart_rxdatav, Leuart.leuart_sigf,
    get, mbind, M_bind, bind.
  repeat split; intros;
    repeat match goal with
    | |- context [?x =? ?y] => destruct (Z.eqb_spec x y); try contradiction
    end; reflexivity.
Qed.

(** ** Boot *)

(** X22. [letimer_start] never blocks an energy mode when it starts the
    timer: its tests compare the macro [LETIMER_STATUS_RUNNING], which is
    not zero, and not the status register.  Started, it leaves the block
    table alone; stopped, it unblocks [LETIMER_EM] when the macro is 1,
    whether the timer ran or not, and does nothing otherwise. *)
Theorem letimer_start_compares_the_macro (RUNNING EM : Z) (t : list Z) :
  RUNNING ≠ 0 →
  Letimer.letimer_start RUNNING EM true t = Ok tt t ∧
  (RUNNING = 1 →
     Letimer.letimer_start RUNNING EM false t = Sleep.sleep_unblock_mode EM t) ∧
  (RUNNING ≠ 1 → Letimer.letimer_start RUNNING EM false t = Ok tt t).
Proof.
  intros Hr. apply Z.eqb_neq in Hr.
  unfold Letimer.letimer_start, mbind, M_bind, bind, ret.
  rewrite Hr. cbn [andb negb]. rewrite andb_false_r.
  split; [reflexivity|]. split.
  - intros ->. cbn [Z.eqb Pos.eqb andb].
    destruct (Sleep.sleep_unblock_mode EM t) as [[] ?| | |]; reflexivity.
  - intros Hne. apply Z.eqb_neq in Hne. rewrite Hne. reflexivity.
Qed.

Lemma letimer_start_compares_the_macro_witness :
  Letimer.letimer_start 1 3 true [0; 0; 0; 1; 0] = Ok tt [0; 0; 0; 1; 0] ∧
  (1 = 1 →
     Letimer.letimer_start 1 3 false [0; 0; 0; 1; 0] =
       Sleep.sleep_unblock_mode 3 [0; 0; 0; 1; 0]) ∧
  (1 ≠ 1 → Letimer.letimer_start 1 3 false [0; 0; 0; 1; 0] = Ok tt [0; 0; 0; 1; 0]).
Proof.
  apply (letimer_start_compares_the_macro 1 3 [0; 0; 0; 1; 0]). lia.
Defined.

(** X23. The boot pass and what follows it.  With the boot event pending,
    alone or beside the transmit event the self-test of [leuart_open]
    leaves, the driver opened and its transmitter not busy, the pass of
    the main loop runs [scheduled_boot_up_cb]: the buffer test runs to its
    end and the three messages are queued behind its pass message.  The
    transmit callback of the same pass, when its event was pending, finds
    the transmitter busy and pops nothing.  Each transmission that ends
    hands the next message over through the transmit callback, and the
    bytes sent are the pass message, "Hello World", "ADC Lab" and "Matt
    Hartnett", each with its line ends, in this order.  At the end the
    buffer is empty, no event is pending, the transmit event has been
    posted four times and the block table is as at the start: the timer
    start blocks nothing. *)
Theorem boot_messages_go_out_in_order (w : App.world)
    (RUNNING EM c0 c1 c2 c c4 : Z) :
  RUNNING ≠ 0 →
  Ble.size (Ble.ble_cbuf (App.ble w)) = Ble.CSIZE →
  Ble.size_mask (Ble.ble_cbuf (App.ble w)) = Ble.CSIZE - 1 →
  length (Ble.cbuf (Ble.ble_cbuf (App.ble w))) = 64%nat →
  length (Ble.result_str (App.ble w)) = 64%nat →
  Leuart.rx_at_rest (App.leuart w) → Leuart.tx_at_rest (App.leuart w) →
  Leuart.leuart0_tx_done_cb (App.leuart w) = App.BLE_TX_CB →
  Scheduler.event_scheduled (App.sched w) = App.BOOT_UP_CB ∨
  Scheduler.event_scheduled (App.sched w) = Z.lor App.BLE_TX_CB App.BOOT_UP_CB →
  Leuart.sleep (App.leuart w) = [c0; c1; c2; c; c4] → 0 <= c < 4 →
  ∃ w' : App.world,
    (App.serve_boot_event RUNNING EM ;; App.serve_serial_events ;;
     App.transmitted 29 ;; App.serve_serial_events ;;
     App.transmitted 13 ;; App.serve_serial_events ;;
     App.transmitted 8 ;; App.serve_serial_events ;;
     App.transmitted 14 ;; App.serve_serial_events) w = Ok tt w' ∧
    Leuart.TXDATA (Leuart.LEUART0 (App.leuart w')) =
      Leuart.TXDATA (Leuart.LEUART0 (App.leuart w)) ++
      ([10] ++ bytes_of_string "Passed Circular Buffer Test" ++ [10]) ++
      ([10] ++ bytes_of_string "Hello World" ++ [10]) ++
      (bytes_of_string "ADC Lab" ++ [10]) ++
      (bytes_of_string "Matt Hartnett" ++ [10]) ∧
    Leuart.busy (Leuart.tx_leuart_sm (App.leuart w')) = false ∧
    Ble.space_of (Ble.ble_cbuf (App.ble w')) = Ble.CSIZE ∧
    Scheduler.event_scheduled (App.sched w') = 0 ∧
    Scheduler.posted (App.sched w') =
      Scheduler.posted (App.sched w) ++
      [App.BLE_TX_CB; App.BLE_TX_CB; App.BLE_TX_CB; App.BLE_TX_CB] ∧
    Leuart.sleep (App.leuart w') = Leuart.sleep (App.leuart w) ∧
    App.str w' = App.str w ∧ App.celsius w' = App.celsius w.
Proof.
  intros Hrun Hsz Hmask Hl Hres
         (Hst & Hrlen & Hien & Hif & Hsf & Hsg & Hrb & Hsu) (Hbusy & Htl)
         Hcb Hm Hsl Hc.
  apply Z.eqb_neq in Hrun.
  destruct w as [str cel [[cb mask sz rp wp] res
                          [[ts bsy tstr tlen tk tcbk] [rst rbuf rlen rcb] rxcb txcb
                           [ien if_ rxd sf sg rb su txd] sl [m ps]]]].
  unfold App.leuart, App.sched in *.
  cbn in Hsz, Hmask, Hl, Hres, Hst, Hrlen, Hien, Hif, Hsf, Hsg, Hrb, Hsu,
         Hbusy, Htl, Hcb, Hm, Hsl.
  subst sz mask rst ien if_ sf sg rb su bsy txcb sl.
  explicit_list cb Hl.
  explicit_list res Hres.
  explicit_list tstr Htl.
  unfold App.serve_boot_event, App.scheduled_boot_up_cb, App.letimer_start,
    Letimer.letimer_start.
  rewrite Hrun. cbn [andb negb]. rewrite andb_false_r.
  assert (Hcase : c = 0 ∨ c = 1 ∨ c = 2 ∨ c = 3) by lia.
  destruct Hm as [-> | ->]; destruct Hcase as [->|[->|[->| ->]]];
    (eexists; split; [vm_compute; reflexivity|]; repeat split).
  all: unfold App.leuart; cbn [App.ble Ble.leuart Leuart.LEUART0 Leuart.TXDATA].
  all: fold (@app Z); repeat rewrite <- app_assoc; reflexivity.
Qed.

Lemma boot_messages_go_out_in_order_witness :
  ∃ w' : App.world,
    (App.serve_boot_event 1 4 ;; App.serve_serial_events ;;
     App.transmitted 29 ;; App.serve_serial_events ;;
     App.transmitted 13 ;; App.serve_serial_events ;;
     App.transmitted 8 ;; App.serve_serial_events ;;
     App.transmitted 14 ;; App.serve_serial_events) App.after_setup = Ok tt w' ∧
    Leuart.TXDATA (Leuart.LEUART0 (App.leuart w')) =
      Leuart.TXDATA (Leuart.LEUART0 (App.leuart App.after_setup)) ++
      ([10] ++ bytes_of_string "Passed Circular Buffer Test" ++ [10]) ++
      ([10] ++ bytes_of_string "Hello World" ++ [10]) ++
      (bytes_of_string "ADC Lab" ++ [10]) ++
      (bytes_of_string "Matt Hartnett" ++ [10]) ∧
    Leuart.busy (Leuart.tx_leuart_sm (App.leuart w')) = false ∧
    Ble.space_of (Ble.ble_cbuf (App.ble w')) = Ble.CSIZE ∧
    Scheduler.event_scheduled (App.sched w') = 0 ∧
    Scheduler.posted (App.sched w') =
      Scheduler.posted (App.sched App.after_setup) ++
      [App.BLE_TX_CB; App.BLE_TX_CB; App.BLE_TX_CB; App.BLE_TX_CB] ∧
    Leuart.sleep (App.leuart w') = Leuart.sleep (App.leuart App.after_setup) ∧
    App.str w' = App.str App.after_setup ∧
    App.celsius w' = App.celsius App.after_setup.
Proof.
  apply (boot_messages_go_out_in_order App.after_setup 1 4 0 0 0 1 0);
    [lia | reflexivity | reflexivity | reflexivity | reflexivity | repeat split
    | repeat split | reflexivity | right; reflexivity | reflexivity | lia].
Defined.

(** X24. A block on one level bounds the sleep.  After [sleep_open],
    whatever the table held, and one [sleep_block_mode], [enter_sleep]
    stays awake when the level is EM0 or EM1, enters EM1 when it is EM2,
    EM2 when it is EM3, and EM3 when it is EM4; the table it leaves is the
    cleared one with that single block. *)
Theorem block_bounds_the_sleep (t0 : list Z) (EM : Z) :
  length t0 = 5%nat → Sleep.valid_level EM →
  (Sleep.sleep_open ;; Sleep.sleep_block_mode EM ;; Sleep.enter_sleep) t0 =
    Ok (if EM <? 2 then []
        else if EM =? 2 then [Sleep.EMU_EnterEM1]
        else if EM =? 3 then [Sleep.EMU_EnterEM2 true]
        else [Sleep.EMU_EnterEM3 true])
       (<[Z.to_nat EM := 1]> [0; 0; 0; 0; 0]).
Proof.
  intros Hlen [H0 H1]. unfold Sleep.MAX_ENERGY_MODES in H1.
  do 5 (destruct t0 as [|? t0]; [discriminate Hlen|]).
  destruct t0; [|discriminate Hlen].
  assert (HEM : EM = 0 ∨ EM = 1 ∨ EM = 2 ∨ EM = 3 ∨ EM = 4) by lia.
  destruct HEM as [->|[->|[->|[->| ->]]]]; vm_compute; reflexivity.
Qed.

Lemma block_bounds_the_sleep_witness :
  (Sleep.sleep_open ;; Sleep.sleep_block_mode 3 ;; Sleep.enter_sleep) [1; 2; 3; 4; 0] =
    Ok (if 3 <? 2 then []
        else if 3 =? 2 then [Sleep.EMU_EnterEM1]
        else if 3 =? 3 then [Sleep.EMU_EnterEM2 true]
        else [Sleep.EMU_EnterEM3 true])
       (<[Z.to_nat 3 := 1]> [0; 0; 0; 0; 0]).
Proof.
  apply (block_bounds_the_sleep [1; 2; 3; 4; 0] 3);
    [reflexivity | unfold Sleep.valid_level, Sleep.MAX_ENERGY_MODES; lia].
Defined.
